(** * Rag-chatbot: ingestion and query pipeline

    A shallow embedding of the backend of the RAG chatbot
    ([backend/ingest.py], [backend/chroma_client.py], [backend/embedder.py],
    [backend/query.py] and the query route of [backend/app.py]) together with
    the properties of its chunker, retry combinator, vector-store wrapper and
    the two orchestrators.

    Python [int] is [Z], [float] is a binary64 primitive float, [str] is
    [string], a [dict] with string keys is a [gmap string _], and a call
    that may raise returns a [Result]. *)

From Stdlib Require Import ZArith NArith Lia List Ascii String DecimalString.
From Stdlib Require Import Floats Sorted Permutation.
From stdpp Require Import base option list strings gmap.

Open Scope string_scope.
Open Scope list_scope.
Open Scope Z_scope.

(** ** Python values and exceptions *)

Module Py.

(** The exception classes the backend raises or catches.  [KeyboardInterrupt]
    and [SystemExit] derive from [BaseException] only, so [except Exception]
    does not catch them. *)
Inductive ExcClass : Type :=
  | ValueError
  | RuntimeError
  | TypeError
  | IndexError
  | OverflowError
  | FileNotFoundError
  | HTTPException (status_code : Z)
  | OtherException
  | KeyboardInterrupt
  | SystemExit.

Record Exc : Type := mkExc { exc_class : ExcClass; exc_msg : string }.

Definition is_Exception (e : Exc) : bool :=
  match exc_class e with
  | KeyboardInterrupt | SystemExit => false
  | _ => true
  end.

Definition is_RuntimeError (e : Exc) : bool :=
  match exc_class e with
  | RuntimeError => true
  | _ => false
  end.

(** [str(e)] of an exception built from one message. *)
Definition str_exc (e : Exc) : string := exc_msg e.

(** Outcome of a call: a value, a raised exception, or no outcome at all
    (the call is still running when the fuel of the model is used up). *)
Inductive Result (A : Type) : Type :=
  | Return (a : A)
  | Raise (e : Exc)
  | Diverge.
Arguments Return {A} a.
Arguments Raise {A} e.
Arguments Diverge {A}.

(** Values stored in chunk metadata. *)
Inductive Val : Type :=
  | VStr (s : string)
  | VInt (z : Z).

(** [len(l)] *)
Definition len {A} (l : list A) : Z := Z.of_nat (length l).

(** Normalisation of one slice bound against a sequence of length [n]:
    a negative bound counts from the end, and the result is clamped to
    [0..n]. *)
Definition slice_bound (n i : Z) : Z :=
  if i <? 0 then Z.max 0 (i + n) else Z.min i n.

(** [l[lo:hi]] *)
Definition slice {A} (l : list A) (lo hi : Z) : list A :=
  let lo' := slice_bound (len l) lo in
  let hi' := slice_bound (len l) hi in
  firstn (Z.to_nat (hi' - lo')) (skipn (Z.to_nat lo') l).

(** [range(n)] *)
Definition range (n : Z) : list Z := map Z.of_nat (seq 0 (Z.to_nat n)).

(** [str(n)] for an integer. *)
Definition str_int (z : Z) : string := NilEmpty.string_of_int (Z.to_int z).

Definition str_val (v : Val) : string :=
  match v with
  | VStr s => s
  | VInt z => str_int z
  end.

End Py.
Import Py.

(** ** TextChunker (backend/ingest.py) *)

(** The HuggingFace tokenizer is an external collaborator: a pair of maps
    between text and token-id sequences. *)
Record Tokenizer : Type := mkTokenizer {
  tok_encode : string -> list Z;
  tok_decode : list Z -> string
}.

Record TextChunker : Type := mkTextChunker {
  tokenizer : Tokenizer;
  chunk_size : Z;
  overlap : Z
}.

(** [TextChunker.__init__]: loads the tokenizer (which may fail) and stores
    the two sizes as given. *)
Definition TextChunker_init
    (from_pretrained : string -> Result Tokenizer)
    (tokenizer_name : string) (chunk_size overlap : Z) : Result TextChunker :=
  match from_pretrained tokenizer_name with
  | Return tk => Return (mkTextChunker tk chunk_size overlap)
  | Raise e => Raise e
  | Diverge => Diverge
  end.

(** A window of the token sequence: the bounds [start], [end] of one slice
    [tokens[start:end]] taken by the loop. *)
Record Window : Type := mkWindow { w_start : Z; w_end : Z }.

(** The [while start < len(tokens)] loop of [TextChunker.chunk].  [emit]
    is what the body appends for the window [start], [end]; one unit of
    fuel is one test of the loop condition. *)
Fixpoint chunk_loop {B} (fuel : nat) (emit : Z -> Z -> B)
    (n chunk_size overlap : Z) (start : Z) (chunks : list B)
    : option (list B) :=
  match fuel with
  | O => None
  | S fuel' =>
      if start <? n then
        let end_ := Z.min (start + chunk_size) n in
        let chunks' := chunks ++ [emit start end_] in
        if end_ >=? n then Some chunks'
        else chunk_loop fuel' emit n chunk_size overlap
               (start + (chunk_size - overlap)) chunks'
      else Some chunks
  end.

(** [TextChunker.chunk] *)
Definition chunk (fuel : nat) (self : TextChunker) (text : string)
    : option (list string) :=
  let tokens := tok_encode (tokenizer self) text in
  if len tokens =? 0 then Some []
  else
    chunk_loop fuel
      (fun start end_ => tok_decode (tokenizer self) (slice tokens start end_))
      (len tokens) (chunk_size self) (overlap self) 0 [].

(** The windows the same loop takes, before decoding. *)
Definition chunk_windows (fuel : nat) (self : TextChunker) (text : string)
    : option (list Window) :=
  let tokens := tok_encode (tokenizer self) text in
  if len tokens =? 0 then Some []
  else
    chunk_loop fuel mkWindow
      (len tokens) (chunk_size self) (overlap self) 0 [].

Definition window_tokens (tokens : list Z) (w : Window) : list Z :=
  slice tokens (w_start w) (w_end w).

(** ** Strings *)

Definition nl : string := String "010"%char "".
Definition dquote : string := String "034"%char "".

(** ASCII [str.lower()]. *)
Definition lower_ascii (c : ascii) : ascii :=
  let n := nat_of_ascii c in
  if ((65 <=? n) && (n <=? 90))%nat then ascii_of_nat (n + 32) else c.

Fixpoint str_lower (s : string) : string :=
  match s with
  | EmptyString => EmptyString
  | String c s' => String (lower_ascii c) (str_lower s')
  end.

(** [needle in hay] for strings. *)
Fixpoint str_contains (needle hay : string) : bool :=
  String.prefix needle hay ||
  match hay with
  | EmptyString => false
  | String _ hay' => str_contains needle hay'
  end.

(** [sep.join(parts)] *)
Fixpoint str_join (sep : string) (parts : list string) : string :=
  match parts with
  | [] => ""
  | [p] => p
  | p :: rest => p ++ sep ++ str_join sep rest
  end.

(** ** uuid.uuid4 (Python standard library)

    [uuid4()] is [UUID(bytes=os.urandom(16), version=4)]: the sixteen random
    bytes are read as a big-endian integer, the variant and version bits are
    forced, and [str] prints the integer as 32 lowercase hexadecimal digits
    grouped 8-4-4-4-12 with hyphens. *)

Definition hex_alphabet : list ascii :=
  list_ascii_of_string "0123456789abcdef".

Definition hex_char (d : N) : ascii :=
  nth (N.to_nat d) hex_alphabet "f"%char.

(** The lowest [k] hexadecimal digits of [n], most significant first. *)
Fixpoint hex_digits (k : nat) (n : N) : string :=
  match k with
  | O => ""
  | S k' => hex_digits k' (n / 16) ++ String (hex_char (n mod 16)) ""
  end.

Definition uuid4_int (random_bytes : N) : N :=
  let i := (random_bytes mod 2 ^ 128)%N in
  let i := N.ldiff i (N.shiftl 0xc000 48) in
  let i := N.lor i (N.shiftl 0x8000 48) in
  let i := N.ldiff i (N.shiftl 0xf000 64) in
  N.lor i (N.shiftl 4 76).

Definition uuid_str (i : N) : string :=
  hex_digits 8 (N.shiftr i 96) ++ "-" ++
  hex_digits 4 (N.shiftr i 80) ++ "-" ++
  hex_digits 4 (N.shiftr i 64) ++ "-" ++
  hex_digits 4 (N.shiftr i 48) ++ "-" ++
  hex_digits 12 i.

(** ** The vector store, the services' shared state and the collaborators *)

Inductive LogLevel : Type := DEBUG | INFO | WARNING | ERROR.

Record LogRecord : Type := mkLog { log_level : LogLevel; log_msg : string }.

(** One record of the Chroma collection. *)
Record StoredRecord : Type := mkRecord {
  rec_id : string;
  rec_document : string;
  rec_embedding : list float;
  rec_metadata : gmap string Val
}.

(** What [collection.query] returns: one inner list per query embedding. *)
Record RawQuery : Type := mkRawQuery {
  raw_ids : list (list string);
  raw_documents : list (list string);
  raw_metadatas : list (list (gmap string Val));
  raw_distances : list (list float)
}.

(** The state shared by the singleton services.  [collection] is the
    content of the Chroma collection, [chroma_log] the records emitted on the
    logger of [backend.chroma_client]; the counters say how often the
    embedding model, the generation model, the random source and the clock
    have been used, and [slept] lists the arguments of [time.sleep]. *)
Record World : Type := mkWorld {
  collection : list StoredRecord;
  chroma_log : list LogRecord;
  model_calls : nat;
  generate_calls : nat;
  slept : list float;
  entropy_draws : nat;
  clock_reads : nat
}.

Definition set_collection (c : list StoredRecord) (w : World) : World :=
  mkWorld c (chroma_log w) (model_calls w) (generate_calls w) (slept w)
    (entropy_draws w) (clock_reads w).

Definition add_log (r : LogRecord) (w : World) : World :=
  mkWorld (collection w) (chroma_log w ++ [r]) (model_calls w)
    (generate_calls w) (slept w) (entropy_draws w) (clock_reads w).

Definition tick_model (w : World) : World :=
  mkWorld (collection w) (chroma_log w) (S (model_calls w))
    (generate_calls w) (slept w) (entropy_draws w) (clock_reads w).

Definition tick_generate (w : World) : World :=
  mkWorld (collection w) (chroma_log w) (model_calls w)
    (S (generate_calls w)) (slept w) (entropy_draws w) (clock_reads w).

Definition add_sleep (d : float) (w : World) : World :=
  mkWorld (collection w) (chroma_log w) (model_calls w)
    (generate_calls w) (slept w ++ [d]) (entropy_draws w) (clock_reads w).

Definition tick_entropy (w : World) : World :=
  mkWorld (collection w) (chroma_log w) (model_calls w)
    (generate_calls w) (slept w) (S (entropy_draws w)) (clock_reads w).

Definition tick_clock (w : World) : World :=
  mkWorld (collection w) (chroma_log w) (model_calls w)
    (generate_calls w) (slept w) (entropy_draws w) (S (clock_reads w)).

(** One entry of [retrieved_chunks]. *)
Record RetrievedChunk : Type := mkRetrievedChunk {
  rc_id : string;
  rc_document : string;
  rc_metadata : gmap string Val;
  rc_distance : float
}.

(** One citation; a field is [None] when the metadata lacks the key. *)
Record Citation : Type := mkCitation {
  source_filename : option Val;
  page_number : option Val;
  chunk_index : option Val
}.

(** The collaborators outside the repository.  An oracle indexed by a
    counter gives the outcome of the n-th use. *)
Record Externals : Type := mkExternals {
  (** [AutoTokenizer.from_pretrained] *)
  from_pretrained : string -> Result Tokenizer;
  (** [os.urandom(16)], read as an integer *)
  urandom : nat -> N;
  (** [datetime.now().isoformat()] *)
  now_isoformat : nat -> string;
  (** [fitz.open(path)] and, for each page of the document in order, the
      outcome of [doc[page_num].get_text()] *)
  fitz_open : string -> Result (list (Result string));
  (** [str.strip()] *)
  str_strip : string -> string;
  (** loading and running the sentence-transformers model *)
  model_encode : nat -> list string -> Result (list (list float));
  (** [model.generate_content(prompt, ...).text] *)
  generate_content : nat -> string -> Result string;
  (** the engine's own validation of a batch against the collection
      (duplicate identifiers within the batch are among its reasons to
      refuse one) *)
  collection_add_check :
    list StoredRecord -> list StoredRecord -> option Exc;
  (** the engine's nearest-neighbour query *)
  collection_query :
    list StoredRecord -> list float -> Z -> Result RawQuery;
  (** a failure of the engine's [collection.count()] *)
  collection_count_check : list StoredRecord -> option Exc;
  (** pydantic's validation of the fields of a [Citation] and of a
      [RetrievedChunk] of the response: the model, or the text of the
      [ValidationError] *)
  Citation_validate : Citation -> Citation + string;
  RetrievedChunk_validate : RetrievedChunk -> RetrievedChunk + string
}.

(** Computations of the services: state passing with exceptions. *)
Definition M (A : Type) : Type := World -> Result A * World.

Definition ret {A} (a : A) : M A := fun w => (Return a, w).

Definition raise {A} (e : Exc) : M A := fun w => (Raise e, w).

Definition lift {A} (r : Result A) : M A := fun w => (r, w).

Definition bind {A B} (m : M A) (k : A -> M B) : M B :=
  fun w =>
    match m w with
    | (Return a, w') => k a w'
    | (Raise e, w') => (Raise e, w')
    | (Diverge, w') => (Diverge, w')
    end.

(** [try: m  except Exception as e: handler(e)] *)
Definition try_except {A} (m : M A) (handler : Exc -> M A) : M A :=
  fun w =>
    match m w with
    | (Raise e, w') =>
        if is_Exception e then handler e w' else (Raise e, w')
    | other => other
    end.

Definition modify (f : World -> World) : M unit := fun w => (Return tt, f w).

Notation "'let*' x ':=' m 'in' k" := (bind m (fun x => k))
  (at level 10, x name, m at level 100, k at level 200, only parsing).

(** ** retry_with_backoff (backend/ingest.py)

    The combinator only needs a state in which [func] runs and
    [time.sleep] passes time, so it is written over any state type [St].
    [time.sleep] is called inside the [except] block, unprotected: when it
    raises, the exception leaves the function. *)

(** What [raise None] raises. *)
Definition raise_None_error : Exc :=
  mkExc TypeError "exceptions must derive from BaseException".

Section Retry.
Context {St A : Type}.
Variable sleep : float -> St -> Result unit * St.
Variable func : St -> Result A * St.

(** [raise last_exception]: raising [None] is itself a [TypeError]. *)
Definition raise_last (last_exception : option Exc) (s : St)
    : Result A * St :=
  match last_exception with
  | Some e => (Raise e, s)
  | None => (Raise raise_None_error, s)
  end.

(** The [for attempt in range(max_retries)] loop, over the attempt
    numbers still to run, followed by the final [raise]. *)
Fixpoint retry_loop (max_retries : Z) (attempts : list Z)
    (last_exception : option Exc) (delay : float) (s : St)
    : Result A * St :=
  match attempts with
  | [] => raise_last last_exception s
  | attempt :: rest =>
      match func s with
      | (Return v, s') => (Return v, s')
      | (Raise e, s') =>
          if is_Exception e then
            if attempt <? max_retries - 1 then
              match sleep delay s' with
              | (Return _, s'') =>
                  retry_loop max_retries rest (Some e) (delay * 2)%float s''
              | (Raise e', s'') => (Raise e', s'')
              | (Diverge, s'') => (Diverge, s'')
              end
            else retry_loop max_retries rest (Some e) delay s'
          else (Raise e, s')
      | (Diverge, s') => (Diverge, s')
      end
  end.

Definition retry_with_backoff (max_retries : Z) (initial_delay : float)
    (s : St) : Result A * St :=
  retry_loop max_retries (range max_retries) None initial_delay s.
End Retry.

(** An observer of one run of the combinator: every call of [func] with
    its outcome and every [time.sleep] with its argument and its outcome,
    in order. *)
Inductive RetryEvent (A : Type) : Type :=
  | Called (outcome : Result A)
  | Slept (delay : float) (outcome : Result unit).
Arguments Called {A} outcome.
Arguments Slept {A} delay outcome.

Definition observed_func {St A} (func : St -> Result A * St)
    : St * list (RetryEvent A) -> Result A * (St * list (RetryEvent A)) :=
  fun st =>
    let '(r, s') := func (fst st) in (r, (s', snd st ++ [Called r])).

Definition observed_sleep {St A} (sleep : float -> St -> Result unit * St)
    : float -> St * list (RetryEvent A)
      -> Result unit * (St * list (RetryEvent A)) :=
  fun d st =>
    let '(r, s') := sleep d (fst st) in (r, (s', snd st ++ [Slept d r])).

(** The events of a run whose calls had the given outcomes and whose waits
    all passed: a wait after every call but the last, starting at [delay]
    and doubling. *)
Fixpoint backoff_trace {A} (outcomes : list (Result A)) (delay : float)
    : list (RetryEvent A) :=
  match outcomes with
  | [] => []
  | [r] => [Called r]
  | r :: rest =>
      Called r :: Slept delay (Return tt)
      :: backoff_trace rest (delay * 2)%float
  end.

(** A failure that [except Exception] catches. *)
Definition caught_failure {A} (r : Result A) : Prop :=
  exists e, r = Raise e /\ is_Exception e = true.

(** ** Embedder (backend/embedder.py) *)

Section Services.
Variable ext : Externals.

(** [Embedder.encode]: nothing to do for an empty list; otherwise the
    model is loaded if needed and run, and whatever that raises is
    re-raised. *)
Definition Embedder_encode (texts : list string) : M (list (list float)) :=
  match texts with
  | [] => ret []
  | _ => fun w => (model_encode ext (model_calls w) texts, tick_model w)
  end.

(** ** ChromaClient (backend/chroma_client.py) *)

Fixpoint zip_records (ids documents : list string)
    (embeddings : list (list float)) (metadatas : list (gmap string Val))
    : list StoredRecord :=
  match ids, documents, embeddings, metadatas with
  | i :: ids', d :: documents', e :: embeddings', m :: metadatas' =>
      mkRecord i d e m :: zip_records ids' documents' embeddings' metadatas'
  | _, _, _, _ => []
  end.

(** [id in ids] *)
Definition id_in (ids : list string) (id : string) : bool :=
  existsb (String.eqb id) ids.

(** The records of a batch whose identifier the collection does not hold
    yet. *)
Definition not_held (held batch : list StoredRecord) : list StoredRecord :=
  List.filter (fun rec => negb (id_in (map rec_id held) (rec_id rec))) batch.

(** [collection.add]: the engine validates the batch; a record whose
    identifier the collection already holds is skipped without an error,
    the others are appended. *)
Definition collection_add (batch : list StoredRecord) : M unit :=
  fun w =>
    match collection_add_check ext (collection w) batch with
    | Some e => (Raise e, w)
    | None =>
        (Return tt,
         set_collection (collection w ++ not_held (collection w) batch) w)
    end.

(** [collection.count()], a call of the engine like the others. *)
Definition collection_count : M Z :=
  fun w =>
    match collection_count_check ext (collection w) with
    | Some e => (Raise e, w)
    | None => (Return (len (collection w)), w)
    end.

(** [ChromaClient.count] *)
Definition count : M Z := collection_count.

(** [ChromaClient.add_chunks] *)
Definition add_chunks (ids documents : list string)
    (embeddings : list (list float)) (metadatas : list (gmap string Val))
    : M unit :=
  if len ids =? 0 then
    modify (add_log (mkLog WARNING "No chunks to add"))
  else if negb ((len ids =? len documents)
                && (len documents =? len embeddings)
                && (len embeddings =? len metadatas)) then
    raise (mkExc ValueError "All input lists must have the same length")
  else
    try_except
      (let* _ :=
         collection_add (zip_records ids documents embeddings metadatas) in
       let* total := collection_count in
       modify (add_log (mkLog INFO
         ("Added " ++ str_int (len ids)
          ++ " chunks to collection. Total count: " ++ str_int total))))
      (fun e =>
         let* _ := modify (add_log
                (mkLog ERROR ("Failed to add chunks: " ++ str_exc e))) in
         raise e).

Definition first_or_empty {B} (l : list (list B)) : list B :=
  match l with
  | [] => []
  | x :: _ => x
  end.

(** The flattened result of [ChromaClient.query_similar]. *)
Record QueryResults : Type := mkQueryResults {
  res_ids : list string;
  res_documents : list string;
  res_metadatas : list (gmap string Val);
  res_distances : list float
}.

(** [ChromaClient.query_similar] *)
Definition query_similar (query_embedding : list float) (k : Z)
    : M QueryResults :=
  try_except
    (let* results := (fun w =>
       (collection_query ext (collection w) query_embedding k, w)) in
     ret (mkQueryResults
            (first_or_empty (raw_ids results))
            (first_or_empty (raw_documents results))
            (first_or_empty (raw_metadatas results))
            (first_or_empty (raw_distances results))))
    (fun e =>
       let* _ := modify (add_log
              (mkLog ERROR ("Query failed: " ++ str_exc e))) in
       raise e).

(** ** PDFIngestor (backend/ingest.py) *)

Record PDFIngestor : Type := mkPDFIngestor { chunker : TextChunker }.

(** [PDFIngestor.__init__]: the chunker is built with its defaults. *)
Definition PDFIngestor_init : Result PDFIngestor :=
  match TextChunker_init (from_pretrained ext) "bert-base-uncased" 400 50 with
  | Return c => Return (mkPDFIngestor c)
  | Raise e => Raise e
  | Diverge => Diverge
  end.

(** [MarkdownConverter.convert] is a pure, total function from text to
    text; nothing below depends on which one. *)
Variable markdown_convert : string -> string.

(** The page loop of [PDFIngestor.extract_pdf_text]; [page_num] is the
    zero-based loop variable. *)
Fixpoint extract_pages (pages : list (Result string)) (page_num : Z)
    (page_texts : list (Z * string)) (failed_pages : list Z)
    : Result (list (Z * string) * list Z) :=
  match pages with
  | [] => Return (page_texts, failed_pages)
  | page :: rest =>
      match page with
      | Return text =>
          if len (list_ascii_of_string (str_strip ext text)) <? 10 then
            extract_pages rest (page_num + 1) page_texts
              (failed_pages ++ [page_num + 1])
          else
            extract_pages rest (page_num + 1)
              (page_texts ++ [(page_num + 1, text)]) failed_pages
      | Raise e =>
          if is_Exception e then
            extract_pages rest (page_num + 1) page_texts
              (failed_pages ++ [page_num + 1])
          else Raise e
      | Diverge => Diverge
      end
  end.

(** [PDFIngestor.extract_pdf_text] *)
Definition extract_pdf_text (pdf_path : string)
    : Result (list (Z * string) * list Z) :=
  match fitz_open ext pdf_path with
  | Return pages => extract_pages pages 0 [] []
  | Raise e =>
      if is_Exception e then
        Raise (mkExc ValueError ("Cannot open PDF file: " ++ str_exc e))
      else Raise e
  | Diverge => Diverge
  end.

(** One entry of [all_chunks]. *)
Record ChunkEntry : Type := mkChunkEntry {
  ce_text : string;
  ce_page_number : Z;
  ce_chunk_index : Z
}.

(** The inner loop [for chunk_text in chunks]; returns the extended list
    and the next free index. *)
Fixpoint append_chunks (chunks : list string) (page_num : Z)
    (all_chunks : list ChunkEntry) (chunk_index : Z)
    : list ChunkEntry * Z :=
  match chunks with
  | [] => (all_chunks, chunk_index)
  | chunk_text :: rest =>
      append_chunks rest page_num
        (all_chunks ++ [mkChunkEntry chunk_text page_num chunk_index])
        (chunk_index + 1)
  end.

(** The outer loop [for page_num, text in page_texts]. *)
Fixpoint chunk_pages (fuel : nat) (self : PDFIngestor)
    (page_texts : list (Z * string))
    (all_chunks : list ChunkEntry) (chunk_index : Z)
    : Result (list ChunkEntry) :=
  match page_texts with
  | [] => Return all_chunks
  | (page_num, text) :: rest =>
      let markdown_text := markdown_convert text in
      match chunk fuel (chunker self) markdown_text with
      | None => Diverge
      | Some chunks =>
          let '(all_chunks', chunk_index') :=
            append_chunks chunks page_num all_chunks chunk_index in
          chunk_pages fuel self rest all_chunks' chunk_index'
      end
  end.

(** [str(uuid.uuid4())] *)
Definition new_doc_id : M string :=
  fun w =>
    (Return (uuid_str (uuid4_int (urandom ext (entropy_draws w)))),
     tick_entropy w).

(** [datetime.now().isoformat()] *)
Definition now : M string :=
  fun w => (Return (now_isoformat ext (clock_reads w)), tick_clock w).

(** [time.sleep(secs)]: the argument is turned into nanoseconds; a NaN, a
    number of nanoseconds outside 64 bits and a negative one are refused,
    in this order, and nothing is waited for. *)
Definition time_sleep (secs : float) : M unit :=
  fun w =>
    if PrimFloat.is_nan secs then
      (Raise (mkExc ValueError "Invalid value NaN (not a number)"), w)
    else if (secs * 1000000000 <? -9223372036854775808)%float
            || (9223372036854775808 <=? secs * 1000000000)%float then
      (Raise (mkExc OverflowError
                "timestamp too large to convert to C _PyTime_t"), w)
    else if (secs <? 0)%float then
      (Raise (mkExc ValueError "sleep length must be non-negative"), w)
    else (Return tt, add_sleep secs w).

Definition chunk_id (doc_id : string) (c : ChunkEntry) : string :=
  doc_id ++ "___" ++ str_int (ce_chunk_index c).

Definition chunk_metadata (doc_id filename ingested_at : string)
    (c : ChunkEntry) : gmap string Val :=
  <["doc_id" := VStr doc_id]>
  (<["source_filename" := VStr filename]>
  (<["page_number" := VInt (ce_page_number c)]>
  (<["chunk_index" := VInt (ce_chunk_index c)]>
  (<["ingested_at" := VStr ingested_at]> ∅)))).

(** The dictionary [process_pdf] returns. *)
Record IngestResult : Type := mkIngestResult {
  ir_doc_id : string;
  ir_status : string;
  ir_chunks : Z;
  ir_failed_pages : list Z
}.

(** [PDFIngestor.process_pdf]; [fuel] bounds each run of the chunker's
    loop. *)
Definition process_pdf (fuel : nat) (self : PDFIngestor)
    (pdf_path filename : string) : M IngestResult :=
  let* doc_id := new_doc_id in
  let* extracted := lift (extract_pdf_text pdf_path) in
  let '(page_texts, failed_pages) := extracted in
  match page_texts with
  | [] =>
      raise (mkExc ValueError
        "No text could be extracted from PDF. It may be image-only (OCR not supported).")
  | _ =>
      let* all_chunks := lift (chunk_pages fuel self page_texts [] 0) in
      let chunk_texts := map ce_text all_chunks in
      let embed_func := Embedder_encode chunk_texts in
      let* embeddings := retry_with_backoff time_sleep embed_func 3 1%float in
      let* ingested_at := now in
      let ids := map (chunk_id doc_id) all_chunks in
      let documents := chunk_texts in
      let embeddings_list := embeddings in
      let metadatas :=
        map (chunk_metadata doc_id filename ingested_at) all_chunks in
      let* _ := add_chunks ids documents embeddings_list metadatas in
      let status :=
        match failed_pages with [] => "ingested" | _ => "partial" end in
      ret (mkIngestResult doc_id status (len all_chunks) failed_pages)
  end.

(** ** PromptBuilder and QueryService (backend/query.py) *)

(** The dictionary [answer_query] returns (and the [QueryResponse] built
    from it). *)
Record QueryAnswer : Type := mkQueryAnswer {
  answer : string;
  citations : list Citation;
  retrieved_chunks : list RetrievedChunk
}.

(** [metadata.get(key, default)] printed inside an f-string. *)
Definition get_str (metadata : gmap string Val) (key default : string)
    : string :=
  match metadata !! key with
  | Some v => str_val v
  | None => default
  end.

Definition context_part (c : RetrievedChunk) : string :=
  "--- [source: " ++ get_str (rc_metadata c) "source_filename" "unknown"
  ++ " | page: " ++ get_str (rc_metadata c) "page_number" "N/A"
  ++ " | chunk: " ++ get_str (rc_metadata c) "chunk_index" "N/A"
  ++ "] ---" ++ nl ++ rc_document c.

(** [PromptBuilder.TEMPLATE.format(context=..., user_question=...)] *)
Definition TEMPLATE_format (context user_question : string) : string :=
  "Answer the question using ONLY the information from the provided context. Be direct and concise."
  ++ nl ++ nl ++ "Context:" ++ nl ++ context ++ nl ++ nl
  ++ "Question:" ++ nl ++ user_question ++ nl ++ nl
  ++ "Instructions:" ++ nl
  ++ "- Provide a clear, direct answer without listing sources inline" ++ nl
  ++ "- Use natural conversational language" ++ nl
  ++ "- Be concise (2-4 sentences maximum)" ++ nl
  ++ "- If the context doesn't contain the answer, respond with ONLY: "
  ++ dquote ++ "I don't know." ++ dquote ++ nl
  ++ "- Do NOT make up information or use knowledge outside the context"
  ++ nl.

(** [PromptBuilder.build] *)
Definition PromptBuilder_build (query : string)
    (chunks : list RetrievedChunk) : string :=
  let context_parts := map context_part chunks in
  let context_str := str_join (nl ++ nl) context_parts in
  TEMPLATE_format context_str query.

(** [l[0]] for a list, raising [IndexError] when it is empty. *)
Definition first_item {B} (l : list B) : Result B :=
  match l with
  | x :: _ => Return x
  | [] => Raise (mkExc IndexError "index 0 is out of bounds")
  end.

(** The loop [for i in range(len(results["ids"]))] of [answer_query];
    [idxs] are the indices still to visit.  Indexing one of the four
    lists past its end raises [IndexError]. *)
Fixpoint build_chunks (results : QueryResults) (idxs : list nat)
    (retrieved_chunks : list RetrievedChunk)
    : Result (list RetrievedChunk) :=
  match idxs with
  | [] => Return retrieved_chunks
  | i :: rest =>
      match res_ids results !! i, res_documents results !! i,
            res_metadatas results !! i, res_distances results !! i with
      | Some id, Some d, Some m, Some dist =>
          build_chunks results rest
            (retrieved_chunks ++ [mkRetrievedChunk id d m dist])
      | _, _, _, _ => Raise (mkExc IndexError "list index out of range")
      end
  end.

Definition cite (c : RetrievedChunk) : Citation :=
  mkCitation (rc_metadata c !! "source_filename")
             (rc_metadata c !! "page_number")
             (rc_metadata c !! "chunk_index").

(** The call of the generation model inside its [try] block, and the
    translation of a failure into a [RuntimeError]. *)
Definition generate_answer (prompt : string) : M string :=
  try_except
    (let* text := (fun w =>
       (generate_content ext (generate_calls w) prompt, tick_generate w)) in
     ret (str_strip ext text))
    (fun e =>
       if str_contains "quota" (str_lower (str_exc e))
          || str_contains "rate" (str_lower (str_exc e)) then
         raise (mkExc RuntimeError
           "Gemini API rate limit exceeded. Please try again later.")
       else
         raise (mkExc RuntimeError ("Gemini API error: " ++ str_exc e))).

Definition refusal : QueryAnswer := mkQueryAnswer "I don't know." [] [].

(** [QueryService.answer_query] *)
Definition answer_query (query : string) (k : Z) : M QueryAnswer :=
  let* vectors := Embedder_encode [query] in
  let* query_embedding := lift (first_item vectors) in
  let* results := query_similar query_embedding k in
  match res_ids results with
  | [] => ret refusal
  | _ =>
      let* retrieved_chunks :=
        lift (build_chunks results (seq 0 (length (res_ids results))) []) in
      let prompt := PromptBuilder_build query retrieved_chunks in
      let* answer := generate_answer prompt in
      let citations := map cite retrieved_chunks in
      ret (mkQueryAnswer answer citations retrieved_chunks)
  end.

(** ** The query route (backend/app.py) *)

(** The comprehension that builds one response model from each dictionary
    of [items], in order; the first [ValidationError], a [ValueError], ends
    it. *)
Fixpoint validate_all {B} (validate : B -> B + string) (items : list B)
    : Result (list B) :=
  match items with
  | [] => Return []
  | c :: rest =>
      match validate c with
      | inl model =>
          match validate_all validate rest with
          | Return models => Return (model :: models)
          | Raise e => Raise e
          | Diverge => Diverge
          end
      | inr msg => Raise (mkExc ValueError msg)
      end
  end.

(** [_process_query]: the body of [GET /ask] and [POST /ask].  The
    response models are built from the dictionary of [answer_query] inside
    the [try]: the citations first, then the retrieved chunks. *)
Definition _process_query (query : string) : M QueryAnswer :=
  try_except
    (let* n := count in
     if n =? 0 then ret refusal
     else
       let* result := answer_query query 5 in
       let* response_citations :=
         lift (validate_all (Citation_validate ext) (citations result)) in
       let* response_chunks :=
         lift (validate_all (RetrievedChunk_validate ext)
                 (retrieved_chunks result)) in
       ret (mkQueryAnswer (answer result) response_citations
              response_chunks))
    (fun e =>
       if is_RuntimeError e then
         if str_contains "rate limit" (str_lower (str_exc e)) then
           raise (mkExc (HTTPException 429) (str_exc e))
         else raise (mkExc (HTTPException 500) (str_exc e))
       else
         raise (mkExc (HTTPException 500)
                  ("Query failed: " ++ str_exc e))).

End Services.

(** * Specification vocabulary *)

(** ** Chunk windows *)

Definition in_window (i : Z) (w : Window) : Prop := w_start w <= i < w_end w.

(** Every position of a sequence of length [n] lies in some window. *)
Definition covers (n : Z) (ws : list Window) : Prop :=
  forall i, 0 <= i < n -> exists w, In w ws /\ in_window i w.

(** Every token of the sequence appears, as itself, in the tokens of some
    window. *)
Definition covers_tokens (tokens : list Z) (ws : list Window) : Prop :=
  forall (i : nat) (t : Z), tokens !! i = Some t ->
    exists w, In w ws /\
      (Z.to_nat (w_start w) <= i)%nat /\
      window_tokens tokens w !! (i - Z.to_nat (w_start w))%nat = Some t.

(** The number of positions two windows have in common. *)
Definition shared (w1 w2 : Window) : Z :=
  Z.max 0 (Z.min (w_end w1) (w_end w2) - Z.max (w_start w1) (w_start w2)).

(** Every two consecutive windows have exactly [k] positions in common. *)
Definition consecutive_share (k : Z) (ws : list Window) : Prop :=
  forall (j : nat) w1 w2,
    ws !! j = Some w1 -> ws !! S j = Some w2 -> shared w1 w2 = k.

(** The window slides: a window that has a successor is full, and the
    successor starts [chunk_size - overlap] positions later and ends no
    earlier. *)
Definition slides (chunk_size overlap : Z) (ws : list Window) : Prop :=
  forall (j : nat) w1 w2,
    ws !! j = Some w1 -> ws !! S j = Some w2 ->
    w_end w1 = w_start w1 + chunk_size /\
    w_start w2 = w_start w1 + (chunk_size - overlap) /\
    w_end w1 <= w_end w2.

(** The last [k] tokens of every window are the first [k] tokens of the
    next one. *)
Definition consecutive_share_tokens (tokens : list Z) (k : Z)
    (ws : list Window) : Prop :=
  forall (j : nat) w1 w2,
    ws !! j = Some w1 -> ws !! S j = Some w2 ->
    let t1 := window_tokens tokens w1 in
    let t2 := window_tokens tokens w2 in
    drop (length t1 - Z.to_nat k) t1 = take (Z.to_nat k) t2.

(** The same, leaving out the pair that involves the final window. *)
Definition consecutive_share_but_last (k : Z) (ws : list Window) : Prop :=
  forall (j : nat) w1 w2,
    ws !! j = Some w1 -> ws !! S j = Some w2 -> (S (S j) < length ws)%nat ->
    shared w1 w2 = k.

(** The chunker terminates on [text] with windows that cover the input and
    overlap as configured, allowing the final pair to differ. *)
Definition chunk_covers_input (self : TextChunker) (text : string) : Prop :=
  exists fuel ws,
    chunk_windows fuel self text = Some ws /\
    covers (len (tok_encode (tokenizer self) text)) ws /\
    consecutive_share_but_last (overlap self) ws.

(** The values [start] takes at the first [fuel] tests of the loop
    condition that enter the body, whether or not the loop has ended by
    then. *)
Fixpoint loop_starts (fuel : nat) (n chunk_size overlap start : Z) : list Z :=
  match fuel with
  | O => []
  | S fuel' =>
      if start <? n then
        start ::
        (if Z.min (start + chunk_size) n >=? n then []
         else loop_starts fuel' n chunk_size overlap
                (start + (chunk_size - overlap)))
      else []
  end.

(** ** Concrete collaborators used in the examples *)

(** A tokenizer with one token per character. *)
Definition char_tokenizer : Tokenizer :=
  mkTokenizer
    (fun s => map (fun c => Z.of_nat (nat_of_ascii c)) (list_ascii_of_string s))
    (fun ts => string_of_list_ascii (map (fun t => ascii_of_nat (Z.to_nat t)) ts)).

(** [TextChunker(chunk_size=4, overlap=1)] over the character tokenizer. *)
Definition small_chunker : TextChunker := mkTextChunker char_tokenizer 4 1.

(** [TextChunker(chunk_size=2, overlap=-1)]: the overlap is below the chunk
    size, and negative. *)
Definition gap_chunker : TextChunker := mkTextChunker char_tokenizer 2 (-1).

(** [TextChunker(chunk_size=3, overlap=3)]: the window never moves. *)
Definition stalled_chunker : TextChunker := mkTextChunker char_tokenizer 3 3.

(** [TextChunker(chunk_size=-1, overlap=0)] *)
Definition empty_stall_chunker : TextChunker :=
  mkTextChunker char_tokenizer (-1) 0.

(** ** Observed runs of the retry combinator *)

(** The outcomes of the calls recorded in a trace, in order. *)
Fixpoint calls_of {A} (trace : list (RetryEvent A)) : list (Result A) :=
  match trace with
  | [] => []
  | Called r :: rest => r :: calls_of rest
  | Slept _ _ :: rest => calls_of rest
  end.

(** The arguments of [time.sleep] recorded in a trace, in order. *)
Fixpoint waits_of {A} (trace : list (RetryEvent A)) : list float :=
  match trace with
  | [] => []
  | Called _ :: rest => waits_of rest
  | Slept d _ :: rest => d :: waits_of rest
  end.

(** A [time.sleep] that does not return ends the run with its own
    outcome. *)
Definition sleep_ends {A} (o : Result unit) (r : Result A) : Prop :=
  (exists e, o = Raise e /\ r = Raise e) \/ (o = Diverge /\ r = Diverge).

(** [k] delays, starting at [delay] and doubling. *)
Fixpoint doubling (k : nat) (delay : float) : list float :=
  match k with
  | O => []
  | S k' => delay :: doubling k' (delay * 2)%float
  end.

(** An operation that fails on its first two calls and then returns 7; its
    state counts the calls. *)
Definition flaky_twice (calls : nat) : Result Z * nat :=
  (if (calls <? 2)%nat then Raise (mkExc OtherException "busy") else Return 7,
   S calls).

(** An operation that always fails, with the call number in the message. *)
Definition always_failing (calls : nat) : Result Z * nat :=
  (Raise (mkExc OtherException ("failure " ++ str_int (Z.of_nat calls))),
   S calls).

(** A [time.sleep] that returns at once. *)
Definition no_sleep (d : float) (calls : nat) : Result unit * nat :=
  (Return tt, calls).

(** An operation on the services' state that always fails. *)
Definition always_busy (w : World) : Result Z * World :=
  (Raise (mkExc OtherException "busy"), w).

(** ** The vector store *)

(** The four sequences passed to [add_chunks] have one length. *)
Definition same_length (ids documents : list string)
    (embeddings : list (list float)) (metadatas : list (gmap string Val))
    : Prop :=
  length ids = length documents /\
  length documents = length embeddings /\
  length embeddings = length metadatas.

(** [add_chunks] fails with a validation error and leaves the collection
    as it was whenever the four lengths differ. *)
Definition add_rejects_unequal (ext : Externals) (ids documents : list string)
    (embeddings : list (list float)) (metadatas : list (gmap string Val))
    (w : World) : Prop :=
  ~ same_length ids documents embeddings metadatas ->
  exists msg w',
    add_chunks ext ids documents embeddings metadatas w
    = (Raise (mkExc ValueError msg), w') /\
    collection w' = collection w.

(** [add_chunks] appends the records whenever [ids] is not empty and the
    four lengths agree. *)
Definition add_appends (ext : Externals) (ids documents : list string)
    (embeddings : list (list float)) (metadatas : list (gmap string Val))
    (w : World) : Prop :=
  ids <> [] -> same_length ids documents embeddings metadatas ->
  exists w',
    add_chunks ext ids documents embeddings metadatas w = (Return tt, w') /\
    collection w'
    = collection w ++ zip_records ids documents embeddings metadatas.

(** The collection holds none of the identifiers. *)
Definition holds_none (ids : list string) (held : list StoredRecord) : Prop :=
  forall rec, In rec held -> ~ In (rec_id rec) ids.

(** The collection holds no chunk identifier of the document. *)
Definition holds_no_chunk_of (doc_id : string) (held : list StoredRecord)
    : Prop :=
  forall rec i, In rec held ->
    rec_id rec <> (doc_id ++ "___" ++ str_int i)%string.

(** ASCII whitespace, as [str.strip] removes it. *)
Definition is_space (c : ascii) : bool :=
  let n := nat_of_ascii c in
  ((n =? 32) || ((9 <=? n) && (n <=? 13)) || ((28 <=? n) && (n <=? 31)))%nat.

Fixpoint lstrip (s : list ascii) : list ascii :=
  match s with
  | c :: s' => if is_space c then lstrip s' else s
  | [] => []
  end.

Definition strip (s : string) : string :=
  string_of_list_ascii
    (rev (lstrip (rev (lstrip (list_ascii_of_string s))))).

Definition unit_vector : list float := [1%float; 0%float].

(** Collaborators for the examples: the document has the given pages, the
    embedding model fails on its first use and works afterwards, the
    generation model answers with the refusal sentence, the engine accepts
    every batch, a query returns the first [k] records, the count is
    answered and the response models take their fields as they are. *)
Definition demo_ext (pages : list (Result string)) : Externals :=
  mkExternals
    (fun _ => Return char_tokenizer)
    (fun n => (0x0123456789abcdef0123456789abcdef + N.of_nat n)%N)
    (fun _ => "2025-01-01T00:00:00")
    (fun _ => Return pages)
    strip
    (fun n texts =>
       if (n <? 1)%nat then Raise (mkExc OtherException "model busy")
       else Return (map (fun _ => unit_vector) texts))
    (fun _ _ => Return "  I don't know.  ")
    (fun _ _ => None)
    (fun coll _ k =>
       let hits := take (Z.to_nat k) coll in
       Return (mkRawQuery [map rec_id hits] [map rec_document hits]
                 [map rec_metadata hits] [map (fun _ => 0%float) hits]))
    (fun _ => None)
    inl
    inl.

Definition empty_world : World := mkWorld [] [] 0 0 [] 0 0.

Definition page_one : string := "Retrieval augmented generation.".
Definition page_three : string := "Chunks carry page numbers.".

(** A three-page document whose second page has no extractable text. *)
Definition three_pages : list (Result string) :=
  [Return page_one; Return "   "; Return page_three].

(** A document whose only page is blank. *)
Definition blank_pages : list (Result string) := [Return "  "].

Definition demo_ingestor : PDFIngestor :=
  mkPDFIngestor (mkTextChunker char_tokenizer 400 50).

Definition demo_metadata (i : Z) : gmap string Val :=
  <["doc_id" := VStr "doc1"]>
  (<["source_filename" := VStr "test.pdf"]>
  (<["page_number" := VInt 1]>
  (<["chunk_index" := VInt i]> ∅))).

Definition demo_record (i : Z) (text : string) : StoredRecord :=
  mkRecord ("doc1___" ++ str_int i) text unit_vector (demo_metadata i).

(** A store that already holds two chunks of one document. *)
Definition stocked_world : World :=
  mkWorld [demo_record 0 "First chunk text"; demo_record 1 "Second chunk text"]
    [] 1 0 [] 1 1.

(** What the engine of the examples returns for a query on that store. *)
Definition stocked_raw : RawQuery :=
  mkRawQuery
    [["doc1___0"; "doc1___1"]]
    [["First chunk text"; "Second chunk text"]]
    [[demo_metadata 0; demo_metadata 1]]
    [[0%float; 0%float]].

(** ** Retrieval *)

(** The retrieved chunks for four result lists of one length. *)
Fixpoint zip_chunks (ids documents : list string)
    (metadatas : list (gmap string Val)) (distances : list float)
    : list RetrievedChunk :=
  match ids, documents, metadatas, distances with
  | i :: ids', d :: documents', m :: metadatas', x :: distances' =>
      mkRetrievedChunk i d m x :: zip_chunks ids' documents' metadatas' distances'
  | _, _, _, _ => []
  end.

(** The projection of a chunk's metadata onto the three citation keys. *)
Definition project (m : gmap string Val) : Citation :=
  mkCitation (m !! "source_filename") (m !! "page_number")
    (m !! "chunk_index").

(** ** Ingestion *)

(** The chunks of all pages, as (page number, chunk text), in extraction
    order. *)
Fixpoint flat_chunks (markdown_convert : string -> string) (fuel : nat)
    (self : PDFIngestor) (page_texts : list (Z * string))
    : option (list (Z * string)) :=
  match page_texts with
  | [] => Some []
  | (page_num, text) :: rest =>
      match chunk fuel (chunker self) (markdown_convert text),
            flat_chunks markdown_convert fuel self rest with
      | Some chunks, Some others =>
          Some (map (pair page_num) chunks ++ others)
      | _, _ => None
      end
  end.

(** The entries [process_pdf] builds for a flat list of chunks: the index
    is the position in the whole document, counted from [base]. *)
Definition number_chunks (base : Z) (flat : list (Z * string))
    : list ChunkEntry :=
  imap (fun j pt => mkChunkEntry (snd pt) (fst pt) (base + Z.of_nat j)) flat.

(** A page fails extraction when reading it raises an exception or yields
    fewer than ten characters after stripping. *)
Definition page_fails (ext : Externals) (page : Result string) : bool :=
  match page with
  | Return text => len (list_ascii_of_string (str_strip ext text)) <? 10
  | _ => true
  end.

(** The one-based numbers of the pages that fail. *)
Definition failed_page_numbers (ext : Externals) (base : Z)
    (pages : list (Result string)) : list Z :=
  map fst
    (List.filter (fun np => page_fails ext (snd np))
       (imap (fun j page => (base + Z.of_nat j + 1, page)) pages)).

(** The stored identifier and metadata of chunk [i] of a document. *)
Definition stored_as (doc_id : string) (i : nat) (page_num : Z)
    (text : string) (rec : StoredRecord) : Prop :=
  rec_id rec = (doc_id ++ "___" ++ str_int (Z.of_nat i))%string /\
  rec_document rec = text /\
  rec_metadata rec !! "doc_id" = Some (VStr doc_id) /\
  rec_metadata rec !! "chunk_index" = Some (VInt (Z.of_nat i)) /\
  rec_metadata rec !! "page_number" = Some (VInt page_num).

(** Ingesting the three-page document into an empty store. *)
Definition demo_run : Result IngestResult * World :=
  process_pdf (demo_ext three_pages) id 2 demo_ingestor "paper.pdf"
    "paper.pdf" empty_world.

Definition demo_result : IngestResult :=
  mkIngestResult "01234567-89ab-4def-8123-456789abcdef" "partial" 2 [2].

(** * Further code of the backend *)

(** ** More examples for the chunker *)

(** [TextChunker(chunk_size=4, overlap=9)]: a stalling configuration. *)
Definition wide_overlap_chunker : TextChunker :=
  mkTextChunker char_tokenizer 4 9.

(** ** Vocabulary for extraction and ingestion *)

(** A page whose reading neither hangs nor raises an exception outside
    [Exception]. *)
Definition benign (page : Result string) : bool :=
  match page with
  | Return _ => true
  | Raise e => is_Exception e
  | Diverge => false
  end.

(** The pages of a document with their one-based numbers, counted from
    [base]. *)
Definition numbered (base : Z) (pages : list (Result string))
    : list (Z * Result string) :=
  imap (fun j page => (base + Z.of_nat j + 1, page)) pages.

(** The pages that do not fail, with their numbers and texts. *)
Definition extracted_pages (ext : Externals) (base : Z)
    (pages : list (Result string)) : list (Z * string) :=
  omap (fun np =>
          match snd np with
          | Return text =>
              if page_fails ext (snd np) then None else Some (fst np, text)
          | _ => None
          end)
       (numbered base pages).

(** A computation that leaves the collection as it is, whatever its
    outcome. *)
Definition keeps_collection {A} (m : M A) : Prop :=
  forall w, collection (snd (m w)) = collection w.

(** A computation that, unless it returns, leaves the collection as it is,
    or has appended to it before the engine's count raised. *)
Definition untouched_or_uncounted (ext : Externals) {A} (m : M A) : Prop :=
  forall w, (forall a, fst (m w) <> Return a) ->
    collection (snd (m w)) = collection w \/
    exists e added,
      fst (m w) = Raise e /\
      collection (snd (m w)) = collection w ++ added /\
      collection_count_check ext (collection (snd (m w))) = Some e.

(** The collaborators [ext] with another document source. *)
Definition with_fitz_open (f : string -> Result (list (Result string)))
    (ext : Externals) : Externals :=
  mkExternals (from_pretrained ext) (urandom ext) (now_isoformat ext) f
    (str_strip ext) (model_encode ext) (generate_content ext)
    (collection_add_check ext) (collection_query ext)
    (collection_count_check ext) (Citation_validate ext)
    (RetrievedChunk_validate ext).

(** The collaborators [ext] with another embedding model. *)
Definition with_model_encode
    (f : nat -> list string -> Result (list (list float)))
    (ext : Externals) : Externals :=
  mkExternals (from_pretrained ext) (urandom ext) (now_isoformat ext)
    (fitz_open ext) (str_strip ext) f (generate_content ext)
    (collection_add_check ext) (collection_query ext)
    (collection_count_check ext) (Citation_validate ext)
    (RetrievedChunk_validate ext).

(** The collaborators [ext] with an engine whose count fails. *)
Definition with_count_check (f : list StoredRecord -> option Exc)
    (ext : Externals) : Externals :=
  mkExternals (from_pretrained ext) (urandom ext) (now_isoformat ext)
    (fitz_open ext) (str_strip ext) (model_encode ext) (generate_content ext)
    (collection_add_check ext) (collection_query ext)
    f (Citation_validate ext) (RetrievedChunk_validate ext).

(** An engine that stores and then fails to count. *)
Definition uncounted_ext : Externals :=
  with_count_check (fun _ => Some (mkExc RuntimeError "count failed"))
    (demo_ext three_pages).

(** The collaborators [ext] with another validation of citations. *)
Definition with_Citation_validate (f : Citation -> Citation + string)
    (ext : Externals) : Externals :=
  mkExternals (from_pretrained ext) (urandom ext) (now_isoformat ext)
    (fitz_open ext) (str_strip ext) (model_encode ext) (generate_content ext)
    (collection_add_check ext) (collection_query ext)
    (collection_count_check ext) f (RetrievedChunk_validate ext).

(** A validation that refuses every citation. *)
Definition picky_ext : Externals :=
  with_Citation_validate
    (fun _ => inr "page_number: Input should be a valid integer")
    (demo_ext three_pages).

(** The collaborators [ext] with another generation model. *)
Definition with_generate_content (f : nat -> string -> Result string)
    (ext : Externals) : Externals :=
  mkExternals (from_pretrained ext) (urandom ext) (now_isoformat ext)
    (fitz_open ext) (str_strip ext) (model_encode ext) f
    (collection_add_check ext) (collection_query ext)
    (collection_count_check ext) (Citation_validate ext)
    (RetrievedChunk_validate ext).

(** A document that cannot be opened. *)
Definition unreadable_ext : Externals :=
  with_fitz_open
    (fun _ => Raise (mkExc FileNotFoundError "no such file: missing.pdf"))
    (demo_ext []).

(** An embedding model that is never available. *)
Definition offline_ext : Externals :=
  with_model_encode
    (fun n _ =>
       Raise (mkExc RuntimeError
                ("Model load failed, attempt " ++ str_int (Z.of_nat n))))
    (demo_ext three_pages).

(** A document whose second page cannot be read and whose third page is
    blank. *)
Definition damaged_pages : list (Result string) :=
  [Return page_one; Raise (mkExc OtherException "bad page"); Return " "].

(** What one ingestion may use: at most three runs of the embedding
    model, no run of the generation model, waits of 1 and then 2 seconds
    at most, one random draw and at most one reading of the clock. *)
Definition within_ingestion_budget (w w' : World) : Prop :=
  (model_calls w <= model_calls w' <= model_calls w + 3)%nat /\
  generate_calls w' = generate_calls w /\
  (exists waits, slept w' = slept w ++ waits /\
     (waits = [] \/ waits = [1%float] \/ waits = [1%float; 2%float])) /\
  entropy_draws w' = S (entropy_draws w) /\
  (clock_reads w <= clock_reads w' <= clock_reads w + 1)%nat.

(** ** Vocabulary for the query path *)

(** What one query may use: it reads the collection without changing it,
    runs the embedding model and the generation model at most once each,
    and neither waits, draws random bytes nor reads the clock. *)
Definition within_query_budget (w w' : World) : Prop :=
  collection w' = collection w /\
  (model_calls w <= model_calls w' <= model_calls w + 1)%nat /\
  (generate_calls w <= generate_calls w' <= generate_calls w + 1)%nat /\
  slept w' = slept w /\
  entropy_draws w' = entropy_draws w /\
  clock_reads w' = clock_reads w.

(** [str(e).lower()] mentions a quota or a rate. *)
Definition mentions_rate_limit (e : Exc) : bool :=
  str_contains "quota" (str_lower (str_exc e))
  || str_contains "rate" (str_lower (str_exc e)).

(** A generation model that is out of quota. *)
Definition throttled_ext : Externals :=
  with_generate_content
    (fun _ _ => Raise (mkExc OtherException "429 Quota exceeded for model"))
    (demo_ext []).

(** A generation model that rejects the request. *)
Definition rejecting_ext : Externals :=
  with_generate_content
    (fun _ _ => Raise (mkExc OtherException "400 Invalid API key"))
    (demo_ext []).

(** A retrieved chunk whose metadata has none of the expected keys. *)
Definition bare_chunk : RetrievedChunk :=
  mkRetrievedChunk "x___0" "Some text." ∅ 0%float.

(** ** ChromaClient: reading and deleting (backend/chroma_client.py) *)

(** What [collection.get] returns, as far as the backend reads it. *)
Record GetResult : Type := mkGetResult {
  get_ids : list string;
  get_documents : list string;
  get_metadatas : list (gmap string Val)
}.

(** The engine's own failures when it reads or deletes from the collection;
    like [collection_add_check] they are taken as given. *)
Record EngineFaults : Type := mkEngineFaults {
  collection_get_check : list StoredRecord -> option Exc;
  collection_delete_check : list StoredRecord -> list string -> option Exc
}.

(** [==] on metadata values. *)
Definition val_eqb (a b : Val) : bool :=
  match a, b with
  | VStr s, VStr t => String.eqb s t
  | VInt x, VInt y => x =? y
  | _, _ => false
  end.

(** The filter [where={"doc_id": doc_id}]. *)
Definition has_doc_id (doc_id : string) (rec : StoredRecord) : bool :=
  match rec_metadata rec !! "doc_id" with
  | Some v => val_eqb v (VStr doc_id)
  | None => false
  end.

Definition result_of (recs : list StoredRecord) : GetResult :=
  mkGetResult (map rec_id recs) (map rec_document recs)
    (map rec_metadata recs).

Section Store.
Variable faults : EngineFaults.

(** [collection.get(where={"doc_id": doc_id})], or [collection.get()]
    when there is no filter. *)
Definition collection_get (where_doc_id : option string) : M GetResult :=
  fun w =>
    match collection_get_check faults (collection w) with
    | Some e => (Raise e, w)
    | None =>
        (Return (result_of
                   match where_doc_id with
                   | Some doc_id =>
                       List.filter (has_doc_id doc_id) (collection w)
                   | None => collection w
                   end), w)
    end.

(** [collection.delete(ids=ids)] *)
Definition collection_delete (ids : list string) : M unit :=
  fun w =>
    match collection_delete_check faults (collection w) ids with
    | Some e => (Raise e, w)
    | None =>
        (Return tt,
         set_collection
           (List.filter (fun rec => negb (id_in ids (rec_id rec)))
              (collection w)) w)
    end.

(** [ChromaClient.get_documents_by_doc_id] *)
Definition get_documents_by_doc_id (doc_id : string) : M GetResult :=
  try_except
    (collection_get (Some doc_id))
    (fun e =>
       let* _ := modify (add_log (mkLog ERROR
         ("Failed to get document " ++ doc_id ++ ": " ++ str_exc e))) in
       raise e).

(** [ChromaClient.get_all_documents] *)
Definition get_all_documents : M GetResult :=
  try_except
    (collection_get None)
    (fun e =>
       let* _ := modify (add_log (mkLog ERROR
         ("Failed to get all documents: " ++ str_exc e))) in
       raise e).

(** [ChromaClient.delete_document] *)
Definition delete_document (doc_id : string) : M Z :=
  try_except
    (let* results := collection_get (Some doc_id) in
     let ids_to_delete := get_ids results in
     let* _ :=
       match ids_to_delete with
       | [] => ret tt
       | _ =>
           let* _ := collection_delete ids_to_delete in
           modify (add_log (mkLog INFO
             ("Deleted " ++ str_int (len ids_to_delete)
              ++ " chunks for doc_id: " ++ doc_id)))
       end in
     ret (len ids_to_delete))
    (fun e =>
       let* _ := modify (add_log (mkLog ERROR
         ("Failed to delete document " ++ doc_id ++ ": " ++ str_exc e))) in
       raise e).

End Store.

(** An engine that never fails. *)
Definition sound_engine : EngineFaults :=
  mkEngineFaults (fun _ => None) (fun _ _ => None).

(** A record of another document. *)
Definition other_record : StoredRecord :=
  mkRecord "doc2___0" "Another document" unit_vector
    (<["doc_id" := VStr "doc2"]> (<["page_number" := VInt 7]> ∅)).

(** A store with two chunks of [doc1] around one chunk of [doc2]. *)
Definition mixed_world : World :=
  mkWorld [demo_record 0 "First chunk text"; other_record;
           demo_record 1 "Second chunk text"] [] 1 0 [] 2 2.

(** ** The document routes (backend/app.py)

    As for [_process_query], the records of the application's own logger
    are not part of the [World]. *)

(** The response model [DocumentInfo]. *)
Record DocumentInfo : Type := mkDocumentInfo {
  di_doc_id : string;
  di_source_filename : string;
  di_pages : Z;
  di_chunks : Z;
  di_ingested_at : string
}.

(** The dictionary [DELETE /documents/{doc_id}] returns. *)
Record DeleteResponse : Type := mkDeleteResponse {
  del_status : string;
  del_deleted_chunks : Z;
  del_doc_id : string;
  del_message : string
}.

(** [d.get(key, default)] *)
Definition dict_get (d : gmap string Val) (key : string) (default : Val)
    : Val :=
  match d !! key with
  | Some v => v
  | None => default
  end.

(** Truth value of a metadata value: the empty string and zero are false. *)
Definition truthy (v : Val) : bool :=
  match v with
  | VStr s => negb (String.eqb s "")
  | VInt z => negb (z =? 0)
  end.

(** [==] on what [d.get(key)] returns. *)
Definition page_eqb (a b : option Val) : bool :=
  match a, b with
  | Some x, Some y => val_eqb x y
  | None, None => true
  | _, _ => false
  end.

(** [s.add(x)] on a set kept as the list of its elements. *)
Definition set_add (x : option Val) (s : list (option Val))
    : list (option Val) :=
  if existsb (page_eqb x) s then s else s ++ [x].

(** The loop of [get_document] over the metadata of a document's chunks. *)
Fixpoint aggregate_metadata (metadatas : list (gmap string Val))
    (pages : list (option Val)) (source_filename ingested_at : Val)
    : list (option Val) * Val * Val :=
  match metadatas with
  | [] => (pages, source_filename, ingested_at)
  | metadata :: rest =>
      aggregate_metadata rest
        (set_add (metadata !! "page_number") pages)
        (dict_get metadata "source_filename" source_filename)
        (dict_get metadata "ingested_at" ingested_at)
  end.

(** One value of [doc_map] in [list_documents]. *)
Record DocEntry : Type := mkDocEntry {
  de_doc_id : Val;
  de_source_filename : Val;
  de_pages : list (option Val);
  de_chunks : Z;
  de_ingested_at : Val
}.

Definition new_entry (doc_id : Val) (metadata : gmap string Val) : DocEntry :=
  mkDocEntry doc_id (dict_get metadata "source_filename" (VStr "unknown"))
    [] 0 (dict_get metadata "ingested_at" (VStr "")).

(** [data["pages"].add(metadata.get("page_number")); data["chunks"] += 1] *)
Definition count_chunk (metadata : gmap string Val) (data : DocEntry)
    : DocEntry :=
  mkDocEntry (de_doc_id data) (de_source_filename data)
    (set_add (metadata !! "page_number") (de_pages data))
    (de_chunks data + 1) (de_ingested_at data).

(** One round of the first loop of [list_documents] for a chunk whose
    [doc_id] is true: [doc_map] is a dictionary, kept in insertion order. *)
Fixpoint doc_map_add (doc_id : Val) (metadata : gmap string Val)
    (doc_map : list (Val * DocEntry)) : list (Val * DocEntry) :=
  match doc_map with
  | [] => [(doc_id, count_chunk metadata (new_entry doc_id metadata))]
  | (key, data) :: rest =>
      if val_eqb key doc_id then (key, count_chunk metadata data) :: rest
      else (key, data) :: doc_map_add doc_id metadata rest
  end.

Fixpoint aggregate_documents (metadatas : list (gmap string Val))
    (doc_map : list (Val * DocEntry)) : list (Val * DocEntry) :=
  match metadatas with
  | [] => doc_map
  | metadata :: rest =>
      match metadata !! "doc_id" with
      | Some doc_id =>
          if truthy doc_id then
            aggregate_documents rest (doc_map_add doc_id metadata doc_map)
          else aggregate_documents rest doc_map
      | None => aggregate_documents rest doc_map
      end
  end.

Module App.
Section Routes.
Variable faults : EngineFaults.

(** Validation of the fields of a [DocumentInfo]: the model, or the text of
    pydantic's [ValidationError].  What pydantic makes of a value that is
    declared [str] and is none is its own business. *)
Variable DocumentInfo_validate :
  Val -> Val -> Z -> Z -> Val -> DocumentInfo + string.

(** [DocumentInfo(doc_id=..., source_filename=..., pages=..., chunks=...,
    ingested_at=...)]; a [ValidationError] is a [ValueError]. *)
Definition DocumentInfo_new (doc_id source_filename : Val) (pages chunks : Z)
    (ingested_at : Val) : Result DocumentInfo :=
  match DocumentInfo_validate doc_id source_filename pages chunks ingested_at
  with
  | inl d => Return d
  | inr msg => Raise (mkExc ValueError msg)
  end.

(** [except HTTPException: raise], then [except Exception as e]. *)
Definition except_http {A} (handler : Exc -> M A) (e : Exc) : M A :=
  match exc_class e with
  | HTTPException _ => raise e
  | _ => handler e
  end.

(** [GET /documents/{doc_id}] *)
Definition get_document (doc_id : string) : M DocumentInfo :=
  try_except
    (let* results := get_documents_by_doc_id faults doc_id in
     match get_metadatas results with
     | [] =>
         raise (mkExc (HTTPException 404)
                  ("Document " ++ doc_id ++ " not found"))
     | _ =>
         let '(pages, source_filename, ingested_at) :=
           aggregate_metadata (get_metadatas results) []
             (VStr "unknown") (VStr "") in
         lift (DocumentInfo_new (VStr doc_id) source_filename (len pages)
                 (len (get_metadatas results)) ingested_at)
     end)
    (except_http (fun e =>
       raise (mkExc (HTTPException 500)
                ("Failed to get document: " ++ str_exc e)))).

(** [DELETE /documents/{doc_id}]; the [delete_document] it calls is the
    one of [ChromaClient]. *)
Definition delete_document (doc_id : string) : M DeleteResponse :=
  try_except
    (let* results := get_documents_by_doc_id faults doc_id in
     match get_metadatas results with
     | [] =>
         raise (mkExc (HTTPException 404)
                  ("Document " ++ doc_id ++ " not found"))
     | _ =>
         let* count := delete_document faults doc_id in
         ret (mkDeleteResponse "success" count doc_id
                ("Successfully deleted document and " ++ str_int count
                 ++ " chunk(s)"))
     end)
    (except_http (fun e =>
       raise (mkExc (HTTPException 500)
                ("Failed to delete document: " ++ str_exc e)))).

(** The second loop of [list_documents]. *)
Fixpoint build_documents (items : list (Val * DocEntry))
    (documents : list DocumentInfo) : Result (list DocumentInfo) :=
  match items with
  | [] => Return documents
  | (doc_id, data) :: rest =>
      match DocumentInfo_new doc_id (de_source_filename data)
              (len (de_pages data)) (de_chunks data) (de_ingested_at data)
      with
      | Return d => build_documents rest (documents ++ [d])
      | Raise e => Raise e
      | Diverge => Diverge
      end
  end.

(** [GET /documents] *)
Definition list_documents : M (list DocumentInfo) :=
  try_except
    (let* results := get_all_documents faults in
     lift (build_documents
             (aggregate_documents (get_metadatas results) []) []))
    (fun e =>
       raise (mkExc (HTTPException 500)
                ("Failed to list documents: " ++ str_exc e))).

End Routes.
End App.

(** Validation takes strings as they are. *)
Definition accepts_strings
    (validate : Val -> Val -> Z -> Z -> Val -> DocumentInfo + string)
    : Prop :=
  forall doc_id source_filename pages chunks ingested_at,
    validate (VStr doc_id) (VStr source_filename) pages chunks
      (VStr ingested_at)
    = inl (mkDocumentInfo doc_id source_filename pages chunks ingested_at).

(** A validation that takes strings and nothing else. *)
Definition strict_validate (doc_id source_filename : Val)
    (pages chunks : Z) (ingested_at : Val) : DocumentInfo + string :=
  match doc_id, source_filename, ingested_at with
  | VStr d, VStr s, VStr t => inl (mkDocumentInfo d s pages chunks t)
  | _, _, _ => inr "Input should be a valid string"
  end.

(** *** Vocabulary for the listing *)

(** The metadata values the routes hand to [DocumentInfo] as strings are
    strings or missing. *)
Definition str_or_missing (v : option Val) : bool :=
  match v with
  | Some (VInt _) => false
  | _ => true
  end.

Definition string_fields (metadata : gmap string Val) : bool :=
  str_or_missing (metadata !! "doc_id")
  && str_or_missing (metadata !! "source_filename")
  && str_or_missing (metadata !! "ingested_at").

(** The metadata names a document: its [doc_id] is there and true. *)
Definition names_document (metadata : gmap string Val) : bool :=
  match metadata !! "doc_id" with
  | Some v => truthy v
  | None => false
  end.

(** The metadata carries the document identifier [key]. *)
Definition carries (key : Val) (metadata : gmap string Val) : bool :=
  match metadata !! "doc_id" with
  | Some v => val_eqb v key
  | None => false
  end.

(** [doc_map.get(key)] *)
Fixpoint dm_get (key : Val) (doc_map : list (Val * DocEntry))
    : option DocEntry :=
  match doc_map with
  | [] => None
  | (k, data) :: rest => if val_eqb k key then Some data else dm_get key rest
  end.

(** What the first loop of [list_documents] does to the entry of [key] when
    it meets one chunk. *)
Definition entry_step (key : Val) (entry : option DocEntry)
    (metadata : gmap string Val) : option DocEntry :=
  if names_document metadata && carries key metadata then
    Some (count_chunk metadata
            (match entry with
             | Some data => data
             | None => new_entry key metadata
             end))
  else entry.

(** An entry after the chunks [metadatas] have been counted into it. *)
Definition entry_from (data : DocEntry) (metadatas : list (gmap string Val))
    : DocEntry :=
  fold_left (fun d metadata => count_chunk metadata d) metadatas data.

(** The set of pages of a list of chunks. *)
Definition pages_of (pages : list (option Val))
    (metadatas : list (gmap string Val)) : list (option Val) :=
  fold_left (fun s metadata => set_add (metadata !! "page_number") s)
    metadatas pages.

Definition sum_chunks (doc_map : list (Val * DocEntry)) : Z :=
  fold_right (fun item total => de_chunks (snd item) + total) 0 doc_map.

Definition is_str (v : Val) : bool :=
  match v with
  | VStr _ => true
  | VInt _ => false
  end.

Definition entry_strings (item : Val * DocEntry) : bool :=
  is_str (fst item) && is_str (de_source_filename (snd item))
  && is_str (de_ingested_at (snd item)).

(** The [DocumentInfo] of an entry whose values are strings. *)
Definition info_of (item : Val * DocEntry) : DocumentInfo :=
  mkDocumentInfo (str_val (fst item)) (str_val (de_source_filename (snd item)))
    (len (de_pages (snd item))) (de_chunks (snd item))
    (str_val (de_ingested_at (snd item))).

(** A store whose chunks of one document disagree on the file name. *)
Definition renamed_world : World :=
  mkWorld
    [mkRecord "a___0" "one" unit_vector
       (<["doc_id" := VStr "a"]> (<["source_filename" := VStr "old.pdf"]> ∅));
     mkRecord "a___1" "two" unit_vector
       (<["doc_id" := VStr "a"]> (<["source_filename" := VStr "new.pdf"]> ∅))]
    [] 0 0 [] 0 0.

(** * Properties *)

(** ** TextChunker *)

Section ChunkLoop.
Context {B : Type} (emit : Z -> Z -> B).
Variables n chunk_size overlap : Z.

Lemma chunk_loop_app fuel start chunks :
  chunk_loop fuel emit n chunk_size overlap start chunks
  = option_map (app chunks)
      (chunk_loop fuel emit n chunk_size overlap start []).
Proof.
  revert start chunks.
  induction fuel as [|fuel IH]; intros start chunks; simpl; [done|].
  destruct (start <? n); simpl; [|by rewrite app_nil_r].
  destruct (Z.min (start + chunk_size) n >=? n); simpl; [done|].
  rewrite (IH _ (chunks ++ _)), (IH _ [_]).
  destruct (chunk_loop fuel emit n chunk_size overlap _ []); simpl; [|done].
  by rewrite <- app_assoc.
Qed.

(** One unfolding of the loop from an empty accumulator. *)
Lemma chunk_loop_unfold fuel start :
  chunk_loop (S fuel) emit n chunk_size overlap start []
  = if start <? n then
      let end_ := Z.min (start + chunk_size) n in
      if end_ >=? n then Some [emit start end_]
      else option_map (cons (emit start end_))
             (chunk_loop fuel emit n chunk_size overlap
                (start + (chunk_size - overlap)) [])
    else Some [].
Proof.
  simpl. destruct (start <? n); [|done].
  destruct (Z.min (start + chunk_size) n >=? n); [done|].
  by rewrite chunk_loop_app.
Qed.

(** With a positive step the loop ends within [n - start + 1] tests. *)
Lemma chunk_loop_terminates fuel start chunks :
  overlap < chunk_size ->
  (Z.to_nat (n - start) < fuel)%nat ->
  exists r, chunk_loop fuel emit n chunk_size overlap start chunks = Some r.
Proof.
  intros Hstep. revert start chunks.
  induction fuel as [|fuel IH]; intros start chunks Hfuel; [lia|].
  simpl. destruct (Z.ltb_spec start n) as [Hlt|Hge]; [|eauto].
  destruct (Z.min (start + chunk_size) n >=? n); [eauto|].
  apply IH. lia.
Qed.

(** With a step that is not positive, a window start at or before 0 never
    reaches the end of a sequence longer than [chunk_size]. *)
Lemma chunk_loop_stalls fuel start chunks :
  overlap >= chunk_size -> chunk_size < n -> 0 < n -> start <= 0 ->
  chunk_loop fuel emit n chunk_size overlap start chunks = None.
Proof.
  intros Hov Hlong Hn. revert start chunks.
  induction fuel as [|fuel IH]; intros start chunks Hstart; [done|].
  simpl. destruct (Z.ltb_spec start n) as [_|?]; [|lia].
  destruct (Z.geb_spec (Z.min (start + chunk_size) n) n) as [?|_]; [lia|].
  apply IH. lia.
Qed.

Lemma chunk_loop_map {C} (f : B -> C) fuel start chunks :
  chunk_loop fuel (fun s e => f (emit s e)) n chunk_size overlap start
    (map f chunks)
  = option_map (map f)
      (chunk_loop fuel emit n chunk_size overlap start chunks).
Proof.
  revert start chunks.
  induction fuel as [|fuel IH]; intros start chunks; simpl; [done|].
  destruct (start <? n); [|done].
  destruct (Z.min (start + chunk_size) n >=? n); simpl.
  - by rewrite map_app.
  - rewrite <- IH. by rewrite map_app.
Qed.
End ChunkLoop.

(** The windows taken from [start] on, for a configuration with
    [0 <= overlap < chunk_size]. *)
Lemma windows_from fuel n cs ov start tail :
  0 <= ov < cs -> 0 <= start ->
  chunk_loop fuel mkWindow n cs ov start [] = Some tail ->
  (forall w, head tail = Some w ->
     w_start w = start /\ w_end w = Z.min (start + cs) n) /\
  (forall i, start <= i < n -> exists w, In w tail /\ in_window i w) /\
  slides cs ov tail /\
  Forall (fun w => 0 <= w_start w < w_end w /\ w_end w <= n) tail.
Proof.
  intros Hcfg. revert start tail.
  induction fuel as [|fuel IH]; intros start tail Hstart Hrun; [done|].
  rewrite chunk_loop_unfold in Hrun.
  destruct (Z.ltb_spec start n) as [Hlt|Hge].
  2:{ injection Hrun as <-. split; [done|]. split; [intros i Hi; lia|].
      split; [by intros j w1 w2 Hj|constructor]. }
  cbv zeta in Hrun.
  destruct (Z.geb_spec (Z.min (start + cs) n) n) as [Hend|Hend].
  - injection Hrun as <-. split; [|split; [|split]].
    + intros w [= <-]. done.
    + intros i Hi. exists (mkWindow start (Z.min (start + cs) n)).
      split; [by left|]. unfold in_window; simpl. lia.
    + intros j w1 w2 Hj1 Hj2. by destruct j.
    + constructor; [simpl; lia|constructor].
  - destruct (chunk_loop fuel mkWindow n cs ov (start + (cs - ov)) [])
      as [rest|] eqn:Hrest; [|done].
    injection Hrun as <-.
    destruct (IH (start + (cs - ov)) rest ltac:(lia) Hrest)
      as (Hhd & Hcov & Hslide & Hall).
    split; [|split; [|split]].
    + intros w [= <-]. done.
    + intros i Hi. destruct (Z.lt_ge_cases i (start + cs)) as [Hin|Hout].
      * exists (mkWindow start (Z.min (start + cs) n)).
        split; [by left|]. unfold in_window; simpl. lia.
      * destruct (Hcov i ltac:(lia)) as (w & Hw & Hiw).
        exists w. split; [by right|done].
    + intros [|j] w1 w2 Hj1 Hj2.
      * injection Hj1 as <-. simpl in Hj2.
        destruct (Hhd w2) as [Hs He]; [by destruct rest; simplify_eq/=|].
        simpl. rewrite Hs, He. lia.
      * by apply (Hslide j).
    + constructor; [simpl; lia|done].
Qed.

(** A slice whose bounds lie inside the list. *)
Lemma slice_inside {A} (l : list A) lo hi :
  0 <= lo -> lo <= hi -> hi <= len l ->
  slice l lo hi = take (Z.to_nat (hi - lo)) (drop (Z.to_nat lo) l).
Proof.
  intros Hlo Hle Hhi. unfold slice, slice_bound.
  destruct (Z.ltb_spec lo 0) as [?|_]; [lia|].
  destruct (Z.ltb_spec hi 0) as [?|_]; [lia|].
  by rewrite !Z.min_l by lia.
Qed.

Lemma slice_length {A} (l : list A) lo hi :
  0 <= lo -> lo <= hi -> hi <= len l ->
  length (slice l lo hi) = Z.to_nat (hi - lo).
Proof.
  intros Hlo Hle Hhi. rewrite slice_inside by done.
  rewrite length_take, length_drop. unfold len in Hhi. lia.
Qed.

Lemma slice_lookup {A} (l : list A) lo hi (k : nat) :
  0 <= lo -> lo <= hi -> hi <= len l -> (k < Z.to_nat (hi - lo))%nat ->
  slice l lo hi !! k = l !! (Z.to_nat lo + k)%nat.
Proof.
  intros Hlo Hle Hhi Hk. rewrite slice_inside by done.
  rewrite lookup_take_lt by lia. by rewrite lookup_drop.
Qed.

Lemma slides_share cs ov ws :
  0 <= ov < cs -> slides cs ov ws -> consecutive_share ov ws.
Proof.
  intros Hcfg Hslide j w1 w2 H1 H2.
  destruct (Hslide j w1 w2 H1 H2) as (He & Hs & Hle).
  unfold shared. lia.
Qed.

Lemma slides_share_tokens tokens cs ov ws :
  0 <= ov < cs ->
  Forall (fun w => 0 <= w_start w < w_end w /\ w_end w <= len tokens) ws ->
  slides cs ov ws -> consecutive_share_tokens tokens ov ws.
Proof.
  intros Hcfg Hall Hslide j w1 w2 H1 H2.
  destruct (Hslide j w1 w2 H1 H2) as (He & Hs & Hle).
  rewrite Forall_lookup in Hall.
  pose proof (Hall _ _ H1) as [Hw1 Hn1]. pose proof (Hall _ _ H2) as [Hw2 Hn2].
  cbv zeta. unfold window_tokens.
  rewrite (slice_length tokens (w_start w1)) by lia.
  apply list_eq. intros k.
  rewrite lookup_drop.
  destruct (decide (k < Z.to_nat ov)%nat) as [Hk|Hk].
  - rewrite lookup_take_lt by done.
    rewrite !slice_lookup by lia. f_equal. lia.
  - rewrite lookup_take_ge by lia.
    apply lookup_ge_None_2. rewrite slice_length by lia. lia.
Qed.

(** [loop_starts] lists the starts of the windows the loop takes. *)
Lemma loop_starts_windows fuel n cs ov start ws :
  chunk_loop fuel mkWindow n cs ov start [] = Some ws ->
  map w_start ws = loop_starts fuel n cs ov start.
Proof.
  revert start ws. induction fuel as [|fuel IH]; intros start ws; [done|].
  rewrite chunk_loop_unfold. simpl.
  destruct (start <? n); [|by intros [= <-]].
  destruct (Z.min (start + cs) n >=? n); [by intros [= <-]|].
  destruct (chunk_loop fuel mkWindow n cs ov _ []) as [rest|] eqn:Hrest;
    [|done].
  intros [= <-]. simpl. f_equal. by apply IH.
Qed.

(** In a stalled run every test of the loop condition enters the body, and
    the start is never beyond where it began. *)
Lemma loop_starts_stalled fuel n cs ov start :
  ov >= cs -> cs < n -> 0 < n -> start <= 0 ->
  length (loop_starts fuel n cs ov start) = fuel /\
  Forall (fun s => s <= start) (loop_starts fuel n cs ov start).
Proof.
  intros Hov Hlong Hn. revert start.
  induction fuel as [|fuel IH]; intros start Hstart; [by split|].
  simpl. destruct (Z.ltb_spec start n) as [_|?]; [|lia].
  destruct (Z.geb_spec (Z.min (start + cs) n) n) as [?|_]; [lia|].
  destruct (IH (start + (cs - ov)) ltac:(lia)) as [Hlen Hall].
  split; [simpl; by rewrite Hlen|].
  constructor; [lia|].
  eapply Forall_impl; [exact Hall|]. simpl. intros s Hs. lia.
Qed.

(** More fuel never changes an outcome already reached. *)
Lemma chunk_loop_fuel_mono {B} (emit : Z -> Z -> B) n cs ov fuel fuel'
    start chunks r :
  chunk_loop fuel emit n cs ov start chunks = Some r ->
  (fuel <= fuel')%nat ->
  chunk_loop fuel' emit n cs ov start chunks = Some r.
Proof.
  revert fuel' start chunks.
  induction fuel as [|fuel IH]; intros fuel' start chunks Hrun Hle; [done|].
  destruct fuel' as [|fuel']; [lia|]. simpl in *.
  destruct (start <? n); [|done].
  destruct (Z.min (start + cs) n >=? n); [done|].
  apply IH; [done|lia].
Qed.

Lemma chunk_windows_decoded fuel self text :
  chunk fuel self text
  = option_map
      (map (fun w => tok_decode (tokenizer self)
                       (window_tokens (tok_encode (tokenizer self) text) w)))
      (chunk_windows fuel self text).
Proof.
  unfold chunk, chunk_windows.
  destruct (len (tok_encode (tokenizer self) text) =? 0); [done|].
  apply (chunk_loop_map mkWindow _ _ _
           (fun w => tok_decode (tokenizer self) (window_tokens _ w)) fuel 0 []).
Qed.

Lemma covers_covers_tokens tokens ws :
  Forall (fun w => 0 <= w_start w < w_end w /\ w_end w <= len tokens) ws ->
  covers (len tokens) ws -> covers_tokens tokens ws.
Proof.
  intros Hall Hcov i t Hi.
  pose proof (lookup_lt_Some _ _ _ Hi) as Hlt.
  destruct (Hcov (Z.of_nat i)) as (w & Hw & Hin); [unfold len; lia|].
  exists w. split; [done|].
  rewrite List.Forall_forall in Hall. specialize (Hall w Hw).
  unfold in_window in Hin. split; [lia|].
  unfold window_tokens. rewrite slice_lookup by lia.
  rewrite <- Hi. f_equal. lia.
Qed.

(** C1 (as amended).  For a text whose tokenization is non-empty and a
    configuration with [0 <= overlap < chunk_size], [TextChunker.chunk]
    terminates; its chunks are the decoded windows; every position of the
    token sequence, and so every token, lies in some window; and every two
    consecutive windows, the final pair included, have exactly [overlap]
    positions in common, the last [overlap] tokens of the one being the
    first [overlap] tokens of the other.  So the property that fails for
    a negative overlap, [chunk_covers_input], holds here. *)
Theorem chunk_covers_and_overlaps (self : TextChunker) (text : string) :
  tok_encode (tokenizer self) text <> [] ->
  0 <= overlap self < chunk_size self ->
  let tokens := tok_encode (tokenizer self) text in
  exists fuel ws,
    chunk_windows fuel self text = Some ws /\
    chunk fuel self text
      = Some (map (fun w => tok_decode (tokenizer self)
                              (window_tokens tokens w)) ws) /\
    covers (len tokens) ws /\
    covers_tokens tokens ws /\
    consecutive_share (overlap self) ws /\
    consecutive_share_tokens tokens (overlap self) ws /\
    chunk_covers_input self text.
Proof.
  intros Hne Hcfg tokens.
  destruct (chunk_loop_terminates mkWindow (len tokens) (chunk_size self)
              (overlap self) (S (Z.to_nat (len tokens - 0))) 0 [])
    as [ws Hws]; [lia|lia|].
  assert (Hrun : chunk_windows (S (Z.to_nat (len tokens - 0))) self text
                 = Some ws).
  { unfold chunk_windows. fold tokens.
    destruct (Z.eqb_spec (len tokens) 0) as [H0|_]; [|done].
    unfold len in H0. destruct tokens; [done|simpl in H0; lia]. }
  destruct (windows_from _ _ _ _ _ _ Hcfg (Z.le_refl 0) Hws)
    as (_ & Hcov & Hslide & Hall).
  exists (S (Z.to_nat (len tokens - 0))), ws.
  split; [done|]. split; [by rewrite chunk_windows_decoded, Hrun|].
  split; [done|]. split; [by apply covers_covers_tokens|].
  assert (Hshare : consecutive_share (overlap self) ws)
    by by apply (slides_share (chunk_size self)).
  split; [done|].
  split; [by apply (slides_share_tokens tokens (chunk_size self))|].
  exists (S (Z.to_nat (len tokens - 0))), ws.
  split; [done|]. split; [done|].
  intros j w1 w2 H1 H2 _. by apply (Hshare j).
Qed.

(** The theorem at [chunk_size = 4], [overlap = 1] and a ten-token text. *)
Lemma chunk_covers_and_overlaps_witness :
  let tokens := tok_encode (tokenizer small_chunker) "abcdefghij" in
  exists fuel ws,
    chunk_windows fuel small_chunker "abcdefghij" = Some ws /\
    chunk fuel small_chunker "abcdefghij"
      = Some (map (fun w => tok_decode (tokenizer small_chunker)
                              (window_tokens tokens w)) ws) /\
    covers (len tokens) ws /\
    covers_tokens tokens ws /\
    consecutive_share (overlap small_chunker) ws /\
    consecutive_share_tokens tokens (overlap small_chunker) ws /\
    chunk_covers_input small_chunker "abcdefghij".
Proof.
  apply (chunk_covers_and_overlaps small_chunker "abcdefghij").
  - discriminate.
  - simpl. lia.
Defined.

Example small_chunker_chunks :
  chunk 4 small_chunker "abcdefghij" = Some ["abcd"; "defg"; "ghij"].
Proof. reflexivity. Qed.

(** C1 (as stated) fails for a negative overlap: with [chunk_size = 2] and
    [overlap = -1] the windows over four tokens are [0,2) and [3,4), and
    position 2 lies in neither. *)
Lemma chunk_negative_overlap_leaves_gap :
  overlap gap_chunker < chunk_size gap_chunker /\
  tok_encode (tokenizer gap_chunker) "abcd" <> [] /\
  chunk 2 gap_chunker "abcd" = Some ["ab"; "d"] /\
  ~ chunk_covers_input gap_chunker "abcd".
Proof.
  split; [simpl; lia|]. split; [discriminate|]. split; [reflexivity|].
  intros (fuel & ws & Hrun & Hcov & _).
  assert (Hws : ws = [mkWindow 0 2; mkWindow 3 4]).
  { assert (H2 : chunk_windows 2 gap_chunker "abcd"
                 = Some [mkWindow 0 2; mkWindow 3 4]) by reflexivity.
    unfold chunk_windows in *. simpl (len _ =? 0) in *.
    cbv iota in Hrun, H2.
    pose proof (chunk_loop_fuel_mono _ _ _ _ _ (Nat.max fuel 2) _ _ _ Hrun
                  (Nat.le_max_l _ _)) as E1.
    pose proof (chunk_loop_fuel_mono _ _ _ _ _ (Nat.max fuel 2) _ _ _ H2
                  (Nat.le_max_r _ _)) as E2.
    congruence. }
  subst ws.
  assert (Hlen : len (tok_encode (tokenizer gap_chunker) "abcd") = 4)
    by reflexivity.
  rewrite Hlen in Hcov.
  destruct (Hcov 2) as (w & Hw & Hin); [lia|].
  unfold in_window in Hin.
  destruct Hw as [<-|[<-|[]]]; simpl in Hin; lia.
Qed.

(** C2 (as amended).  Under [overlap < chunk_size] the call terminates on
    every text.  Under [overlap >= chunk_size] it never returns once the
    token sequence is non-empty and longer than [chunk_size]: whatever the
    number of iterations, the loop is still running and the window start
    has not moved beyond 0.  And the constructor accepts every pair of
    sizes, failing only if the tokenizer cannot be loaded. *)
Theorem chunk_terminates_unless_stalled (self : TextChunker) (text : string) :
  let n := len (tok_encode (tokenizer self) text) in
  (overlap self < chunk_size self ->
   exists fuel chunks, chunk fuel self text = Some chunks) /\
  (overlap self >= chunk_size self ->
   tok_encode (tokenizer self) text <> [] ->
   n > chunk_size self ->
   forall fuel,
     chunk fuel self text = None /\
     length (loop_starts fuel n (chunk_size self) (overlap self) 0) = fuel /\
     Forall (fun start => start <= 0)
       (loop_starts fuel n (chunk_size self) (overlap self) 0)) /\
  (forall load name tk,
     load name = Return tk ->
     TextChunker_init load name (chunk_size self) (overlap self)
     = Return (mkTextChunker tk (chunk_size self) (overlap self))).
Proof.
  intros n. split; [|split].
  - intros Hstep. unfold chunk. fold n.
    destruct (n =? 0); [by exists O, []|].
    destruct (chunk_loop_terminates
                (fun s e => tok_decode (tokenizer self)
                              (slice (tok_encode (tokenizer self) text) s e))
                n (chunk_size self) (overlap self)
                (S (Z.to_nat (n - 0))) 0 []) as [r Hr]; [done|lia|].
    by exists (S (Z.to_nat (n - 0))), r.
  - intros Hov Hne Hlong fuel.
    assert (Hpos : 0 < n).
    { unfold n, len. destruct (tok_encode (tokenizer self) text); [done|].
      simpl. lia. }
    split; [|by apply loop_starts_stalled; lia].
    unfold chunk. fold n.
    destruct (Z.eqb_spec n 0) as [H0|_]; [lia|].
    apply chunk_loop_stalls; lia.
  - intros load name tk Hload. unfold TextChunker_init. by rewrite Hload.
Qed.

(** The theorem at a valid configuration and at [chunk_size = overlap = 3]. *)
Lemma chunk_terminates_unless_stalled_witness :
  (exists fuel chunks, chunk fuel small_chunker "abcdefghij" = Some chunks) /\
  (forall fuel,
     chunk fuel stalled_chunker "abcdefghij" = None /\
     length (loop_starts fuel 10 3 3 0) = fuel /\
     Forall (fun start => start <= 0) (loop_starts fuel 10 3 3 0)).
Proof.
  split.
  - apply (chunk_terminates_unless_stalled small_chunker "abcdefghij").
    simpl. lia.
  - apply (chunk_terminates_unless_stalled stalled_chunker "abcdefghij").
    + simpl. lia.
    + discriminate.
    + vm_compute. reflexivity.
Defined.

(** C2 (as stated) fails when [chunk_size] is negative and the text has no
    tokens: the empty sequence is longer than [chunk_size = -1], yet the
    call returns the empty list at once. *)
Lemma chunk_empty_text_returns_despite_stall :
  overlap empty_stall_chunker >= chunk_size empty_stall_chunker /\
  len (tok_encode (tokenizer empty_stall_chunker) "")
    > chunk_size empty_stall_chunker /\
  ~ (forall fuel, chunk fuel empty_stall_chunker "" = None).
Proof.
  split; [simpl; lia|]. split; [vm_compute; reflexivity|].
  intros H. specialize (H O). discriminate.
Qed.

(** ** retry_with_backoff *)

Section RetryProperties.
Context {St A : Type}.
Variable sleep : float -> St -> Result unit * St.
Variable func : St -> Result A * St.

Lemma calls_of_backoff_trace (outcomes : list (Result A)) d :
  calls_of (backoff_trace outcomes d) = outcomes.
Proof.
  revert d. induction outcomes as [|r [|r' rest] IH]; intros d; [done..|].
  change (r :: calls_of (backoff_trace (r' :: rest) (d * 2)%float)
          = r :: r' :: rest).
  by rewrite IH.
Qed.

Lemma waits_of_backoff_trace (outcomes : list (Result A)) d :
  waits_of (backoff_trace outcomes d)
  = doubling (length outcomes - 1) d.
Proof.
  revert d. induction outcomes as [|r [|r' rest] IH]; intros d; [done..|].
  change (d :: waits_of (backoff_trace (r' :: rest) (d * 2)%float)
          = doubling (S (length rest)) d).
  rewrite IH. simpl. by rewrite Nat.sub_0_r.
Qed.

Lemma calls_of_app (t t' : list (RetryEvent A)) :
  calls_of (t ++ t') = calls_of t ++ calls_of t'.
Proof.
  induction t as [|[r|d o] t IH]; simpl; [done| |done]. by rewrite IH.
Qed.

Lemma waits_of_app (t t' : list (RetryEvent A)) :
  waits_of (t ++ t') = waits_of t ++ waits_of t'.
Proof.
  induction t as [|[r|d o] t IH]; simpl; [done|done|]. by rewrite IH.
Qed.

(** A run that stops at its first call, whose outcome is [o]. *)
Ltac stops_after_one_call o :=
  simplify_eq; split; [done|]; exists [o], [];
  split; [done|]; split; [simpl; lia|];
  split; [intros ? ? Hi; simpl in Hi; lia|];
  split; [done|]; split; [done|]; intros _; left;
  split; [done|]; split; [done|].

(** The loop from attempt number [a] on, with [m] attempts left: the
    events are those of a run whose waits all passed, followed by nothing
    or by the one wait that did not return. *)
Lemma retry_loop_observed max_retries m :
  forall a last_exception d s t r s' t',
  (a + m = Z.to_nat max_retries)%nat ->
  retry_loop (observed_sleep sleep) (observed_func func) max_retries
    (map Z.of_nat (seq a m)) last_exception d (s, t) = (r, (s', t')) ->
  retry_loop sleep func max_retries (map Z.of_nat (seq a m))
    last_exception d s = (r, s') /\
  exists outcomes stop,
    t' = t ++ backoff_trace outcomes d ++ stop /\
    (length outcomes <= m)%nat /\
    (forall i o, (S i < length outcomes)%nat ->
                 outcomes !! i = Some o -> caught_failure o) /\
    waits_of (backoff_trace outcomes d ++ stop)
    = doubling (length (waits_of (backoff_trace outcomes d ++ stop))) d /\
    (m = O -> outcomes = [] /\ stop = [] /\ s' = s /\
              r = fst (raise_last (St:=St) last_exception s)) /\
    ((0 < m)%nat ->
     (stop = [] /\ last outcomes = Some r /\
      (caught_failure r -> length outcomes = m)) \/
     (exists d' o, stop = [Slept d' o] /\ sleep_ends o r /\
                   (length outcomes < m)%nat /\
                   exists e, last outcomes = Some (Raise e) /\
                             is_Exception e = true)).
Proof.
  induction m as [|m IH]; intros a le d s t r s' t' Hlen Hrun.
  - simpl in *. destruct le; simplify_eq/=.
    all: split; [done|]; exists [], []; rewrite app_nil_r.
    all: repeat split; try done; lia.
  - simpl in Hrun |- *. unfold observed_func at 1 in Hrun. simpl in Hrun.
    destruct (func s) as [[v|e|] s0] eqn:Hf.
    + stops_after_one_call (@Return A v). by intros (e & He & _).
    + destruct (is_Exception e) eqn:Hexc.
      2:{ stops_after_one_call (@Raise A e).
          intros (e' & He' & Hc). congruence. }
      destruct (Z.ltb_spec (Z.of_nat a) (max_retries - 1)) as [Hmore|Hlast].
      * destruct m as [|m']; [lia|].
        unfold observed_sleep at 1 in Hrun. simpl fst in Hrun.
        simpl snd in Hrun.
        destruct (sleep d s0) as [[[]|e'|] s1] eqn:Hs.
        -- destruct (IH (S a) (Some e) (d * 2)%float s1
                       ((t ++ [Called (Raise e)]) ++ [Slept d (Return tt)])
                       r s' t' ltac:(lia) Hrun)
             as (Hplain & outcomes & stop & Ht & Hn & Hmid & Hw & _ & Hend).
           split; [done|]. exists (Raise e :: outcomes), stop.
           assert (Hne : outcomes <> []).
           { destruct (Hend ltac:(lia))
               as [(_ & Hl & _)|(_ & _ & _ & _ & _ & ? & Hl & _)];
               by destruct outcomes. }
           destruct outcomes as [|o outcomes]; [done|].
           split; [by rewrite Ht, <- !app_assoc|].
           split; [simpl in *; lia|].
           split.
           { intros [|i] o' Hi Ho'.
             - simplify_eq/=. by exists e.
             - apply (Hmid i); [simpl in *; lia|done]. }
           split.
           { change (d :: waits_of (backoff_trace (o :: outcomes)
                                      (d * 2)%float ++ stop)
                     = d :: doubling
                         (length (waits_of
                                    (backoff_trace (o :: outcomes)
                                       (d * 2)%float ++ stop)))
                         (d * 2)%float).
             f_equal. exact Hw. }
           split; [done|]. intros _.
           destruct (Hend ltac:(lia))
             as [(Hstop & Hr & Hfull)
                |(d' & o' & Hstop & Hends & Hlt & e0 & Hl & He0)].
           ++ left. split; [done|]. split; [done|].
              intros Hc. simpl. f_equal. by apply Hfull.
           ++ right. exists d', o'. split; [done|]. split; [done|].
              split; [simpl in *; lia|]. by exists e0.
        -- simplify_eq. split; [done|].
           exists [Raise e], [Slept d (Raise e')].
           split; [by rewrite <- !app_assoc|]. split; [simpl; lia|].
           split; [intros ? ? Hi; simpl in Hi; lia|].
           split; [done|]. split; [done|]. intros _. right.
           exists d, (Raise e'). split; [done|].
           split; [left; by exists e'|]. split; [simpl; lia|].
           by exists e.
        -- simplify_eq. split; [done|].
           exists [Raise e], [Slept d Diverge].
           split; [by rewrite <- !app_assoc|]. split; [simpl; lia|].
           split; [intros ? ? Hi; simpl in Hi; lia|].
           split; [done|]. split; [done|]. intros _. right.
           exists d, Diverge. split; [done|].
           split; [by right|]. split; [simpl; lia|]. by exists e.
      * destruct m as [|m']; [|lia]. simpl in Hrun |- *.
        stops_after_one_call (@Raise A e). done.
    + stops_after_one_call (@Diverge A). by intros (e & He & _).
Qed.
End RetryProperties.

(** C6.  A run of [retry_with_backoff], observed through its calls of
    [func] and of [time.sleep]: the observed run is the plain run; the
    calls are at most [max_retries] (the length of [range(max_retries)],
    so none for a non-positive bound); every call but the last failed with a
    caught exception; the waits asked for start at [initial_delay] and
    double; a call that returns a value is the last one and its value is
    the result; and when all [max_retries] calls failed, the exception of
    the last call is raised as it is, after waits that all passed, one
    between every two calls.  For a positive [max_retries] the run ends in
    one of two ways: with a call, whose outcome is the result (a caught
    failure only after [max_retries] calls), or, before [max_retries] calls
    were made, with a [time.sleep] that does not return, whose exception
    leaves the function. *)
Theorem retry_with_backoff_observed {St A}
    (sleep : float -> St -> Result unit * St) (func : St -> Result A * St)
    (max_retries : Z) (initial_delay : float) (s : St) :
  exists r s' trace,
    retry_with_backoff (observed_sleep sleep) (observed_func func)
      max_retries initial_delay (s, []) = (r, (s', trace)) /\
    retry_with_backoff sleep func max_retries initial_delay s = (r, s') /\
    let outcomes := calls_of trace in
    (length outcomes <= Z.to_nat max_retries)%nat /\
    (forall i o, (S i < length outcomes)%nat ->
                 outcomes !! i = Some o -> caught_failure o) /\
    waits_of trace = doubling (length (waits_of trace)) initial_delay /\
    (forall v, In (Return v) outcomes ->
               last outcomes = Some (Return v) /\ r = Return v) /\
    (forall e, length outcomes = Z.to_nat max_retries ->
               last outcomes = Some (Raise e) ->
               r = Raise e /\
               trace = backoff_trace outcomes initial_delay /\
               waits_of trace
               = doubling (length outcomes - 1) initial_delay) /\
    (0 < max_retries ->
     (trace = backoff_trace outcomes initial_delay /\
      last outcomes = Some r /\
      (caught_failure r -> length outcomes = Z.to_nat max_retries)) \/
     (exists d o,
        trace = backoff_trace outcomes initial_delay ++ [Slept d o] /\
        sleep_ends o r /\
        (length outcomes < Z.to_nat max_retries)%nat)).
Proof.
  destruct (retry_with_backoff (observed_sleep sleep) (observed_func func)
              max_retries initial_delay (s, [])) as [r [s' trace]] eqn:Hrun.
  exists r, s', trace. split; [done|].
  unfold retry_with_backoff, range in *.
  destruct (retry_loop_observed sleep func max_retries (Z.to_nat max_retries)
              O None initial_delay s [] r s' trace eq_refl Hrun)
    as (Hplain & outcomes & stop & Ht & Hn & Hmid & Hw & Hzero & Hpos).
  split; [done|]. simpl in Ht. subst trace. cbv zeta.
  assert (Hcalls : calls_of (backoff_trace outcomes initial_delay ++ stop)
                   = outcomes).
  { rewrite calls_of_app, calls_of_backoff_trace.
    destruct (Nat.eq_dec (Z.to_nat max_retries) O) as [H0|Hn0].
    - destruct (Hzero H0) as (_ & -> & _). apply app_nil_r.
    - destruct (Hpos ltac:(lia)) as [(-> & _)|(d & o & -> & _)];
        apply app_nil_r. }
  rewrite Hcalls.
  split; [done|]. split; [done|]. split; [done|].
  assert (Hn0 : outcomes <> [] -> (0 < Z.to_nat max_retries)%nat).
  { destruct outcomes; [done|]. simpl in Hn. lia. }
  split; [|split].
  - intros v Hin.
    apply list_elem_of_In, list_elem_of_lookup in Hin as [i Hi].
    pose proof (lookup_lt_Some _ _ _ Hi) as Hlt.
    destruct (decide (S i < length outcomes)%nat) as [Hinner|Hend].
    { destruct (Hmid i _ Hinner Hi) as (e & He & _). done. }
    assert (Hlast : last outcomes = Some (Return v)).
    { rewrite last_lookup.
      by replace (Nat.pred (length outcomes)) with i by lia. }
    split; [done|].
    destruct (Hpos (Hn0 ltac:(by destruct outcomes)))
      as [(_ & Hr & _)|(_ & _ & _ & _ & _ & e & He & _)]; congruence.
  - intros e Hfull Hlast.
    destruct (Hpos (Hn0 ltac:(by destruct outcomes)))
      as [(-> & Hr & _)|(_ & _ & _ & _ & Hlt & _)]; [|lia].
    rewrite app_nil_r. split; [congruence|]. split; [done|].
    apply waits_of_backoff_trace.
  - intros Hmax.
    destruct (Hpos ltac:(lia))
      as [(-> & Hr & Hc)|(d & o & -> & Hse & Hlt & _)].
    + left. by rewrite app_nil_r.
    + right. by exists d, o.
Qed.

(** With waits that pass: two failures, two waits, then the value. *)
Example retry_succeeds_on_third_attempt :
  retry_with_backoff (observed_sleep no_sleep) (observed_func flaky_twice)
    3 1%float (O, [])
  = (Return 7,
     (3%nat,
      [Called (Raise (mkExc OtherException "busy")); Slept 1%float (Return tt);
       Called (Raise (mkExc OtherException "busy")); Slept 2%float (Return tt);
       Called (Return 7)])).
Proof. vm_compute. reflexivity. Qed.

Example retry_exhausted_raises_last :
  retry_with_backoff (observed_sleep no_sleep) (observed_func always_failing)
    3 0.5%float (O, [])
  = (Raise (mkExc OtherException "failure 2"),
     (3%nat,
      [Called (Raise (mkExc OtherException "failure 0"));
       Slept 0.5%float (Return tt);
       Called (Raise (mkExc OtherException "failure 1"));
       Slept 1%float (Return tt);
       Called (Raise (mkExc OtherException "failure 2"))])).
Proof. vm_compute. reflexivity. Qed.

(** With a negative [initial_delay] the first failure is the last call:
    [time.sleep] refuses the delay and its [ValueError] leaves the
    function. *)
Example retry_negative_delay_stops_at_first_failure :
  retry_with_backoff (observed_sleep time_sleep) (observed_func always_busy)
    3 (-1)%float (empty_world, [])
  = (Raise (mkExc ValueError "sleep length must be non-negative"),
     (empty_world,
      [Called (Raise (mkExc OtherException "busy"));
       Slept (-1)%float
         (Raise (mkExc ValueError "sleep length must be non-negative"))])).
Proof. vm_compute. reflexivity. Qed.

(** C10.  With [max_retries <= 0] the loop body never runs: [func] is not
    called, nothing is waited for, the state is unchanged, and no result
    is returned, since [raise last_exception] raises [None], which is a
    [TypeError]. *)
Theorem retry_nonpositive_never_calls {St A}
    (sleep : float -> St -> Result unit * St) (func : St -> Result A * St)
    (max_retries : Z) (initial_delay : float) (s : St) :
  max_retries <= 0 ->
  retry_with_backoff (observed_sleep sleep) (observed_func func)
    max_retries initial_delay (s, [])
  = (Raise raise_None_error, (s, [])) /\
  retry_with_backoff sleep func max_retries initial_delay s
  = (Raise raise_None_error, s).
Proof.
  intros Hn. unfold retry_with_backoff, range.
  replace (Z.to_nat max_retries) with O by lia. done.
Qed.

(** The theorem at [max_retries = 0]. *)
Lemma retry_nonpositive_never_calls_witness :
  retry_with_backoff (observed_sleep no_sleep) (observed_func flaky_twice)
    0 1%float (O, [])
  = (Raise raise_None_error, (O, [])) /\
  retry_with_backoff no_sleep flaky_twice 0 1%float O
  = (Raise raise_None_error, O).
Proof.
  apply (retry_nonpositive_never_calls no_sleep flaky_twice 0 1%float O).
  lia.
Defined.

(** ** Running the services *)

Lemma bind_Return_inv {A B} (m : M A) (k : A -> M B) w b w' :
  bind m k w = (Return b, w') ->
  exists a w1, m w = (Return a, w1) /\ k a w1 = (Return b, w').
Proof.
  unfold bind. destruct (m w) as [[a|e|] w1]; [eauto|done|done].
Qed.

Lemma try_except_Return_inv {A} (m : M A) (h : Exc -> M A) w a w' :
  try_except m h w = (Return a, w') ->
  m w = (Return a, w') \/
  exists e w1, m w = (Raise e, w1) /\ is_Exception e = true /\
               h e w1 = (Return a, w').
Proof.
  unfold try_except. destruct (m w) as [[a0|e|] w1]; [by left| |done].
  destruct (is_Exception e) eqn:He; [|done]. right. by exists e, w1.
Qed.

Lemma lift_Return_inv {A} (r : Result A) w a w' :
  lift r w = (Return a, w') -> r = Return a /\ w' = w.
Proof. unfold lift. by intros [= -> ->]. Qed.

(** ** ChromaClient.add_chunks *)

Lemma zip_records_length ids documents embeddings metadatas :
  same_length ids documents embeddings metadatas ->
  length (zip_records ids documents embeddings metadatas) = length ids.
Proof.
  unfold same_length.
  revert documents embeddings metadatas.
  induction ids as [|i ids IH]; intros [|d ds] [|e es] [|m ms] (H1 & H2 & H3);
    simplify_eq/=; [done|].
  f_equal. apply IH. by repeat split.
Qed.

Lemma zip_records_lookup ids documents embeddings metadatas (j : nat) i d e m :
  ids !! j = Some i -> documents !! j = Some d ->
  embeddings !! j = Some e -> metadatas !! j = Some m ->
  zip_records ids documents embeddings metadatas !! j
  = Some (mkRecord i d e m).
Proof.
  revert ids documents embeddings metadatas.
  induction j as [|j IH]; intros [|i0 ids] [|d0 ds] [|e0 es] [|m0 ms];
    intros; simplify_eq/=; [done|]. by apply IH.
Qed.

Lemma len_eqb_length {A B} (l : list A) (l' : list B) :
  (len l =? len l') = true <-> length l = length l'.
Proof. unfold len. rewrite Z.eqb_eq. lia. Qed.

Lemma lengths_check ids documents embeddings metadatas :
  (len ids =? len documents) && (len documents =? len embeddings)
  && (len embeddings =? len metadatas) = true
  <-> same_length ids documents embeddings metadatas.
Proof.
  unfold same_length. rewrite !andb_true_iff, !len_eqb_length. tauto.
Qed.

Lemma id_in_spec ids id : id_in ids id = true <-> In id ids.
Proof.
  unfold id_in. rewrite existsb_exists. split.
  - intros (x & Hx & Heq). apply String.eqb_eq in Heq. by subst.
  - intros H. exists id. split; [done|]. apply String.eqb_refl.
Qed.

Lemma zip_records_ids ids documents embeddings metadatas :
  same_length ids documents embeddings metadatas ->
  map rec_id (zip_records ids documents embeddings metadatas) = ids.
Proof.
  unfold same_length. revert documents embeddings metadatas.
  induction ids as [|i ids IH]; intros [|d ds] [|e es] [|m ms] (H1 & H2 & H3);
    simplify_eq/=; [done|].
  f_equal. apply IH. by repeat split.
Qed.

(** A batch none of whose identifiers is held is stored as a whole. *)
Lemma not_held_all (held batch : list StoredRecord) :
  holds_none (map rec_id batch) held -> not_held held batch = batch.
Proof.
  intros Hnone. unfold not_held.
  apply forallb_filter_id, forallb_forall. intros rec Hin.
  apply negb_true_iff. destruct (id_in _ _) eqn:Hid; [|done].
  apply id_in_spec, in_map_iff in Hid as (rec' & Heq & Hheld).
  destruct (Hnone rec' Hheld). rewrite Heq. by apply in_map.
Qed.

(** What [add_chunks] does with a batch that passes its own checks. *)
Lemma add_chunks_run ext ids documents embeddings metadatas w :
  ids <> [] -> same_length ids documents embeddings metadatas ->
  let batch := zip_records ids documents embeddings metadatas in
  let w1 := set_collection (collection w ++ not_held (collection w) batch) w in
  let failed e w0 :=
    if is_Exception e then
      (Raise e,
       add_log (mkLog ERROR ("Failed to add chunks: " ++ str_exc e)) w0)
    else (Raise e, w0) in
  add_chunks ext ids documents embeddings metadatas w
  = match collection_add_check ext (collection w) batch with
    | Some e => failed e w
    | None =>
        match collection_count_check ext (collection w1) with
        | Some e => failed e w1
        | None =>
            (Return tt,
             add_log (mkLog INFO
               ("Added " ++ str_int (len ids)
                ++ " chunks to collection. Total count: "
                ++ str_int (len (collection w1)))) w1)
        end
    end.
Proof.
  intros Hne Hlen batch w1 failed. unfold add_chunks.
  destruct (Z.eqb_spec (len ids) 0) as [H0|_].
  { destruct ids; [done|]. unfold len in H0. simpl in H0. lia. }
  apply lengths_check in Hlen as Hchk. rewrite Hchk. cbn [negb].
  unfold try_except, bind, collection_add, collection_count. fold batch.
  destruct (collection_add_check ext (collection w) batch) as [e|].
  { unfold failed. by destruct (is_Exception e). }
  fold w1. destruct (collection_count_check ext (collection w1)) as [e|].
  - unfold failed. by destruct (is_Exception e).
  - done.
Qed.

(** C7 (as amended).  [add_chunks] first looks at [ids] alone: when it is
    empty the call logs a warning and returns, whatever the other three
    sequences are.  Otherwise, if the four lengths differ, it raises the
    validation error and changes nothing.  Otherwise it hands the zipped
    records to the collection: when the collection accepts the batch and
    answers the count that follows, the call returns, having logged the
    addition and appended, in order, the records whose identifier the
    collection did not hold yet; these are all the records when the
    collection held none of the identifiers. *)
Theorem add_chunks_cases (ext : Externals) (ids documents : list string)
    (embeddings : list (list float)) (metadatas : list (gmap string Val))
    (w : World) :
  (ids = [] ->
   add_chunks ext ids documents embeddings metadatas w
   = (Return tt, add_log (mkLog WARNING "No chunks to add") w)) /\
  (ids <> [] -> ~ same_length ids documents embeddings metadatas ->
   add_chunks ext ids documents embeddings metadatas w
   = (Raise (mkExc ValueError "All input lists must have the same length"),
      w)) /\
  (ids <> [] -> same_length ids documents embeddings metadatas ->
   let batch := zip_records ids documents embeddings metadatas in
   let stored := not_held (collection w) batch in
   length batch = length ids /\
   (holds_none ids (collection w) -> stored = batch) /\
   (collection_add_check ext (collection w) batch = None ->
    collection_count_check ext (collection w ++ stored) = None ->
    exists w',
      add_chunks ext ids documents embeddings metadatas w = (Return tt, w') /\
      collection w' = collection w ++ stored /\
      exists msg, chroma_log w' = chroma_log w ++ [mkLog INFO msg])).
Proof.
  split; [|split].
  - unfold add_chunks. by intros ->.
  - unfold add_chunks. intros Hne Hlen.
    destruct (Z.eqb_spec (len ids) 0) as [H0|_].
    { destruct ids; [done|]. unfold len in H0. simpl in H0. lia. }
    destruct (_ && _) eqn:Hchk; [|done].
    by apply lengths_check in Hchk.
  - intros Hne Hlen batch stored.
    split; [by apply zip_records_length|]. split.
    + intros Hnone. apply not_held_all. unfold batch.
      by rewrite zip_records_ids.
    + intros Hadd Hcount.
      rewrite (add_chunks_run ext ids documents embeddings metadatas w Hne Hlen).
      fold batch. rewrite Hadd. cbn [collection set_collection].
      fold stored. rewrite Hcount.
      eexists. split; [reflexivity|]. split; [reflexivity|].
      eexists. reflexivity.
Qed.

(** The three cases of the theorem: on an empty store, and for a batch
    whose first identifier the store already holds. *)
Lemma add_chunks_cases_witness :
  add_chunks (demo_ext []) [] ["orphan"] [] [] empty_world
  = (Return tt, add_log (mkLog WARNING "No chunks to add") empty_world) /\
  add_chunks (demo_ext []) ["doc1___0"] [] [] [] empty_world
  = (Raise (mkExc ValueError "All input lists must have the same length"),
     empty_world) /\
  (exists w',
     add_chunks (demo_ext []) ["doc1___0"] ["First chunk text"] [unit_vector]
       [demo_metadata 0] empty_world = (Return tt, w') /\
     collection w' = [demo_record 0 "First chunk text"]) /\
  (exists w',
     add_chunks (demo_ext []) ["doc1___0"; "doc1___2"]
       ["Another text"; "Third chunk text"] [unit_vector; unit_vector]
       [demo_metadata 0; demo_metadata 2] stocked_world = (Return tt, w') /\
     collection w'
     = collection stocked_world ++ [demo_record 2 "Third chunk text"]).
Proof.
  split; [|split; [|split]].
  - by apply (add_chunks_cases (demo_ext []) [] ["orphan"] [] [] empty_world).
  - apply (add_chunks_cases (demo_ext []) ["doc1___0"] [] [] [] empty_world).
    + discriminate.
    + intros (H & _). discriminate.
  - destruct (add_chunks_cases (demo_ext []) ["doc1___0"]
                ["First chunk text"] [unit_vector] [demo_metadata 0]
                empty_world) as (_ & _ & H).
    destruct H as (_ & _ & w' & Hrun & Hcoll & _);
      [discriminate|by repeat split|done|done|].
    exists w'. split; [exact Hrun|exact Hcoll].
  - destruct (add_chunks_cases (demo_ext []) ["doc1___0"; "doc1___2"]
                ["Another text"; "Third chunk text"]
                [unit_vector; unit_vector]
                [demo_metadata 0; demo_metadata 2] stocked_world)
      as (_ & _ & H).
    destruct H as (_ & _ & w' & Hrun & Hcoll & _);
      [discriminate|by repeat split|done|done|].
    exists w'. split; [exact Hrun|exact Hcoll].
Defined.

(** C7 (as stated) fails twice.  When [ids] is empty and another sequence
    is not, the lengths differ, yet the call only logs a warning and
    returns.  And when the four lengths agree but the collection already
    holds the identifier, the call returns without appending the record. *)
Lemma add_chunks_skips_validation_and_held_ids :
  ~ add_rejects_unequal (demo_ext []) [] ["orphan"] [] [] empty_world /\
  ~ add_appends (demo_ext []) ["doc1___0"] ["Another text"] [unit_vector]
      [demo_metadata 0] stocked_world.
Proof.
  split.
  - intros H. destruct H as (msg & w' & Hrun & _).
    + intros (Hlen & _). discriminate.
    + vm_compute in Hrun. discriminate.
  - intros H. destruct H as (w' & Hrun & Hcoll).
    + discriminate.
    + by repeat split.
    + vm_compute in Hrun. injection Hrun as <-.
      apply (f_equal (@length StoredRecord)) in Hcoll.
      vm_compute in Hcoll. discriminate.
Qed.

(** ** The query path *)

Lemma build_chunks_zip ids documents metadatas distances :
  length documents = length ids -> length metadatas = length ids ->
  length distances = length ids ->
  forall (m a : nat) acc, (a + m = length ids)%nat ->
  build_chunks (mkQueryResults ids documents metadatas distances)
    (seq a m) acc
  = Return (acc ++ zip_chunks (drop a ids) (drop a documents)
                     (drop a metadatas) (drop a distances)).
Proof.
  intros Hd Hm Hx. induction m as [|m IH]; intros a acc Ha.
  - simpl. rewrite (drop_ge ids) by lia. simpl. by rewrite app_nil_r.
  - simpl.
    destruct (lookup_lt_is_Some_2 ids a ltac:(lia)) as [i Hi].
    destruct (lookup_lt_is_Some_2 documents a ltac:(lia)) as [d Hdoc].
    destruct (lookup_lt_is_Some_2 metadatas a ltac:(lia)) as [md Hmd].
    destruct (lookup_lt_is_Some_2 distances a ltac:(lia)) as [x Hdist].
    rewrite Hi, Hdoc, Hmd, Hdist.
    rewrite IH by lia.
    rewrite (drop_S _ _ _ Hi), (drop_S _ _ _ Hdoc), (drop_S _ _ _ Hmd),
      (drop_S _ _ _ Hdist).
    simpl. by rewrite <- app_assoc.
Qed.

Lemma zip_chunks_metadata ids documents metadatas distances :
  length documents = length ids -> length metadatas = length ids ->
  length distances = length ids ->
  map rc_metadata (zip_chunks ids documents metadatas distances) = metadatas.
Proof.
  revert documents metadatas distances.
  induction ids as [|i ids IH]; intros [|d ds] [|m ms] [|x xs] Hd Hm Hx;
    simplify_eq/=; [done|].
  f_equal. by apply IH.
Qed.

(** C4.  On an empty store the query route answers with the refusal
    sentence, no citations and no retrieved chunks, and leaves the state
    as it was: neither the embedding model nor the generation model is
    used. *)
Theorem process_query_empty_store (ext : Externals) (query : string)
    (w : World) :
  fst (count ext w) = Return 0 ->
  exists w',
    _process_query ext query w
    = (Return (mkQueryAnswer "I don't know." [] []), w') /\
    w' = w /\
    model_calls w' = model_calls w /\
    generate_calls w' = generate_calls w.
Proof.
  intros Hcount. exists w. split; [|done].
  unfold _process_query, try_except, bind, count, collection_count in *.
  destruct (collection_count_check ext (collection w)); [done|].
  simpl in *. injection Hcount as ->. done.
Qed.

(** The theorem on the empty store. *)
Lemma process_query_empty_store_witness :
  exists w',
    _process_query (demo_ext []) "What is a chunk?" empty_world
    = (Return (mkQueryAnswer "I don't know." [] []), w') /\
    w' = empty_world /\
    model_calls w' = model_calls empty_world /\
    generate_calls w' = generate_calls empty_world.
Proof.
  apply (process_query_empty_store (demo_ext []) "What is a chunk?"
           empty_world).
  reflexivity.
Defined.

(** [answer_query] has no such guard of its own: called on its own it
    embeds the question first, and only then answers with the refusal
    when retrieval returns nothing. *)
Lemma answer_query_without_results ext query k w v vs raw :
  model_encode ext (model_calls w) [query] = Return (v :: vs) ->
  collection_query ext (collection w) v k = Return raw ->
  first_or_empty (raw_ids raw) = [] ->
  answer_query ext query k w = (Return refusal, tick_model w).
Proof.
  intros Hembed Hquery Hids.
  unfold answer_query, bind, Embedder_encode, lift, first_item,
    query_similar, try_except, bind, ret.
  rewrite Hembed. simpl model_calls. simpl collection.
  rewrite Hquery. cbn [res_ids]. by rewrite Hids.
Qed.

Lemma match_nonempty {A B} (l : list A) (a b : B) :
  (1 <= length l)%nat ->
  match l with [] => a | _ :: _ => b end = b.
Proof. destruct l; simpl; [lia|done]. Qed.

(** C8.  When retrieval returns [n >= 1] chunks and the generation call
    returns a text, [answer_query] returns that text stripped, the
    retrieved chunks in retrieval order, and exactly one citation per
    chunk: the i-th citation is the projection of the i-th chunk's
    metadata onto [source_filename], [page_number] and [chunk_index].
    Nothing in this depends on the text. *)
Theorem answer_query_cites_every_chunk (ext : Externals) (query : string)
    (k : Z) (w : World) (v : list float) (vs : list (list float))
    (raw : RawQuery) (text : string) :
  let ids := first_or_empty (raw_ids raw) in
  let documents := first_or_empty (raw_documents raw) in
  let metadatas := first_or_empty (raw_metadatas raw) in
  let distances := first_or_empty (raw_distances raw) in
  let chunks := zip_chunks ids documents metadatas distances in
  model_encode ext (model_calls w) [query] = Return (v :: vs) ->
  collection_query ext (collection w) v k = Return raw ->
  (1 <= length ids)%nat ->
  length documents = length ids ->
  length metadatas = length ids ->
  length distances = length ids ->
  generate_content ext (generate_calls w) (PromptBuilder_build query chunks)
  = Return text ->
  exists w',
    answer_query ext query k w
    = (Return (mkQueryAnswer (str_strip ext text) (map project metadatas)
                 chunks), w') /\
    length (map project metadatas) = length ids /\
    length chunks = length ids /\
    (forall (i : nat) c, chunks !! i = Some c ->
       map project metadatas !! i = Some (project (rc_metadata c))).
Proof.
  intros ids documents metadatas distances chunks
    Hembed Hquery Hn Hd Hm Hx Hgen.
  assert (Hbuild :
    build_chunks (mkQueryResults ids documents metadatas distances)
      (seq 0 (length ids)) [] = Return chunks).
  { by rewrite (build_chunks_zip ids documents metadatas distances Hd Hm Hx
                  (length ids) 0 []). }
  assert (Hmeta : map rc_metadata chunks = metadatas)
    by by apply zip_chunks_metadata.
  eexists. split; [|split; [|split]].
  - unfold answer_query, bind, Embedder_encode, lift, first_item,
      query_similar, try_except, bind, ret.
    rewrite Hembed. simpl model_calls. simpl collection.
    rewrite Hquery. fold ids documents metadatas distances.
    cbn [res_ids]. rewrite Hbuild, (match_nonempty ids) by done.
    unfold generate_answer, try_except, bind, ret.
    simpl generate_calls. rewrite Hgen.
    replace (map cite chunks) with (map project metadatas); [reflexivity|].
    rewrite <- Hmeta. by rewrite map_map.
  - rewrite length_map. lia.
  - rewrite <- Hm, <- Hmeta. by rewrite length_map.
  - intros i c Hc. rewrite <- Hmeta, map_map, list_lookup_fmap.
    by rewrite Hc.
Qed.

(** The theorem on a store of two chunks, with a model that answers with the
    refusal sentence. *)
Lemma answer_query_cites_every_chunk_witness :
  let metadatas := first_or_empty (raw_metadatas stocked_raw) in
  let chunks :=
    zip_chunks (first_or_empty (raw_ids stocked_raw))
      (first_or_empty (raw_documents stocked_raw)) metadatas
      (first_or_empty (raw_distances stocked_raw)) in
  exists w',
    answer_query (demo_ext []) "What is a chunk?" 5 stocked_world
    = (Return (mkQueryAnswer (strip "  I don't know.  ")
                 (map project metadatas) chunks), w') /\
    length (map project metadatas)
    = length (first_or_empty (raw_ids stocked_raw)) /\
    length chunks = length (first_or_empty (raw_ids stocked_raw)) /\
    (forall (i : nat) c, chunks !! i = Some c ->
       map project metadatas !! i = Some (project (rc_metadata c))).
Proof.
  apply (answer_query_cites_every_chunk (demo_ext []) "What is a chunk?" 5
           stocked_world unit_vector [] stocked_raw "  I don't know.  ");
    try reflexivity.
  simpl. lia.
Defined.

(** The scenario of the specification: the model answers with the refusal
    sentence and the citations still list both retrieved chunks. *)
Example refusal_answer_keeps_citations :
  match fst (answer_query (demo_ext []) "What is a chunk?" 5 stocked_world) with
  | Return a => Some (answer a, citations a)
  | _ => None
  end
  = Some ("I don't know.",
          [mkCitation (Some (VStr "test.pdf")) (Some (VInt 1)) (Some (VInt 0));
           mkCitation (Some (VStr "test.pdf")) (Some (VInt 1)) (Some (VInt 1))]).
Proof. vm_compute. reflexivity. Qed.

(** ** Document identifiers *)

Lemma list_ascii_of_string_app (a b : string) :
  list_ascii_of_string (a ++ b)
  = list_ascii_of_string a ++ list_ascii_of_string b.
Proof. induction a as [|c a IH]; simpl; [done|]. by rewrite IH. Qed.

Lemma hex_char_alphabet d : In (hex_char d) hex_alphabet.
Proof.
  unfold hex_char.
  destruct (nth_in_or_default (N.to_nat d) hex_alphabet "f"%char) as [H| ->];
    [done|].
  vm_compute. tauto.
Qed.

Lemma hex_digits_alphabet k n :
  List.Forall (fun c => In c ("-"%char :: hex_alphabet))
    (list_ascii_of_string (hex_digits k n)).
Proof.
  revert n. induction k as [|k IH]; intros n; simpl; [constructor|].
  rewrite list_ascii_of_string_app. apply List.Forall_app. split; [apply IH|].
  constructor; [|constructor]. right. apply hex_char_alphabet.
Qed.

Lemma uuid_str_alphabet i :
  List.Forall (fun c => In c ("-"%char :: hex_alphabet))
    (list_ascii_of_string (uuid_str i)).
Proof.
  unfold uuid_str. rewrite !list_ascii_of_string_app.
  repeat (apply List.Forall_app; split); try apply hex_digits_alphabet.
  all: constructor; [by left|constructor].
Qed.

Lemma str_contains_head c needle s :
  str_contains (String c needle) s = true -> In c (list_ascii_of_string s).
Proof.
  induction s as [|a s IH]; simpl; [done|].
  destruct (ascii_dec c a) as [->|_]; [by left|].
  simpl. intros H. right. by apply IH.
Qed.

Lemma prefix_app needle hay :
  String.prefix needle hay = true <-> exists post, hay = (needle ++ post)%string.
Proof.
  revert hay. induction needle as [|c needle IH]; intros [|a hay]; simpl.
  - split; [by exists ""|done].
  - split; [by exists (String a hay)|done].
  - split; [done|by intros [post ?]].
  - destruct (ascii_dec c a) as [->|Hne].
    + rewrite IH. split; intros [post Hpost]; exists post.
      * by rewrite Hpost.
      * by injection Hpost.
    + split; [done|]. intros [post Hpost]. by injection Hpost.
Qed.

(** [str_contains] decides whether [needle] occurs inside [hay]. *)
Lemma str_contains_spec needle hay :
  str_contains needle hay = true
  <-> exists pre post, hay = (pre ++ needle ++ post)%string.
Proof.
  induction hay as [|a hay IH]; cbn [str_contains].
  - rewrite orb_false_r, prefix_app. split.
    + intros [post ->]. by exists "", post.
    + intros (pre & post & H). destruct pre; [by exists post|done].
  - rewrite orb_true_iff, prefix_app, IH. split.
    + intros [[post ->]|(pre & post & ->)].
      * by exists "", post.
      * by exists (String a pre), post.
    + intros (pre & post & H). destruct pre as [|c pre].
      * left. by exists post.
      * right. injection H as -> ->. by exists pre, post.
Qed.

(** The delimiter of chunk identifiers cannot occur inside a generated
    document identifier. *)
Lemma uuid_str_no_delimiter i : str_contains "___" (uuid_str i) = false.
Proof.
  destruct (str_contains "___" (uuid_str i)) eqn:H; [|done].
  apply str_contains_head in H.
  pose proof (uuid_str_alphabet i) as Hall.
  rewrite List.Forall_forall in Hall. specialize (Hall _ H).
  vm_compute in Hall. repeat (destruct Hall as [Hall|Hall]; [discriminate|]).
  done.
Qed.

Lemma uuid_str_delimiter_free i pre post :
  uuid_str i <> (pre ++ "___" ++ post)%string.
Proof.
  intros H.
  assert (Hc : str_contains "___" (uuid_str i) = true)
    by (apply str_contains_spec; eauto).
  by rewrite uuid_str_no_delimiter in Hc.
Qed.

(** ** PDFIngestor *)

Lemma append_chunks_spec chunks page_num all_chunks chunk_index :
  append_chunks chunks page_num all_chunks chunk_index
  = (all_chunks ++ number_chunks chunk_index (map (pair page_num) chunks),
     chunk_index + len chunks).
Proof.
  revert all_chunks chunk_index.
  induction chunks as [|c chunks IH]; intros all_chunks chunk_index.
  - unfold len. simpl. by rewrite app_nil_r, Z.add_0_r.
  - simpl. rewrite IH. unfold number_chunks, len. simpl.
    rewrite <- app_assoc. simpl. f_equal.
    + do 2 f_equal; [by rewrite Z.add_0_r|].
      apply imap_ext. intros j [p t] _. simpl. f_equal. lia.
    + lia.
Qed.

Lemma number_chunks_app base flat flat' :
  number_chunks base (flat ++ flat')
  = number_chunks base flat ++ number_chunks (base + len flat) flat'.
Proof.
  unfold number_chunks, len. rewrite imap_app. f_equal.
  apply imap_ext. intros j pt _. simpl. f_equal. lia.
Qed.

Lemma chunk_pages_spec md fuel self page_texts all_chunks chunk_index r :
  chunk_pages md fuel self page_texts all_chunks chunk_index = Return r ->
  exists flat,
    flat_chunks md fuel self page_texts = Some flat /\
    r = all_chunks ++ number_chunks chunk_index flat.
Proof.
  revert all_chunks chunk_index.
  induction page_texts as [|[p t] rest IH]; intros all_chunks chunk_index Hrun.
  - simpl in *. injection Hrun as <-. exists [].
    split; [done|]. unfold number_chunks. simpl. by rewrite app_nil_r.
  - simpl in *.
    destruct (chunk fuel (chunker self) (md t)) as [chunks|]; [|done].
    rewrite append_chunks_spec in Hrun.
    destruct (IH _ _ Hrun) as (flat & Hflat & ->).
    rewrite Hflat. eexists. split; [done|].
    rewrite number_chunks_app, <- app_assoc. do 3 f_equal.
    unfold len. by rewrite length_map.
Qed.

Lemma extract_pages_spec ext pages page_num page_texts failed_pages pt fp :
  extract_pages ext pages page_num page_texts failed_pages = Return (pt, fp) ->
  fp = failed_pages ++ failed_page_numbers ext page_num pages.
Proof.
  revert page_num page_texts failed_pages.
  induction pages as [|page pages IH];
    intros page_num page_texts failed_pages Hrun.
  - simpl in *. injection Hrun as <- <-. by rewrite app_nil_r.
  - assert (Htail :
      failed_page_numbers ext page_num (page :: pages)
      = (if page_fails ext page then [page_num + 1] else [])
        ++ failed_page_numbers ext (page_num + 1) pages).
    { unfold failed_page_numbers. simpl.
      replace (page_num + Z.of_nat 0 + 1) with (page_num + 1) by lia.
      assert (Himap :
        imap ((fun j page0 => (page_num + Z.of_nat j + 1, page0)) ∘ S) pages
        = imap (fun j page0 => (page_num + 1 + Z.of_nat j + 1, page0)) pages).
      { apply imap_ext. intros j x _. simpl. f_equal. lia. }
      rewrite Himap. by destruct (page_fails ext page). }
    rewrite Htail. simpl in Hrun.
    destruct page as [text|e|]; simpl in *; [| |done].
    + destruct (len (list_ascii_of_string (str_strip ext text)) <? 10).
      * rewrite (IH _ _ _ Hrun). by rewrite <- app_assoc.
      * by rewrite (IH _ _ _ Hrun).
    + destruct (is_Exception e); [|done].
      rewrite (IH _ _ _ Hrun). by rewrite <- app_assoc.
Qed.

(** Whatever [func] and [time.sleep] leave alone, the retry loop leaves
    alone. *)
Lemma retry_loop_frame {St A X} (proj : St -> X)
    (sleep : float -> St -> Result unit * St) (func : St -> Result A * St) :
  (forall s, proj (snd (func s)) = proj s) ->
  (forall d s, proj (snd (sleep d s)) = proj s) ->
  forall max_retries attempts last_exception d s,
    proj (snd (retry_loop sleep func max_retries attempts last_exception d s))
    = proj s.
Proof.
  intros Hfunc Hsleep max_retries attempts.
  induction attempts as [|attempt rest IH]; intros le d s; simpl.
  - by destruct le.
  - specialize (Hfunc s). destruct (func s) as [[v|e|] s0]; simpl in *;
      [done| |done].
    destruct (is_Exception e); [|done].
    destruct (attempt <? max_retries - 1); [|by rewrite IH].
    specialize (Hsleep d s0).
    destruct (sleep d s0) as [[[]|e'|] s1]; simpl in *;
      [rewrite IH|..]; congruence.
Qed.

(** [time.sleep] only passes time. *)
Lemma time_sleep_frame d w :
  collection (snd (time_sleep d w)) = collection w /\
  chroma_log (snd (time_sleep d w)) = chroma_log w /\
  model_calls (snd (time_sleep d w)) = model_calls w /\
  generate_calls (snd (time_sleep d w)) = generate_calls w /\
  entropy_draws (snd (time_sleep d w)) = entropy_draws w /\
  clock_reads (snd (time_sleep d w)) = clock_reads w.
Proof.
  unfold time_sleep. destruct (PrimFloat.is_nan d); [done|].
  destruct (_ || _); [done|]. by destruct (d <? 0)%float.
Qed.

Lemma Embedder_encode_collection ext texts w :
  collection (snd (Embedder_encode ext texts w)) = collection w.
Proof. by destruct texts. Qed.

Lemma add_chunks_Return_inv ext ids documents embeddings metadatas w w' :
  add_chunks ext ids documents embeddings metadatas w = (Return tt, w') ->
  (ids = [] /\ collection w' = collection w) \/
  (ids <> [] /\ same_length ids documents embeddings metadatas /\
   collection w'
   = collection w
     ++ not_held (collection w)
          (zip_records ids documents embeddings metadatas)).
Proof.
  destruct ids as [|i ids'] eqn:Hids.
  - unfold add_chunks. intros [= <-]. by left.
  - rewrite <- Hids.
    assert (Hne : ids <> []) by by rewrite Hids.
    destruct (decide (same_length ids documents embeddings metadatas))
      as [Hlen|Hlen].
    + rewrite (add_chunks_run ext _ _ _ _ w Hne Hlen). intros Hrun. right.
      split; [done|]. split; [done|].
      destruct (collection_add_check ext (collection w) _) as [e|].
      { by destruct (is_Exception e). }
      destruct (collection_count_check ext _) as [e|].
      { by destruct (is_Exception e). }
      by injection Hrun as <-.
    + unfold add_chunks.
      destruct (Z.eqb_spec (len ids) 0) as [H0|_].
      { subst ids. unfold len in H0. simpl in H0. lia. }
      destruct (_ && _) eqn:Hchk; cbn [negb]; [|done].
      by apply lengths_check in Hchk.
Qed.

Lemma number_chunks_length base flat :
  length (number_chunks base flat) = length flat.
Proof. unfold number_chunks. by rewrite length_imap. Qed.

(** What a successful run of [process_pdf] has done. *)
Lemma process_pdf_success_inv ext md fuel self pdf_path filename w r w' :
  process_pdf ext md fuel self pdf_path filename w = (Return r, w') ->
  let doc_id := uuid_str (uuid4_int (urandom ext (entropy_draws w))) in
  exists page_texts failed_pages flat embeddings ingested_at,
    extract_pdf_text ext pdf_path = Return (page_texts, failed_pages) /\
    page_texts <> [] /\
    flat_chunks md fuel self page_texts = Some flat /\
    length embeddings = length flat /\
    r = mkIngestResult doc_id
          (match failed_pages with [] => "ingested" | _ => "partial" end)
          (len flat) failed_pages /\
    collection w'
    = collection w
      ++ not_held (collection w)
           (zip_records (map (chunk_id doc_id) (number_chunks 0 flat))
              (map ce_text (number_chunks 0 flat)) embeddings
              (map (chunk_metadata doc_id filename ingested_at)
                 (number_chunks 0 flat))).
Proof.
  intros Hrun doc_id. unfold process_pdf in Hrun.
  apply bind_Return_inv in Hrun as (d & w1 & Hid & Hrun).
  unfold new_doc_id in Hid. injection Hid as <- <-. fold doc_id in Hrun.
  apply bind_Return_inv in Hrun as ([page_texts failed_pages] & w2 & Hext & Hrun).
  apply lift_Return_inv in Hext as [Hext ->].
  destruct page_texts as [|pt1 pts]; [done|].
  apply bind_Return_inv in Hrun as (all_chunks & w3 & Hchunks & Hrun).
  apply lift_Return_inv in Hchunks as [Hchunks ->].
  apply chunk_pages_spec in Hchunks as (flat & Hflat & Hall).
  simpl in Hall. subst all_chunks.
  apply bind_Return_inv in Hrun as (embeddings & w4 & Hembed & Hrun).
  apply bind_Return_inv in Hrun as (ingested_at & w5 & Hnow & Hrun).
  unfold now in Hnow. injection Hnow as <- <-.
  apply bind_Return_inv in Hrun as ([] & w6 & Hadd & Hrun).
  unfold ret in Hrun. injection Hrun as <- <-.
  assert (Hcoll : collection w4 = collection w).
  { replace w4 with
      (snd (retry_with_backoff time_sleep
              (Embedder_encode ext (map ce_text (number_chunks 0 flat)))
              3 1%float (tick_entropy w))) by by rewrite Hembed.
    unfold retry_with_backoff.
    rewrite (retry_loop_frame collection); [done| |].
    - intros s. apply Embedder_encode_collection.
    - intros d s. apply time_sleep_frame. }
  exists (pt1 :: pts), failed_pages, flat, embeddings,
    (now_isoformat ext (clock_reads w4)).
  split; [done|]. split; [done|]. split; [done|].
  apply add_chunks_Return_inv in Hadd as [[Hnil Hsame]|(Hne & Hlen & Hnew)].
  - apply map_eq_nil in Hnil.
    assert (Hflat0 : flat = []).
    { apply nil_length_inv.
      by rewrite <- (number_chunks_length 0 flat), Hnil. }
    subst flat. simpl in Hnil, Hembed |- *.
    vm_compute in Hembed. injection Hembed as <- _.
    split; [done|]. split; [done|].
    rewrite Hsame. simpl. by rewrite app_nil_r.
  - destruct Hlen as (H1 & H2 & H3).
    rewrite !length_map, number_chunks_length in H1, H2.
    rewrite !length_map, number_chunks_length in H3.
    split; [lia|]. split.
    + unfold len. by rewrite number_chunks_length.
    + rewrite Hnew. simpl. by rewrite Hcoll.
Qed.

(** The records built for the chunks of one document. *)
Lemma stored_records_lookup doc_id filename ingested_at flat embeddings :
  length embeddings = length flat ->
  let entries := number_chunks 0 flat in
  let added :=
    zip_records (map (chunk_id doc_id) entries) (map ce_text entries)
      embeddings (map (chunk_metadata doc_id filename ingested_at) entries) in
  length added = length flat /\
  forall (i : nat) rec, added !! i = Some rec ->
    exists p t, flat !! i = Some (p, t) /\ stored_as doc_id i p t rec.
Proof.
  intros Hemb entries added.
  assert (Hlen : length added = length flat).
  { unfold added, entries. rewrite zip_records_length.
    - by rewrite length_map, number_chunks_length.
    - unfold same_length.
      by rewrite !length_map, number_chunks_length. }
  split; [done|]. intros i rec Hrec.
  pose proof (lookup_lt_Some _ _ _ Hrec) as Hi. rewrite Hlen in Hi.
  destruct (lookup_lt_is_Some_2 flat i Hi) as [[p t] Hpt].
  destruct (lookup_lt_is_Some_2 embeddings i ltac:(lia)) as [e He].
  assert (Hentry : entries !! i = Some (mkChunkEntry t p (0 + Z.of_nat i))).
  { unfold entries, number_chunks. by rewrite list_lookup_imap, Hpt. }
  unfold added in Hrec.
  erewrite zip_records_lookup in Hrec; [| |by rewrite list_lookup_fmap, Hentry
    |exact He|by rewrite list_lookup_fmap, Hentry].
  2:{ by rewrite list_lookup_fmap, Hentry. }
  injection Hrec as <-. exists p, t. split; [done|].
  unfold stored_as, chunk_id, chunk_metadata. simpl.
  repeat split; by simplify_map_eq.
Qed.

(** The records [process_pdf] hands to the store for a list of entries. *)
Lemma ingested_same_length doc_id filename ingested_at
    (entries : list ChunkEntry) (embeddings : list (list float)) :
  length embeddings = length entries ->
  same_length (map (chunk_id doc_id) entries) (map ce_text entries)
    embeddings (map (chunk_metadata doc_id filename ingested_at) entries).
Proof. intros H. unfold same_length. by rewrite !length_map. Qed.

(** A store that holds no chunk identifier of the document takes all its
    records. *)
Lemma ingested_not_held doc_id filename ingested_at entries embeddings held :
  length embeddings = length entries ->
  holds_no_chunk_of doc_id held ->
  not_held held
    (zip_records (map (chunk_id doc_id) entries) (map ce_text entries)
       embeddings (map (chunk_metadata doc_id filename ingested_at) entries))
  = zip_records (map (chunk_id doc_id) entries) (map ce_text entries)
      embeddings (map (chunk_metadata doc_id filename ingested_at) entries).
Proof.
  intros Hlen Hnone. apply not_held_all.
  rewrite zip_records_ids by by apply ingested_same_length.
  intros rec Hheld Hid. apply in_map_iff in Hid as (c & Hc & _).
  by apply (Hnone rec (ce_chunk_index c) Hheld).
Qed.

(** C3.  When extraction yields no successful page, [process_pdf] raises
    before the chunker, the embedder or the store is used: the collection
    and its count are what they were, so no chunk of the new document is
    stored. *)
Theorem process_pdf_without_pages_stores_nothing (ext : Externals)
    (md : string -> string) (fuel : nat) (self : PDFIngestor)
    (pdf_path filename : string) (failed_pages : list Z) (w : World) :
  extract_pdf_text ext pdf_path = Return ([], failed_pages) ->
  exists w',
    process_pdf ext md fuel self pdf_path filename w
    = (Raise (mkExc ValueError
         "No text could be extracted from PDF. It may be image-only (OCR not supported)."),
       w') /\
    collection w' = collection w /\
    fst (count ext w') = fst (count ext w) /\
    chroma_log w' = chroma_log w /\
    model_calls w' = model_calls w.
Proof.
  intros Hext. exists (tick_entropy w).
  split.
  2:{ unfold count, collection_count. simpl.
      by destruct (collection_count_check ext (collection w)). }
  unfold process_pdf, bind, new_doc_id, lift. by rewrite Hext.
Qed.

(** The theorem for a document whose only page is blank. *)
Lemma process_pdf_without_pages_stores_nothing_witness :
  exists w',
    process_pdf (demo_ext blank_pages) id 1 demo_ingestor "blank.pdf"
      "blank.pdf" stocked_world
    = (Raise (mkExc ValueError
         "No text could be extracted from PDF. It may be image-only (OCR not supported)."),
       w') /\
    collection w' = collection stocked_world /\
    fst (count (demo_ext blank_pages) w')
    = fst (count (demo_ext blank_pages) stocked_world) /\
    chroma_log w' = chroma_log stocked_world /\
    model_calls w' = model_calls stocked_world.
Proof.
  apply (process_pdf_without_pages_stores_nothing (demo_ext blank_pages) id 1
           demo_ingestor "blank.pdf" "blank.pdf" [1] stocked_world).
  reflexivity.
Defined.

(** C5.  After a successful [process_pdf] the document identifier is the
    freshly generated UUID, which cannot contain the delimiter [___]; when
    the identifier is fresh indeed, that is, the collection held none of
    its chunk identifiers (the engine skips an identifier it holds), the
    collection has grown by exactly one record per chunk, in the order
    in which the pages were extracted and chunked; and the i-th of these
    records, counted from 0 across all pages, has the identifier
    [doc_id ___ i] and the metadata [chunk_index = i]. *)
Theorem process_pdf_chunk_identifiers (ext : Externals)
    (md : string -> string) (fuel : nat) (self : PDFIngestor)
    (pdf_path filename : string) (w : World) (r : IngestResult) (w' : World) :
  process_pdf ext md fuel self pdf_path filename w = (Return r, w') ->
  holds_no_chunk_of (ir_doc_id r) (collection w) ->
  ir_doc_id r = uuid_str (uuid4_int (urandom ext (entropy_draws w))) /\
  str_contains "___" (ir_doc_id r) = false /\
  exists page_texts failed_pages flat added,
    extract_pdf_text ext pdf_path = Return (page_texts, failed_pages) /\
    flat_chunks md fuel self page_texts = Some flat /\
    collection w' = collection w ++ added /\
    length added = length flat /\
    forall (i : nat) rec, added !! i = Some rec ->
      exists p t, flat !! i = Some (p, t) /\ stored_as (ir_doc_id r) i p t rec.
Proof.
  intros Hrun Hfresh.
  destruct (process_pdf_success_inv _ _ _ _ _ _ _ _ _ Hrun)
    as (page_texts & failed_pages & flat & embeddings & ingested_at &
        Hext & _ & Hflat & Hemb & -> & Hcoll).
  simpl ir_doc_id in *. split; [done|]. split; [apply uuid_str_no_delimiter|].
  rewrite ingested_not_held in Hcoll;
    [|by rewrite number_chunks_length|done].
  exists page_texts, failed_pages, flat. eexists.
  split; [done|]. split; [done|]. split; [exact Hcoll|].
  by apply stored_records_lookup.
Qed.

(** The theorem for the ingestion of the three-page document. *)
Lemma process_pdf_chunk_identifiers_witness :
  let r := demo_result in
  let w' := snd demo_run in
  ir_doc_id r
  = uuid_str (uuid4_int (urandom (demo_ext three_pages)
                           (entropy_draws empty_world))) /\
  str_contains "___" (ir_doc_id r) = false /\
  exists page_texts failed_pages flat added,
    extract_pdf_text (demo_ext three_pages) "paper.pdf"
    = Return (page_texts, failed_pages) /\
    flat_chunks id 2 demo_ingestor page_texts = Some flat /\
    collection w' = collection empty_world ++ added /\
    length added = length flat /\
    forall (i : nat) rec, added !! i = Some rec ->
      exists p t, flat !! i = Some (p, t) /\ stored_as (ir_doc_id r) i p t rec.
Proof.
  apply (process_pdf_chunk_identifiers (demo_ext three_pages) id 2
           demo_ingestor "paper.pdf" "paper.pdf" empty_world demo_result
           (snd demo_run)).
  - vm_compute. reflexivity.
  - intros rec i [].
Defined.

Example demo_run_stores_two_chunks :
  fst demo_run = Return demo_result /\
  map rec_id (collection (snd demo_run))
  = ["01234567-89ab-4def-8123-456789abcdef___0";
     "01234567-89ab-4def-8123-456789abcdef___1"] /\
  map (fun rec => rec_metadata rec !! "chunk_index") (collection (snd demo_run))
  = [Some (VInt 0); Some (VInt 1)] /\
  map (fun rec => rec_metadata rec !! "page_number") (collection (snd demo_run))
  = [Some (VInt 1); Some (VInt 3)] /\
  slept (snd demo_run) = [1%float] /\
  model_calls (snd demo_run) = 2%nat.
Proof. vm_compute. repeat split; reflexivity. Qed.

Lemma extract_pdf_text_inv ext pdf_path page_texts failed_pages :
  extract_pdf_text ext pdf_path = Return (page_texts, failed_pages) ->
  exists pages,
    fitz_open ext pdf_path = Return pages /\
    failed_pages = failed_page_numbers ext 0 pages.
Proof.
  unfold extract_pdf_text.
  destruct (fitz_open ext pdf_path) as [pages|e|]; [| |done].
  - intros Hrun. exists pages. split; [done|].
    by rewrite (extract_pages_spec _ _ _ _ _ _ _ Hrun).
  - by destruct (is_Exception e).
Qed.

(** C9.  The record a successful [process_pdf] returns: its failed pages
    are the numbers of the pages that failed extraction; its status is
    [partial] exactly when that list is non-empty and [ingested] exactly
    when it is empty; and its chunk count is the number of chunks
    produced, which, when the collection held none of the document's chunk
    identifiers (the engine skips an identifier it holds), is also the
    number of records the call has added to the collection, each carrying
    the document's identifier. *)
Theorem process_pdf_result_record (ext : Externals)
    (md : string -> string) (fuel : nat) (self : PDFIngestor)
    (pdf_path filename : string) (w : World) (r : IngestResult) (w' : World) :
  process_pdf ext md fuel self pdf_path filename w = (Return r, w') ->
  holds_no_chunk_of (ir_doc_id r) (collection w) ->
  exists pages page_texts flat added,
    fitz_open ext pdf_path = Return pages /\
    extract_pdf_text ext pdf_path = Return (page_texts, ir_failed_pages r) /\
    ir_failed_pages r = failed_page_numbers ext 0 pages /\
    (ir_status r = "partial" <-> ir_failed_pages r <> []) /\
    (ir_status r = "ingested" <-> ir_failed_pages r = []) /\
    flat_chunks md fuel self page_texts = Some flat /\
    ir_chunks r = len flat /\
    collection w' = collection w ++ added /\
    len added = ir_chunks r /\
    List.Forall
      (fun rec => rec_metadata rec !! "doc_id" = Some (VStr (ir_doc_id r)))
      added.
Proof.
  intros Hrun Hfresh.
  destruct (process_pdf_success_inv _ _ _ _ _ _ _ _ _ Hrun)
    as (page_texts & failed_pages & flat & embeddings & ingested_at &
        Hext & _ & Hflat & Hemb & -> & Hcoll).
  simpl ir_doc_id in Hfresh.
  rewrite ingested_not_held in Hcoll;
    [|by rewrite number_chunks_length|done].
  destruct (extract_pdf_text_inv _ _ _ _ Hext) as (pages & Hopen & Hfailed).
  destruct (stored_records_lookup
              (uuid_str (uuid4_int (urandom ext (entropy_draws w))))
              filename ingested_at flat embeddings Hemb) as [Hlen Hrec].
  exists pages, page_texts, flat. eexists. simpl.
  split; [done|]. split; [done|]. split; [done|].
  split; [by destruct failed_pages|]. split; [by destruct failed_pages|].
  split; [done|]. split; [done|]. split; [exact Hcoll|].
  split; [unfold len; by rewrite Hlen|].
  apply List.Forall_forall. intros rec Hin.
  apply list_elem_of_In, list_elem_of_lookup in Hin as [i Hi].
  destruct (Hrec i rec Hi) as (p & t & _ & _ & _ & Hdoc & _). done.
Qed.

(** The theorem for the ingestion of the three-page document. *)
Lemma process_pdf_result_record_witness :
  let r := demo_result in
  let w' := snd demo_run in
  exists pages page_texts flat added,
    fitz_open (demo_ext three_pages) "paper.pdf" = Return pages /\
    extract_pdf_text (demo_ext three_pages) "paper.pdf"
    = Return (page_texts, ir_failed_pages r) /\
    ir_failed_pages r = failed_page_numbers (demo_ext three_pages) 0 pages /\
    (ir_status r = "partial" <-> ir_failed_pages r <> []) /\
    (ir_status r = "ingested" <-> ir_failed_pages r = []) /\
    flat_chunks id 2 demo_ingestor page_texts = Some flat /\
    ir_chunks r = len flat /\
    collection w' = collection empty_world ++ added /\
    len added = ir_chunks r /\
    List.Forall
      (fun rec => rec_metadata rec !! "doc_id" = Some (VStr (ir_doc_id r)))
      added.
Proof.
  apply (process_pdf_result_record (demo_ext three_pages) id 2
           demo_ingestor "paper.pdf" "paper.pdf" empty_world demo_result
           (snd demo_run)).
  - vm_compute. reflexivity.
  - intros rec i [].
Defined.

(** The ingestor built by [PDFIngestor.__init__] uses the default sizes
    400 and 50, so its chunker terminates on every page. *)
Lemma default_chunker_terminates ext self text :
  PDFIngestor_init ext = Return self ->
  chunk_size (chunker self) = 400 /\ overlap (chunker self) = 50 /\
  exists fuel chunks, chunk fuel (chunker self) text = Some chunks.
Proof.
  unfold PDFIngestor_init, TextChunker_init.
  destruct (from_pretrained ext _) as [tk|e|]; [|done..].
  intros [= <-]. simpl. split; [done|]. split; [done|].
  unfold chunk. simpl.
  destruct (len (tok_encode tk text) =? 0); [by exists O, []|].
  set (n := len _).
  destruct (chunk_loop_terminates
              (fun s e => tok_decode tk (slice (tok_encode tk text) s e))
              n 400 50 (S (Z.to_nat (n - 0))) 0 []) as [r Hr]; [done|lia|].
  by exists (S (Z.to_nat (n - 0))), r.
Qed.

(** * Further properties *)

(** ** TextChunker: short texts, chunk sizes and chunk counts *)

Lemma slice_all {A} (l : list A) : slice l 0 (len l) = l.
Proof.
  rewrite slice_inside by (unfold len; lia).
  rewrite Z.sub_0_r. unfold len. rewrite Nat2Z.id. simpl.
  by rewrite firstn_all.
Qed.

(** X1.  A text with at least one and at most [chunk_size] tokens gives
    exactly one chunk, the decoding of all its tokens, whatever the
    overlap is (a stalling overlap included). *)
Theorem chunk_short_text_single_chunk (self : TextChunker) (text : string)
    (fuel : nat) :
  0 < len (tok_encode (tokenizer self) text) <= chunk_size self ->
  chunk (S fuel) self text
  = Some [tok_decode (tokenizer self) (tok_encode (tokenizer self) text)].
Proof.
  intros [Hpos Hfit]. unfold chunk.
  set (tokens := tok_encode (tokenizer self) text) in *.
  destruct (Z.eqb_spec (len tokens) 0) as [?|_]; [lia|].
  simpl. destruct (Z.ltb_spec 0 (len tokens)) as [_|?]; [|lia].
  rewrite Z.add_0_l, Z.min_r by lia.
  destruct (Z.geb_spec (len tokens) (len tokens)) as [_|?]; [|lia].
  by rewrite slice_all.
Qed.

(** The theorem at a stalling configuration and a four-token text. *)
Lemma chunk_short_text_single_chunk_witness :
  chunk 1 wide_overlap_chunker "abcd" = Some ["abcd"].
Proof.
  apply (chunk_short_text_single_chunk wide_overlap_chunker "abcd" 0).
  vm_compute. split; [reflexivity|discriminate].
Defined.

(** The shape of the windows for a positive chunk size and a positive
    step. *)
Lemma windows_shape fuel n cs ov start tail :
  0 < cs -> ov < cs -> 0 <= start ->
  chunk_loop fuel mkWindow n cs ov start [] = Some tail ->
  Forall (fun w => 0 <= w_start w < n /\
                   w_end w = Z.min (w_start w + cs) n) tail /\
  (forall (j : nat) w, tail !! j = Some w -> (S j < length tail)%nat ->
     w_end w < n).
Proof.
  intros Hcs Hstep. revert start tail.
  induction fuel as [|fuel IH]; intros start tail Hstart Hrun; [done|].
  rewrite chunk_loop_unfold in Hrun.
  destruct (Z.ltb_spec start n) as [Hlt|Hge].
  2:{ injection Hrun as <-. split; [constructor|]. by intros j w Hj. }
  cbv zeta in Hrun.
  destruct (Z.geb_spec (Z.min (start + cs) n) n) as [Hend|Hend].
  - injection Hrun as <-. split.
    + constructor; [simpl; lia|constructor].
    + intros [|j] w Hj Hlen; simpl in Hlen; lia.
  - destruct (chunk_loop fuel mkWindow n cs ov (start + (cs - ov)) [])
      as [rest|] eqn:Hrest; [|done].
    injection Hrun as <-.
    destruct (IH (start + (cs - ov)) rest ltac:(lia) Hrest) as [Hall Hfull].
    split.
    + constructor; [simpl; lia|done].
    + intros [|j] w Hj Hlen.
      * injection Hj as <-. simpl. lia.
      * apply (Hfull j); [done|simpl in Hlen; lia].
Qed.

(** X2.  For a positive [chunk_size] and [overlap < chunk_size] (a
    negative overlap included), no chunk is empty, no chunk has more than
    [chunk_size] tokens, and every chunk but the last has exactly
    [chunk_size] tokens. *)
Theorem chunk_window_sizes (self : TextChunker) (text : string) (fuel : nat)
    (ws : list Window) :
  let tokens := tok_encode (tokenizer self) text in
  0 < chunk_size self -> overlap self < chunk_size self ->
  chunk_windows fuel self text = Some ws ->
  Forall (fun w => 1 <= len (window_tokens tokens w) <= chunk_size self) ws /\
  (forall (j : nat) w, ws !! j = Some w -> (S j < length ws)%nat ->
     len (window_tokens tokens w) = chunk_size self).
Proof.
  intros tokens Hcs Hstep Hrun. unfold chunk_windows in Hrun. fold tokens in Hrun.
  destruct (len tokens =? 0).
  { injection Hrun as <-. split; [constructor|]. by intros j w Hj. }
  destruct (windows_shape _ _ _ _ _ _ Hcs Hstep (Z.le_refl 0) Hrun)
    as [Hall Hfull].
  assert (Hsize : forall w, w ∈ ws ->
            len (window_tokens tokens w) = w_end w - w_start w /\
            0 <= w_start w < len tokens /\
            w_end w = Z.min (w_start w + chunk_size self) (len tokens)).
  { intros w Hw. rewrite Forall_forall in Hall.
    destruct (Hall w Hw) as [Hs He]. split; [|done].
    unfold window_tokens, len at 1. rewrite slice_length by lia. lia. }
  split.
  - apply Forall_forall. intros w Hw.
    destruct (Hsize w Hw) as (-> & Hs & He). lia.
  - intros j w Hj Hlen.
    destruct (Hsize w (list_elem_of_lookup_2 _ _ _ Hj)) as (-> & Hs & He).
    pose proof (Hfull j w Hj Hlen). lia.
Qed.

(** The theorem at [chunk_size = 2], [overlap = -1] and four tokens. *)
Lemma chunk_window_sizes_witness :
  let tokens := tok_encode (tokenizer gap_chunker) "abcd" in
  let ws := [mkWindow 0 2; mkWindow 3 4] in
  Forall (fun w => 1 <= len (window_tokens tokens w) <= 2) ws /\
  (forall (j : nat) w, ws !! j = Some w -> (S j < length ws)%nat ->
     len (window_tokens tokens w) = 2).
Proof.
  apply (chunk_window_sizes gap_chunker "abcd" 2 [mkWindow 0 2; mkWindow 3 4]).
  - reflexivity.
  - reflexivity.
  - reflexivity.
Defined.

(** The number of windows taken from [start] on. *)
Lemma windows_count fuel n cs ov start tail :
  0 <= ov < cs -> 0 <= start < n ->
  chunk_loop fuel mkWindow n cs ov start [] = Some tail ->
  let k := len tail in
  1 <= k /\
  n <= start + (k - 1) * (cs - ov) + cs /\
  (2 <= k -> start + (k - 2) * (cs - ov) + cs < n).
Proof.
  intros Hcfg. revert start tail.
  induction fuel as [|fuel IH]; intros start tail Hstart Hrun; [done|].
  rewrite chunk_loop_unfold in Hrun.
  destruct (Z.ltb_spec start n) as [_|?]; [|lia].
  cbv zeta in Hrun.
  destruct (Z.geb_spec (Z.min (start + cs) n) n) as [Hend|Hend].
  - injection Hrun as <-. unfold len. simpl. lia.
  - destruct (chunk_loop fuel mkWindow n cs ov (start + (cs - ov)) [])
      as [rest|] eqn:Hrest; [|done].
    injection Hrun as <-.
    destruct (IH (start + (cs - ov)) rest ltac:(lia) Hrest) as (H1 & H2 & H3).
    unfold len in *. simpl length. rewrite Nat2Z.inj_succ.
    set (k' := Z.of_nat (length rest)) in *.
    split; [lia|]. split; [nia|].
    intros _. destruct (Z.eq_dec k' 1) as [->|Hk]; [lia|].
    specialize (H3 ltac:(lia)). nia.
Qed.

(** X3.  For [0 <= overlap < chunk_size] and a text with [n >= 1] tokens
    the number [k] of chunks is determined by the sizes: the window
    number [k - 1] is the first to reach the end of the tokens.  So [k] is
    1 when [n <= chunk_size], and never more than [n]. *)
Theorem chunk_count (self : TextChunker) (text : string) (fuel : nat)
    (chunks : list string) :
  let n := len (tok_encode (tokenizer self) text) in
  let step := chunk_size self - overlap self in
  let k := len chunks in
  0 <= overlap self < chunk_size self -> 1 <= n ->
  chunk fuel self text = Some chunks ->
  1 <= k <= n /\
  n <= (k - 1) * step + chunk_size self /\
  (2 <= k -> (k - 2) * step + chunk_size self < n).
Proof.
  intros n step k Hcfg Hn Hrun.
  rewrite chunk_windows_decoded in Hrun.
  destruct (chunk_windows fuel self text) as [ws|] eqn:Hws; [|done].
  injection Hrun as <-. unfold k, len. rewrite length_map.
  unfold chunk_windows in Hws. fold n in Hws.
  destruct (Z.eqb_spec n 0) as [?|_]; [lia|].
  assert (H0n : 0 <= 0 < n) by lia.
  destruct (windows_count _ _ _ _ _ _ Hcfg H0n Hws) as (H1 & H2 & H3).
  unfold len in *. fold step in H2, H3.
  set (kz := Z.of_nat (length ws)) in *.
  split; [|split; [lia|intros Hk; specialize (H3 Hk); lia]].
  split; [lia|].
  destruct (Z.le_gt_cases kz 1) as [?|Hk]; [lia|].
  specialize (H3 ltac:(lia)). unfold step in *. nia.
Qed.

(** The theorem at [chunk_size = 4], [overlap = 1] and ten tokens: three
    chunks. *)
Lemma chunk_count_witness :
  let chunks := ["abcd"; "defg"; "ghij"] in
  1 <= len chunks <= 10 /\
  10 <= (len chunks - 1) * 3 + 4 /\
  (2 <= len chunks -> (len chunks - 2) * 3 + 4 < 10).
Proof.
  apply (chunk_count small_chunker "abcdefghij" 4 ["abcd"; "defg"; "ghij"]).
  - simpl. lia.
  - vm_compute. discriminate.
  - reflexivity.
Defined.

(** ** PDFIngestor.extract_pdf_text *)

Lemma numbered_cons base page pages :
  numbered base (page :: pages)
  = (base + 1, page) :: numbered (base + 1) pages.
Proof.
  unfold numbered. simpl. f_equal; [f_equal; lia|].
  apply imap_ext. intros j x _. simpl. f_equal. lia.
Qed.

Lemma failed_page_numbers_cons ext base page pages :
  failed_page_numbers ext base (page :: pages)
  = (if page_fails ext page then [base + 1] else [])
    ++ failed_page_numbers ext (base + 1) pages.
Proof.
  unfold failed_page_numbers. fold (numbered base (page :: pages)).
  fold (numbered (base + 1) pages). rewrite numbered_cons. simpl.
  by destruct (page_fails ext page).
Qed.

Lemma extracted_pages_cons ext base page pages :
  extracted_pages ext base (page :: pages)
  = match page with
    | Return text =>
        if page_fails ext page then [] else [(base + 1, text)]
    | _ => []
    end ++ extracted_pages ext (base + 1) pages.
Proof.
  unfold extracted_pages. rewrite numbered_cons. simpl.
  destruct page as [text|e|]; [|done..].
  by destruct (page_fails ext (Return text)).
Qed.

(** The page loop on a document all of whose pages are benign. *)
Lemma extract_pages_result ext pages page_num page_texts failed_pages :
  forallb benign pages = true ->
  extract_pages ext pages page_num page_texts failed_pages
  = Return (page_texts ++ extracted_pages ext page_num pages,
            failed_pages ++ failed_page_numbers ext page_num pages).
Proof.
  revert page_num page_texts failed_pages.
  induction pages as [|page pages IH]; intros page_num pt fp Hben.
  - simpl. by rewrite !app_nil_r.
  - simpl in Hben. apply andb_true_iff in Hben as [Hpage Hrest].
    rewrite extracted_pages_cons, failed_page_numbers_cons. simpl.
    destruct page as [text|e|]; simpl in *; [| |done].
    + destruct (len (list_ascii_of_string (str_strip ext text)) <? 10);
        rewrite IH by done; by rewrite <- ?app_assoc.
    + rewrite Hpage, IH by done. by rewrite <- app_assoc.
Qed.

(** The page loop never raises an exception that [except Exception] would
    catch. *)
Lemma extract_pages_Raise ext pages page_num page_texts failed_pages e :
  extract_pages ext pages page_num page_texts failed_pages = Raise e ->
  is_Exception e = false.
Proof.
  revert page_num page_texts failed_pages.
  induction pages as [|page pages IH]; intros page_num pt fp; simpl; [done|].
  destruct page as [text|e0|]; [| |done].
  - destruct (_ <? 10); apply IH.
  - destruct (is_Exception e0) eqn:He0; [apply IH|]. by intros [= <-].
Qed.

Lemma failed_page_numbers_range ext base pages :
  StronglySorted Z.lt (failed_page_numbers ext base pages) /\
  forall k, k ∈ failed_page_numbers ext base pages <->
    exists (i : nat) page,
      pages !! i = Some page /\ k = base + Z.of_nat i + 1 /\
      page_fails ext page = true.
Proof.
  revert base. induction pages as [|page pages IH]; intros base.
  - split; [constructor|]. intros k. split; [by intros ?%elem_of_nil|].
    by intros (i & page & Hi & _).
  - rewrite failed_page_numbers_cons.
    destruct (IH (base + 1)) as [Hsorted Hmem]. split.
    + destruct (page_fails ext page); [|done]. simpl.
      constructor; [done|]. apply Forall_forall. intros k Hk.
      apply Hmem in Hk as (i & _ & _ & -> & _). lia.
    + intros k. rewrite elem_of_app, Hmem. split.
      * intros [Hk|(i & p & Hi & -> & Hp)].
        -- destruct (page_fails ext page) eqn:Hp;
             [|by apply elem_of_nil in Hk].
           apply list_elem_of_singleton in Hk as ->.
           exists O, page. split; [reflexivity|]. split; [lia|done].
        -- exists (S i), p. split; [exact Hi|]. split; [lia|done].
      * intros ([|i] & p & Hi & -> & Hp); simpl in Hi.
        -- injection Hi as <-. left. rewrite Hp.
           apply list_elem_of_singleton. lia.
        -- right. exists i, p. split; [exact Hi|]. split; [lia|done].
Qed.

Lemma extracted_pages_range ext base pages :
  StronglySorted Z.lt (map fst (extracted_pages ext base pages)) /\
  forall k text, (k, text) ∈ extracted_pages ext base pages <->
    exists (i : nat),
      pages !! i = Some (Return text) /\ k = base + Z.of_nat i + 1 /\
      page_fails ext (Return text) = false.
Proof.
  revert base. induction pages as [|page pages IH]; intros base.
  - split; [constructor|]. intros k text.
    split; [by intros ?%elem_of_nil|]. by intros (i & Hi & _).
  - rewrite extracted_pages_cons.
    destruct (IH (base + 1)) as [Hsorted Hmem]. split.
    + assert (Hlate : Forall (fun k => base + 1 < k)
                (map fst (extracted_pages ext (base + 1) pages))).
      { apply Forall_forall. intros k Hk.
        apply list_elem_of_fmap in Hk as ([k' text] & -> & Hk).
        apply Hmem in Hk as (i & _ & -> & _). simpl. lia. }
      destruct page as [text|e|]; [|done..].
      destruct (page_fails ext (Return text)); [done|].
      simpl. by constructor.
    + intros k text. rewrite elem_of_app, Hmem. split.
      * intros [Hk|(i & Hi & -> & Hp)].
        -- destruct page as [text0|e|]; [|by apply elem_of_nil in Hk..].
           destruct (page_fails ext (Return text0)) eqn:Hp;
             [by apply elem_of_nil in Hk|].
           apply list_elem_of_singleton in Hk as [= -> ->].
           exists O. split; [reflexivity|]. split; [lia|done].
        -- exists (S i). split; [exact Hi|]. split; [lia|done].
      * intros ([|i] & Hi & -> & Hp); simpl in Hi.
        -- injection Hi as ->. left. rewrite Hp.
           apply list_elem_of_singleton. f_equal. lia.
        -- right. exists i. split; [exact Hi|]. split; [lia|done].
Qed.

Lemma extracted_failed_lengths ext base pages :
  forallb benign pages = true ->
  (length (extracted_pages ext base pages)
   + length (failed_page_numbers ext base pages) = length pages)%nat.
Proof.
  revert base. induction pages as [|page pages IH]; intros base Hben; [done|].
  simpl in Hben. apply andb_true_iff in Hben as [Hpage Hrest].
  rewrite extracted_pages_cons, failed_page_numbers_cons, !length_app.
  specialize (IH (base + 1) Hrest).
  destruct page as [text|e|]; simpl in *; [|lia|done].
  destruct (_ <? 10); simpl; lia.
Qed.

(** X4.  When the document opens and no page hangs or raises outside
    [Exception], extraction returns and accounts for every page exactly
    once: a page is among the failed pages when reading it raised or gave
    fewer than ten characters after stripping, and otherwise among the
    page texts with its own text; both lists carry one-based page numbers
    in ascending order. *)
Theorem extract_pdf_text_partitions_pages (ext : Externals)
    (pdf_path : string) (pages : list (Result string)) :
  fitz_open ext pdf_path = Return pages ->
  forallb benign pages = true ->
  exists page_texts failed_pages,
    extract_pdf_text ext pdf_path = Return (page_texts, failed_pages) /\
    (length page_texts + length failed_pages = length pages)%nat /\
    StronglySorted Z.lt (map fst page_texts) /\
    StronglySorted Z.lt failed_pages /\
    (forall k text, (k, text) ∈ page_texts <->
       exists i : nat, pages !! i = Some (Return text) /\
         k = Z.of_nat i + 1 /\
         10 <= len (list_ascii_of_string (str_strip ext text))) /\
    (forall k, k ∈ failed_pages <->
       exists (i : nat) page, pages !! i = Some page /\
         k = Z.of_nat i + 1 /\
         match page with
         | Return text =>
             len (list_ascii_of_string (str_strip ext text)) < 10
         | _ => True
         end).
Proof.
  intros Hopen Hben.
  exists (extracted_pages ext 0 pages), (failed_page_numbers ext 0 pages).
  destruct (extracted_pages_range ext 0 pages) as [Hs1 Hm1].
  destruct (failed_page_numbers_range ext 0 pages) as [Hs2 Hm2].
  split; [|split; [by apply extracted_failed_lengths|]].
  { unfold extract_pdf_text. rewrite Hopen.
    by rewrite extract_pages_result. }
  split; [done|]. split; [done|]. split.
  - intros k text. rewrite Hm1. unfold page_fails.
    split; intros (i & Hi & -> & Hp); exists i;
      (split; [done|]); (split; [lia|]);
      [by apply Z.ltb_ge in Hp|by apply Z.ltb_ge].
  - intros k. rewrite Hm2. unfold page_fails.
    split; intros (i & page & Hi & -> & Hp); exists i, page;
      (split; [done|]); (split; [lia|]).
    + destruct page; [by apply Z.ltb_lt in Hp|done..].
    + destruct page; [by apply Z.ltb_lt|done..].
Qed.

(** The theorem for a document with a good page, an unreadable page and a
    blank page. *)
Lemma extract_pdf_text_partitions_pages_witness :
  exists page_texts failed_pages,
    extract_pdf_text (demo_ext damaged_pages) "damaged.pdf"
    = Return (page_texts, failed_pages) /\
    (length page_texts + length failed_pages = length damaged_pages)%nat /\
    StronglySorted Z.lt (map fst page_texts) /\
    StronglySorted Z.lt failed_pages /\
    (forall k text, (k, text) ∈ page_texts <->
       exists i : nat, damaged_pages !! i = Some (Return text) /\
         k = Z.of_nat i + 1 /\
         10 <= len (list_ascii_of_string
                      (str_strip (demo_ext damaged_pages) text))) /\
    (forall k, k ∈ failed_pages <->
       exists (i : nat) page, damaged_pages !! i = Some page /\
         k = Z.of_nat i + 1 /\
         match page with
         | Return text =>
             len (list_ascii_of_string
                    (str_strip (demo_ext damaged_pages) text)) < 10
         | _ => True
         end).
Proof.
  apply (extract_pdf_text_partitions_pages (demo_ext damaged_pages)
           "damaged.pdf" damaged_pages); reflexivity.
Defined.

Example extract_damaged_document :
  extract_pdf_text (demo_ext damaged_pages) "damaged.pdf"
  = Return ([(1, page_one)], [2; 3]).
Proof. reflexivity. Qed.

(** X5.  Extraction fails with a catchable exception only when the
    document cannot be opened, and then with a [ValueError] that quotes
    the cause; a page that cannot be read never aborts it.  Ingesting an
    unopenable document raises that [ValueError] with the store, its log
    and both models untouched. *)
Theorem extract_pdf_text_fails_only_on_open (ext : Externals)
    (md : string -> string) (fuel : nat) (self : PDFIngestor)
    (pdf_path filename : string) (e : Exc) (w : World) :
  extract_pdf_text ext pdf_path = Raise e ->
  is_Exception e = true ->
  exists cause,
    fitz_open ext pdf_path = Raise cause /\
    is_Exception cause = true /\
    e = mkExc ValueError ("Cannot open PDF file: " ++ str_exc cause) /\
    process_pdf ext md fuel self pdf_path filename w
    = (Raise e, tick_entropy w).
Proof.
  intros Hext Hexc.
  assert (Hrun : process_pdf ext md fuel self pdf_path filename w
                 = (Raise e, tick_entropy w)).
  { unfold process_pdf, bind, new_doc_id, lift. by rewrite Hext. }
  unfold extract_pdf_text in Hext.
  destruct (fitz_open ext pdf_path) as [pages|cause|]; [| |done].
  - apply extract_pages_Raise in Hext. congruence.
  - destruct (is_Exception cause) eqn:Hcause.
    + injection Hext as <-. by exists cause.
    + injection Hext as <-. congruence.
Qed.

(** The theorem for a missing file. *)
Lemma extract_pdf_text_fails_only_on_open_witness :
  exists cause,
    fitz_open unreadable_ext "missing.pdf" = Raise cause /\
    is_Exception cause = true /\
    mkExc ValueError "Cannot open PDF file: no such file: missing.pdf"
    = mkExc ValueError ("Cannot open PDF file: " ++ str_exc cause) /\
    process_pdf unreadable_ext id 1 demo_ingestor "missing.pdf" "missing.pdf"
      stocked_world
    = (Raise (mkExc ValueError
                "Cannot open PDF file: no such file: missing.pdf"),
       tick_entropy stocked_world).
Proof.
  apply (extract_pdf_text_fails_only_on_open unreadable_ext id 1
           demo_ingestor "missing.pdf" "missing.pdf"
           (mkExc ValueError "Cannot open PDF file: no such file: missing.pdf")
           stocked_world); reflexivity.
Defined.

(** ** PDFIngestor.process_pdf: failures and resources *)

Lemma number_chunks_texts base flat :
  map ce_text (number_chunks base flat) = map snd flat.
Proof.
  unfold number_chunks. apply list_eq. intros i.
  rewrite !list_lookup_fmap, list_lookup_imap.
  by destruct (flat !! i).
Qed.

Lemma chunk_pages_of_flat md fuel self page_texts flat all_chunks chunk_index :
  flat_chunks md fuel self page_texts = Some flat ->
  chunk_pages md fuel self page_texts all_chunks chunk_index
  = Return (all_chunks ++ number_chunks chunk_index flat).
Proof.
  revert flat all_chunks chunk_index.
  induction page_texts as [|[p t] rest IH]; intros flat acc idx Hflat.
  - injection Hflat as <-. unfold number_chunks. simpl. by rewrite app_nil_r.
  - simpl in *.
    destruct (chunk fuel (chunker self) (md t)) as [chunks|]; [|done].
    destruct (flat_chunks md fuel self rest) as [others|]; [|done].
    injection Hflat as <-. rewrite append_chunks_spec.
    rewrite (IH others) by done.
    rewrite number_chunks_app, <- app_assoc. do 3 f_equal.
    unfold len. by rewrite length_map.
Qed.

Lemma Embedder_encode_nonempty ext texts w :
  texts <> [] ->
  Embedder_encode ext texts w
  = (model_encode ext (model_calls w) texts, tick_model w).
Proof. by destruct texts. Qed.

(** Three failed attempts of a run with [max_retries = 3]. *)
Lemma retry_three_failures {St A}
    (sleep : float -> St -> Result unit * St)
    (func : St -> Result A * St) d s e1 s1 s1' e2 s2 s2' e3 s3 :
  func s = (Raise e1, s1) -> is_Exception e1 = true ->
  sleep d s1 = (Return tt, s1') ->
  func s1' = (Raise e2, s2) -> is_Exception e2 = true ->
  sleep (d * 2)%float s2 = (Return tt, s2') ->
  func s2' = (Raise e3, s3) -> is_Exception e3 = true ->
  retry_with_backoff sleep func 3 d s = (Raise e3, s3).
Proof.
  intros H1 He1 Hs1 H2 He2 Hs2 H3 He3.
  unfold retry_with_backoff. simpl.
  by rewrite H1, He1, Hs1, H2, He2, Hs2, H3, He3.
Qed.

(** The waits of [process_pdf] are accepted by [time.sleep]. *)
Lemma time_sleep_one w : time_sleep 1 w = (Return tt, add_sleep 1 w).
Proof. reflexivity. Qed.

Lemma time_sleep_two w :
  time_sleep (1 * 2)%float w = (Return tt, add_sleep 2 w).
Proof. reflexivity. Qed.

(** X6.  When the embedding model fails, with a catchable exception, on
    each of the three attempts that [process_pdf] allows, the call raises
    the exception of the third attempt as it is; the model has been used
    exactly three times, with waits of 1 and 2 seconds in between, and
    nothing has been stored or logged by the store. *)
Theorem process_pdf_embedding_exhausted (ext : Externals)
    (md : string -> string) (fuel : nat) (self : PDFIngestor)
    (pdf_path filename : string) (w : World)
    (page_texts : list (Z * string)) (failed_pages : list Z)
    (flat : list (Z * string)) (e1 e2 e3 : Exc) :
  extract_pdf_text ext pdf_path = Return (page_texts, failed_pages) ->
  flat_chunks md fuel self page_texts = Some flat ->
  flat <> [] ->
  model_encode ext (model_calls w) (map snd flat) = Raise e1 ->
  model_encode ext (S (model_calls w)) (map snd flat) = Raise e2 ->
  model_encode ext (S (S (model_calls w))) (map snd flat) = Raise e3 ->
  is_Exception e1 = true -> is_Exception e2 = true ->
  is_Exception e3 = true ->
  exists w',
    process_pdf ext md fuel self pdf_path filename w = (Raise e3, w') /\
    collection w' = collection w /\
    chroma_log w' = chroma_log w /\
    model_calls w' = (model_calls w + 3)%nat /\
    slept w' = slept w ++ [1%float; 2%float].
Proof.
  intros Hext Hflat Hne H1 H2 H3 He1 He2 He3.
  assert (Hpages : page_texts <> []).
  { intros ->. simpl in Hflat. by injection Hflat as <-. }
  assert (Htexts : map ce_text (number_chunks 0 flat) <> []).
  { rewrite number_chunks_texts. by destruct flat. }
  eexists. split.
  - unfold process_pdf, bind, new_doc_id, lift. rewrite Hext.
    destruct page_texts as [|pt pts]; [done|].
    rewrite (chunk_pages_of_flat md fuel self (pt :: pts) flat [] 0 Hflat).
    rewrite app_nil_l.
    erewrite (retry_three_failures time_sleep); [reflexivity|..].
    + rewrite Embedder_encode_nonempty by done.
      rewrite number_chunks_texts. simpl model_calls. by rewrite H1.
    + done.
    + apply time_sleep_one.
    + rewrite Embedder_encode_nonempty by done.
      rewrite number_chunks_texts. simpl model_calls. by rewrite H2.
    + done.
    + apply time_sleep_two.
    + rewrite Embedder_encode_nonempty by done.
      rewrite number_chunks_texts. simpl model_calls. by rewrite H3.
    + done.
  - simpl. repeat split; [lia|by rewrite <- app_assoc].
Qed.

(** The theorem for a model that is never available. *)
Lemma process_pdf_embedding_exhausted_witness :
  exists w',
    process_pdf offline_ext id 2 demo_ingestor "paper.pdf" "paper.pdf"
      stocked_world
    = (Raise (mkExc RuntimeError "Model load failed, attempt 3"), w') /\
    collection w' = collection stocked_world /\
    chroma_log w' = chroma_log stocked_world /\
    model_calls w' = (model_calls stocked_world + 3)%nat /\
    slept w' = slept stocked_world ++ [1%float; 2%float].
Proof.
  apply (process_pdf_embedding_exhausted offline_ext id 2 demo_ingestor
           "paper.pdf" "paper.pdf" stocked_world
           [(1, page_one); (3, page_three)] [2]
           [(1, page_one); (3, page_three)]
           (mkExc RuntimeError "Model load failed, attempt 1")
           (mkExc RuntimeError "Model load failed, attempt 2")
           (mkExc RuntimeError "Model load failed, attempt 3"));
    try reflexivity.
  discriminate.
Defined.

Lemma keeps_untouched ext {A} (m : M A) :
  keeps_collection m -> untouched_or_uncounted ext m.
Proof. intros Hm w _. left. apply Hm. Qed.

Lemma keeps_bind {A B} (m : M A) (k : A -> M B) :
  keeps_collection m -> (forall a, keeps_collection (k a)) ->
  keeps_collection (bind m k).
Proof.
  intros Hm Hk w. unfold bind. specialize (Hm w).
  destruct (m w) as [[a|e|] w1]; simpl in *; [|done..].
  by rewrite Hk.
Qed.

Lemma untouched_or_uncounted_bind ext {A B} (m : M A) (k : A -> M B) :
  keeps_collection m -> (forall a, untouched_or_uncounted ext (k a)) ->
  untouched_or_uncounted ext (bind m k).
Proof.
  intros Hm Hk w. unfold bind. specialize (Hm w).
  destruct (m w) as [[a|e|] w1]; simpl in *; [|by left..].
  intros Hfail. rewrite <- Hm. by apply Hk.
Qed.

Lemma keeps_try_except {A} (m : M A) (h : Exc -> M A) :
  keeps_collection m -> (forall e, keeps_collection (h e)) ->
  keeps_collection (try_except m h).
Proof.
  intros Hm Hh w. unfold try_except. specialize (Hm w).
  destruct (m w) as [[a|e|] w1]; simpl in *; [done| |done].
  destruct (is_Exception e); [|done]. by rewrite Hh.
Qed.

Lemma keeps_ret {A} (a : A) : keeps_collection (ret a).
Proof. done. Qed.

Lemma keeps_raise {A} (e : Exc) : keeps_collection (raise (A:=A) e).
Proof. done. Qed.

Lemma keeps_lift {A} (r : Result A) : keeps_collection (lift r).
Proof. done. Qed.

Lemma keeps_add_log r : keeps_collection (modify (add_log r)).
Proof. done. Qed.

Lemma keeps_embedding_with_retry ext texts max_retries d :
  keeps_collection
    (retry_with_backoff time_sleep (Embedder_encode ext texts) max_retries d).
Proof.
  intros w. unfold retry_with_backoff.
  apply (retry_loop_frame collection).
  - intros s. apply Embedder_encode_collection.
  - intros d' s. apply time_sleep_frame.
Qed.

(** [add_chunks] fails with the collection as it was, unless the engine
    took the batch and then failed to count. *)
Lemma add_chunks_untouched_or_uncounted ext ids documents embeddings
    metadatas :
  untouched_or_uncounted ext
    (add_chunks ext ids documents embeddings metadatas).
Proof.
  intros w Hfail.
  destruct ids as [|i ids'] eqn:Hids; [by left|]. rewrite <- Hids in *.
  assert (Hne : ids <> []) by by rewrite Hids.
  destruct (decide (same_length ids documents embeddings metadatas))
    as [Hlen|Hlen].
  - rewrite (add_chunks_run ext _ _ _ _ w Hne Hlen) in *.
    destruct (collection_add_check ext (collection w) _) as [e|].
    { left. by destruct (is_Exception e). }
    destruct (collection_count_check ext _) as [e|] eqn:Hcount.
    + right. exists e. eexists. simpl in Hcount.
      destruct (is_Exception e); simpl; by rewrite Hcount.
    + by destruct (Hfail tt).
  - left. unfold add_chunks.
    destruct (len ids =? 0); [done|].
    destruct (_ && _) eqn:Hchk; cbn [negb]; [|done].
    by apply lengths_check in Hchk.
Qed.

(** X7.  [process_pdf] writes to the store last.  Whenever it does not
    return a record (a failed extraction, a chunker that does not
    terminate, an exhausted or interrupted embedding, a refused delay, a
    batch that fails validation or that the engine refuses without storing
    it), the collection is exactly what it was before the call, with one
    exception: when the engine has taken the batch and the [count()] that
    [add_chunks] asks for next raises, the call raises that exception
    although records have been appended. *)
Theorem process_pdf_failure_store (ext : Externals)
    (md : string -> string) (fuel : nat) (self : PDFIngestor)
    (pdf_path filename : string) (w : World) :
  (forall r, fst (process_pdf ext md fuel self pdf_path filename w)
             <> Return r) ->
  let run := process_pdf ext md fuel self pdf_path filename w in
  collection (snd run) = collection w \/
  exists e added,
    fst run = Raise e /\
    collection (snd run) = collection w ++ added /\
    collection_count_check ext (collection (snd run)) = Some e.
Proof.
  apply (untouched_or_uncounted_bind ext (new_doc_id ext)); [done|].
  intros doc_id. apply untouched_or_uncounted_bind; [apply keeps_lift|].
  intros [page_texts failed_pages].
  destruct page_texts as [|pt pts];
    [apply keeps_untouched, keeps_raise|].
  apply untouched_or_uncounted_bind; [apply keeps_lift|]. intros all_chunks.
  apply untouched_or_uncounted_bind; [apply keeps_embedding_with_retry|].
  intros embeddings.
  apply untouched_or_uncounted_bind; [done|]. intros ingested_at.
  intros w0 Hfail. unfold bind in *.
  pose proof (add_chunks_untouched_or_uncounted ext
                (map (chunk_id doc_id) all_chunks) (map ce_text all_chunks)
                embeddings
                (map (chunk_metadata doc_id filename ingested_at) all_chunks)
                w0) as Hadd.
  destruct (add_chunks ext _ _ _ _ w0) as [[[]|e|] w1]; simpl in *.
  - by destruct (Hfail (mkIngestResult doc_id
        match failed_pages with [] => "ingested" | _ => "partial" end
        (len all_chunks) failed_pages)).
  - destruct (Hadd ltac:(done)) as [Hsame|(e0 & added & [= <-] & Hc & Hn)];
      [by left|].
    right. by exists e, added.
  - destruct (Hadd ltac:(done)) as [Hsame|(e0 & added & He & _)];
      [by left|done].
Qed.

(** The theorem for an engine that stores and then fails to count: the
    call fails and the two chunks are in the store. *)
Lemma process_pdf_failure_store_witness :
  let run := process_pdf uncounted_ext id 2 demo_ingestor "paper.pdf"
               "paper.pdf" empty_world in
  (collection (snd run) = collection empty_world \/
   exists e added,
     fst run = Raise e /\
     collection (snd run) = collection empty_world ++ added /\
     collection_count_check uncounted_ext (collection (snd run)) = Some e) /\
  fst run = Raise (mkExc RuntimeError "count failed") /\
  length (collection (snd run)) = 2%nat.
Proof.
  split; [|split; vm_compute; reflexivity].
  apply (process_pdf_failure_store uncounted_ext id 2 demo_ingestor
           "paper.pdf" "paper.pdf" empty_world).
  intros r. vm_compute. discriminate.
Defined.

(** With an embedding model that is never available nothing is stored. *)
Example process_pdf_offline_stores_nothing :
  collection (snd (process_pdf offline_ext id 2 demo_ingestor "paper.pdf"
                     "paper.pdf" stocked_world))
  = collection stocked_world.
Proof. vm_compute. reflexivity. Qed.

Lemma add_chunks_usage ext ids documents embeddings metadatas w :
  let w' := snd (add_chunks ext ids documents embeddings metadatas w) in
  model_calls w' = model_calls w /\ generate_calls w' = generate_calls w /\
  slept w' = slept w /\ entropy_draws w' = entropy_draws w /\
  clock_reads w' = clock_reads w.
Proof.
  unfold add_chunks.
  destruct (len ids =? 0); [done|].
  destruct (negb _); [done|].
  unfold try_except, bind, collection_add, collection_count, modify.
  destruct (collection_add_check ext (collection w) _) as [e|].
  { by destruct (is_Exception e). }
  simpl. destruct (collection_count_check ext _) as [e|]; [|done].
  by destruct (is_Exception e).
Qed.

(** Closes a goal about the usage of a run of the retry loop that has
    waited for [waits]. *)
Ltac usage_with waits :=
  simpl; split; [lia|]; split; [done|];
  split; [exists waits; rewrite ?app_nil_r, <- ?app_assoc; auto|];
  by split.

Lemma embedding_with_retry_usage ext texts w :
  let w' := snd (retry_with_backoff time_sleep (Embedder_encode ext texts)
                   3 1%float w) in
  (model_calls w <= model_calls w' <= model_calls w + 3)%nat /\
  generate_calls w' = generate_calls w /\
  (exists waits, slept w' = slept w ++ waits /\
     (waits = [] \/ waits = [1%float] \/ waits = [1%float; 2%float])) /\
  entropy_draws w' = entropy_draws w /\
  clock_reads w' = clock_reads w.
Proof.
  unfold retry_with_backoff, Embedder_encode.
  destruct texts as [|t texts]; simpl; [usage_with (@nil float)|].
  destruct (model_encode ext (model_calls w) (t :: texts)) as [v|e1|];
    [usage_with (@nil float)| |usage_with (@nil float)].
  destruct (is_Exception e1); [|usage_with (@nil float)]. simpl.
  destruct (model_encode ext (S (model_calls w)) (t :: texts)) as [v|e2|];
    [usage_with [1%float]| |usage_with [1%float]].
  destruct (is_Exception e2); [|usage_with [1%float]]. simpl.
  destruct (model_encode ext (S (S (model_calls w))) (t :: texts))
    as [v|e3|];
    [usage_with [1%float; 2%float]| |usage_with [1%float; 2%float]].
  destruct (is_Exception e3); usage_with [1%float; 2%float].
Qed.

(** X8.  Whatever its outcome, one call of [process_pdf] runs the
    embedding model at most three times and the generation model never,
    waits at most 1 and then 2 seconds, draws one UUID and reads the
    clock at most once. *)
Theorem process_pdf_within_budget (ext : Externals)
    (md : string -> string) (fuel : nat) (self : PDFIngestor)
    (pdf_path filename : string) (w : World) :
  within_ingestion_budget w
    (snd (process_pdf ext md fuel self pdf_path filename w)).
Proof.
  assert (Hidle : within_ingestion_budget w (tick_entropy w)).
  { unfold within_ingestion_budget. simpl. repeat split; try lia.
    exists []. rewrite app_nil_r. auto. }
  unfold process_pdf, bind, new_doc_id, lift.
  destruct (extract_pdf_text ext pdf_path) as [[page_texts failed]|e|];
    [|done..].
  destruct page_texts as [|pt pts]; [done|].
  destruct (chunk_pages md fuel self (pt :: pts) [] 0) as [all_chunks|e|];
    [|done..].
  pose proof (embedding_with_retry_usage ext (map ce_text all_chunks)
                (tick_entropy w)) as Hretry.
  destruct (retry_with_backoff time_sleep _ 3 1%float (tick_entropy w))
    as [[embeddings|e|] w1]; simpl in Hretry;
    destruct Hretry as (Hm & Hg & Hs & He & Hc).
  2,3: by unfold within_ingestion_budget; simpl;
       rewrite Hg, He, Hc; repeat split; try lia.
  unfold now.
  match goal with
  | |- context [add_chunks ext ?i ?d ?e ?m ?w0] =>
      pose proof (add_chunks_usage ext i d e m w0) as Hadd;
      destruct (add_chunks ext i d e m w0) as [[[]|e'|] w2]
  end; simpl in Hadd |- *;
    destruct Hadd as (Hm' & Hg' & Hs' & He' & Hc');
    unfold within_ingestion_budget;
    rewrite Hm', Hg', Hs', He', Hc', Hg, He, Hc;
    repeat split; try done; lia.
Qed.

(** ** The query path: resources and errors *)

Lemma query_similar_usage ext v k w :
  let w' := snd (query_similar ext v k w) in
  collection w' = collection w /\ model_calls w' = model_calls w /\
  generate_calls w' = generate_calls w /\ slept w' = slept w /\
  entropy_draws w' = entropy_draws w /\ clock_reads w' = clock_reads w.
Proof.
  unfold query_similar, try_except, bind, ret, modify, raise.
  destruct (collection_query ext (collection w) v k) as [raw|e|]; [done| |done].
  by destruct (is_Exception e).
Qed.

Lemma generate_answer_usage ext prompt w :
  let w' := snd (generate_answer ext prompt w) in
  collection w' = collection w /\ model_calls w' = model_calls w /\
  generate_calls w' = S (generate_calls w) /\ slept w' = slept w /\
  entropy_draws w' = entropy_draws w /\ clock_reads w' = clock_reads w.
Proof.
  unfold generate_answer, try_except, bind, ret, raise.
  destruct (generate_content ext (generate_calls w) prompt) as [t|e|];
    [done| |done].
  destruct (is_Exception e); [|done]. simpl.
  by destruct (_ || _).
Qed.

(** Closes a budget goal from the equations in the context. *)
Ltac budget_from_context :=
  simpl in *; unfold within_query_budget; simpl;
  repeat split; try congruence; lia.

Lemma answer_query_usage ext query k w :
  within_query_budget w (snd (answer_query ext query k w)).
Proof.
  unfold answer_query, bind, Embedder_encode, lift.
  destruct (model_encode ext (model_calls w) [query]) as [vectors|e|];
    [|budget_from_context..].
  destruct (first_item vectors) as [v|e|]; [|budget_from_context..].
  pose proof (query_similar_usage ext v k (tick_model w)) as Hq.
  destruct (query_similar ext v k (tick_model w)) as [[results|e|] w1];
    simpl in Hq; destruct Hq as (Hc & Hm & Hg & Hs & He & Hk);
    [|budget_from_context..].
  destruct (res_ids results) as [|i ids]; [budget_from_context|].
  destruct (build_chunks results _ []) as [chunks|e|];
    [|budget_from_context..].
  pose proof (generate_answer_usage ext (PromptBuilder_build query chunks) w1)
    as Hgen.
  destruct (generate_answer ext _ w1) as [[a|e|] w2]; simpl in Hgen;
    destruct Hgen as (Hc' & Hm' & Hg' & Hs' & He' & Hk');
    budget_from_context.
Qed.

(** X9.  Whatever its outcome, a query never changes the collection; it
    runs the embedding model at most once and the generation model at
    most once (a failed generation is not retried), and it never waits.
    This holds for [answer_query] and for the route [_process_query]. *)
Theorem query_within_budget (ext : Externals) (query : string) (k : Z)
    (w : World) :
  within_query_budget w (snd (answer_query ext query k w)) /\
  within_query_budget w (snd (_process_query ext query w)).
Proof.
  split; [apply answer_query_usage|].
  assert (Hidle : within_query_budget w w) by budget_from_context.
  unfold _process_query, try_except, bind, count, collection_count.
  destruct (collection_count_check ext (collection w)) as [e|].
  { destruct (is_Exception e); [|done].
    destruct (is_RuntimeError e); [destruct (str_contains _ _)|]; done. }
  destruct (len (collection w) =? 0); [done|].
  pose proof (answer_query_usage ext query 5 w) as Hq.
  destruct (answer_query ext query 5 w) as [[a|e|] w1]; simpl in *;
    [|destruct (is_Exception e);
       [destruct (is_RuntimeError e); [destruct (str_contains _ _)|]|];
      done|done].
  unfold lift.
  destruct (validate_all (Citation_validate ext) (citations a)) as [cs|e|];
    [destruct (validate_all (RetrievedChunk_validate ext)
                 (retrieved_chunks a)) as [rs|e|]|..];
    try done.
  all: destruct (is_Exception e);
    [destruct (is_RuntimeError e); [destruct (str_contains _ _)|]|];
    done.
Qed.

(** X10.  Every catchable failure of the query route surfaces as an
    [HTTPException] with status 429 or 500: no other exception class
    derived from [Exception] leaves [_process_query]. *)
Theorem process_query_raises_http_only (ext : Externals) (query : string)
    (w w' : World) (e : Exc) :
  _process_query ext query w = (Raise e, w') ->
  is_Exception e = true ->
  exc_class e = HTTPException 429 \/ exc_class e = HTTPException 500.
Proof.
  unfold _process_query, try_except. intros Hrun Hexc.
  match type of Hrun with
  | context [match ?m w with _ => _ end] =>
      destruct (m w) as [[a|e0|] w1]
  end; [done| |done].
  destruct (is_Exception e0) eqn:He0; [|by injection Hrun as <- _; congruence].
  destruct (is_RuntimeError e0).
  - destruct (str_contains _ _); injection Hrun as <- _; auto.
  - injection Hrun as <- _; auto.
Qed.

(** The theorem for a generation model that is out of quota. *)
Lemma process_query_raises_http_only_witness :
  exc_class (mkExc (HTTPException 429)
               "Gemini API rate limit exceeded. Please try again later.")
  = HTTPException 429 \/
  exc_class (mkExc (HTTPException 429)
               "Gemini API rate limit exceeded. Please try again later.")
  = HTTPException 500.
Proof.
  apply (process_query_raises_http_only throttled_ext "What is a chunk?"
           stocked_world
           (snd (_process_query throttled_ext "What is a chunk?"
                   stocked_world))).
  - vm_compute. reflexivity.
  - reflexivity.
Defined.

Lemma str_lower_app a b :
  str_lower (a ++ b) = (str_lower a ++ str_lower b)%string.
Proof.
  induction a as [|c a IH]; [done|].
  change (String (lower_ascii c) (str_lower (a ++ b))
          = String (lower_ascii c) (str_lower a ++ str_lower b)%string).
  by rewrite IH.
Qed.

Lemma string_app_assoc (a b c : string) :
  ((a ++ b) ++ c = a ++ (b ++ c))%string.
Proof.
  induction a as [|x a IH]; [done|].
  change (String x ((a ++ b) ++ c) = String x (a ++ (b ++ c)))%string.
  by rewrite IH.
Qed.

Lemma str_contains_app_r needle a b :
  str_contains needle b = true -> str_contains needle (a ++ b) = true.
Proof.
  rewrite !str_contains_spec. intros (pre & post & ->).
  exists (a ++ pre)%string, post. by rewrite string_app_assoc.
Qed.

Lemma str_contains_app_l needle a b :
  str_contains needle a = true -> str_contains needle (a ++ b) = true.
Proof.
  rewrite !str_contains_spec. intros (pre & post & ->).
  exists pre, (post ++ b)%string. by rewrite !string_app_assoc.
Qed.

Lemma string_app_nil_r (a : string) : (a ++ "")%string = a.
Proof.
  induction a as [|x a IH]; [done|].
  change (String x (a ++ "")%string = String x a). by rewrite IH.
Qed.

Lemma str_contains_refl s : str_contains s s = true.
Proof.
  apply str_contains_spec. exists "", "". simpl.
  by rewrite string_app_nil_r.
Qed.

Lemma str_contains_trans a b c :
  str_contains a b = true -> str_contains b c = true ->
  str_contains a c = true.
Proof.
  rewrite !str_contains_spec.
  intros (pre & post & ->) (pre' & post' & ->).
  exists (pre' ++ pre)%string, (post ++ post')%string.
  by rewrite !string_app_assoc.
Qed.

(** The message of the [RuntimeError] that wraps another failure is taken
    for a rate limit only if the wrapped message mentions a rate. *)
Lemma wrapped_error_not_rate_limit msg :
  str_contains "rate" (str_lower msg) = false ->
  str_contains "rate limit" (str_lower ("Gemini API error: " ++ msg)) = false.
Proof.
  intros Hrate. rewrite str_lower_app.
  destruct (str_contains "rate limit" (str_lower msg)) eqn:Hlimit.
  { assert (str_contains "rate" (str_lower msg) = true); [|congruence].
    apply (str_contains_trans _ "rate limit"); [|done].
    by vm_compute. }
  change (str_lower "Gemini API error: ") with "gemini api error: ".
  unfold String.append. simpl. exact Hlimit.
Qed.

(** X11.  When the generation model fails on a query that retrieved
    chunks from a store the engine has counted, the route answers with
    status 429 and a fixed retry-later
    message if the failure's message mentions a quota or a rate (in any
    letter case), and with status 500 and the failure's message behind
    [Gemini API error: ] otherwise; the model is not called again. *)
Theorem process_query_generation_failure (ext : Externals) (query : string)
    (w : World) (v : list float) (vs : list (list float)) (raw : RawQuery)
    (cause : Exc) :
  let ids := first_or_empty (raw_ids raw) in
  let documents := first_or_empty (raw_documents raw) in
  let metadatas := first_or_empty (raw_metadatas raw) in
  let distances := first_or_empty (raw_distances raw) in
  let chunks := zip_chunks ids documents metadatas distances in
  collection w <> [] ->
  collection_count_check ext (collection w) = None ->
  model_encode ext (model_calls w) [query] = Return (v :: vs) ->
  collection_query ext (collection w) v 5 = Return raw ->
  (1 <= length ids)%nat ->
  length documents = length ids ->
  length metadatas = length ids ->
  length distances = length ids ->
  generate_content ext (generate_calls w) (PromptBuilder_build query chunks)
  = Raise cause ->
  is_Exception cause = true ->
  exists w',
    _process_query ext query w
    = (Raise (if mentions_rate_limit cause
              then mkExc (HTTPException 429)
                     "Gemini API rate limit exceeded. Please try again later."
              else mkExc (HTTPException 500)
                     ("Gemini API error: " ++ str_exc cause)), w') /\
    generate_calls w' = S (generate_calls w).
Proof.
  intros ids documents metadatas distances chunks
    Hstore Hcounted Hembed Hquery Hn Hd Hm Hx Hgen Hcause.
  assert (Hbuild :
    build_chunks (mkQueryResults ids documents metadatas distances)
      (seq 0 (length ids)) [] = Return chunks).
  { by rewrite (build_chunks_zip ids documents metadatas distances Hd Hm Hx
                  (length ids) 0 []). }
  assert (Hcount : (len (collection w) =? 0) = false).
  { apply Z.eqb_neq. unfold len. destruct (collection w); [done|].
    simpl. lia. }
  eexists. split.
  - unfold _process_query, try_except at 1, bind at 1, count,
      collection_count.
    rewrite Hcounted, Hcount.
    unfold bind at 1, answer_query, bind, Embedder_encode, lift, first_item,
      query_similar, try_except, bind, ret.
    rewrite Hembed. simpl model_calls. simpl collection.
    rewrite Hquery. fold ids documents metadatas distances.
    cbn [res_ids]. rewrite Hbuild, (match_nonempty ids) by done.
    unfold generate_answer, try_except, bind, ret.
    simpl generate_calls. rewrite Hgen, Hcause.
    fold (mentions_rate_limit cause).
    destruct (mentions_rate_limit cause) eqn:Hrate; unfold raise.
    + cbn [is_Exception exc_class is_RuntimeError].
      replace (str_contains "rate limit" _) with true by by vm_compute.
      reflexivity.
    + cbn [is_Exception exc_class is_RuntimeError str_exc exc_msg].
      rewrite wrapped_error_not_rate_limit; [reflexivity|].
      unfold mentions_rate_limit in Hrate.
      by apply orb_false_iff in Hrate as [_ ?].
  - done.
Qed.

(** The theorem for a model that is out of quota. *)
Lemma process_query_generation_failure_witness :
  exists w',
    _process_query throttled_ext "What is a chunk?" stocked_world
    = (Raise (mkExc (HTTPException 429)
                "Gemini API rate limit exceeded. Please try again later."),
       w') /\
    generate_calls w' = S (generate_calls stocked_world).
Proof.
  apply (process_query_generation_failure throttled_ext "What is a chunk?"
           stocked_world unit_vector [] stocked_raw
           (mkExc OtherException "429 Quota exceeded for model"));
    try reflexivity.
  - discriminate.
  - simpl. lia.
Defined.

Example rejected_request_is_status_500 :
  fst (_process_query rejecting_ext "What is a chunk?" stocked_world)
  = Raise (mkExc (HTTPException 500) "Gemini API error: 400 Invalid API key").
Proof. vm_compute. reflexivity. Qed.

(** A citation that pydantic refuses is a status 500 too, after both
    models have been used. *)
Example invalid_citation_is_status_500 :
  _process_query picky_ext "What is a chunk?" stocked_world
  = (Raise (mkExc (HTTPException 500)
              "Query failed: page_number: Input should be a valid integer"),
     tick_generate (tick_model stocked_world)).
Proof. vm_compute. reflexivity. Qed.

(** A count that the engine does not answer is a status 500 before any
    model is used. *)
Example failed_count_is_status_500 :
  _process_query uncounted_ext "What is a chunk?" stocked_world
  = (Raise (mkExc (HTTPException 500) "count failed"), stocked_world).
Proof. vm_compute. reflexivity. Qed.

(** ** PromptBuilder.build *)

Lemma str_join_contains sep (parts : list string) part :
  part ∈ parts -> str_contains part (str_join sep parts) = true.
Proof.
  induction parts as [|p parts IH]; [by intros ?%elem_of_nil|].
  intros Hin. apply elem_of_cons in Hin as [->|Hin].
  - destruct parts; simpl; [apply str_contains_refl|].
    apply str_contains_app_l, str_contains_refl.
  - destruct parts as [|q parts]; [by apply elem_of_nil in Hin|].
    change (str_join sep (p :: q :: parts))
      with (p ++ sep ++ str_join sep (q :: parts))%string.
    by apply str_contains_app_r, str_contains_app_r, IH.
Qed.

(** Finds a piece of a string built by appending. *)
Ltac find_piece :=
  repeat first
    [ apply str_contains_refl
    | apply str_contains_app_l, str_contains_refl
    | apply str_contains_app_r ].

(** X12.  The prompt contains the question as it was asked, the refusal
    sentence the model is told to use, and, for every retrieved chunk, its
    text behind a header that names its source, page and chunk index; a
    metadata key that is missing is printed as [unknown] or [N/A]. *)
Theorem prompt_contains_question_and_chunks (query : string)
    (chunks : list RetrievedChunk) :
  let prompt := PromptBuilder_build query chunks in
  str_contains query prompt = true /\
  str_contains "I don't know." prompt = true /\
  forall c, c ∈ chunks ->
    str_contains (rc_document c) prompt = true /\
    str_contains
      ("--- [source: "
       ++ match rc_metadata c !! "source_filename" with
          | Some v => str_val v
          | None => "unknown"
          end
       ++ " | page: "
       ++ match rc_metadata c !! "page_number" with
          | Some v => str_val v
          | None => "N/A"
          end
       ++ " | chunk: "
       ++ match rc_metadata c !! "chunk_index" with
          | Some v => str_val v
          | None => "N/A"
          end
       ++ "] ---")%string prompt = true.
Proof.
  intros prompt. unfold prompt, PromptBuilder_build, TEMPLATE_format.
  split; [find_piece|]. split; [find_piece|].
  intros c Hc.
  assert (Hpart : str_contains (context_part c)
            (str_join (nl ++ nl) (map context_part chunks)) = true).
  { apply str_join_contains. by apply list_elem_of_fmap_2. }
  split.
  - apply (str_contains_trans _ (context_part c)).
    + unfold context_part. find_piece.
    + do 5 apply str_contains_app_r.
      by apply str_contains_app_l.
  - apply (str_contains_trans _ (context_part c)).
    + unfold context_part, get_str.
      rewrite <- !string_app_assoc. apply str_contains_app_l.
      apply str_contains_app_l. rewrite !string_app_assoc.
      apply str_contains_refl.
    + do 5 apply str_contains_app_r.
      by apply str_contains_app_l.
Qed.

Example prompt_for_bare_chunk :
  str_contains "--- [source: unknown | page: N/A | chunk: N/A] ---"
    (PromptBuilder_build "What is a chunk?" [bare_chunk]) = true.
Proof. vm_compute. reflexivity. Qed.

(** ** ChromaClient: reading and deleting *)

Lemma val_eqb_eq a b : val_eqb a b = true <-> a = b.
Proof.
  destruct a as [s|x], b as [t|y]; simpl; try (split; congruence).
  - rewrite String.eqb_eq. split; congruence.
  - rewrite Z.eqb_eq. split; congruence.
Qed.

Lemma has_doc_id_spec doc_id rec :
  has_doc_id doc_id rec = true
  <-> rec_metadata rec !! "doc_id" = Some (VStr doc_id).
Proof.
  unfold has_doc_id. destruct (rec_metadata rec !! "doc_id") as [v|].
  - rewrite val_eqb_eq. split; congruence.
  - split; congruence.
Qed.

(** What [delete_document] does when the engine answers. *)
Lemma delete_document_run faults doc_id w :
  collection_get_check faults (collection w) = None ->
  (forall ids, collection_delete_check faults (collection w) ids = None) ->
  let found := List.filter (has_doc_id doc_id) (collection w) in
  delete_document faults doc_id w
  = (Return (len found),
     match found with
     | [] => w
     | _ =>
         add_log (mkLog INFO
           ("Deleted " ++ str_int (len found) ++ " chunks for doc_id: "
            ++ doc_id))
           (set_collection
              (List.filter
                 (fun rec => negb (id_in (map rec_id found) (rec_id rec)))
                 (collection w)) w)
     end).
Proof.
  intros Hget Hdel found.
  unfold delete_document, try_except, bind, collection_get. rewrite Hget.
  simpl. fold found. destruct found as [|r rs] eqn:Hfound.
  - done.
  - simpl. unfold collection_delete. rewrite Hdel. simpl.
    assert (Hlen : len (rec_id r :: map rec_id rs) = len (r :: rs))
      by (unfold len; simpl; by rewrite length_map).
    by rewrite Hlen.
Qed.

(** The collection after [delete_document], when the engine answers. *)
Lemma delete_document_collection faults doc_id w :
  collection_get_check faults (collection w) = None ->
  (forall ids, collection_delete_check faults (collection w) ids = None) ->
  collection (snd (delete_document faults doc_id w))
  = List.filter
      (fun rec =>
         negb (id_in (map rec_id
                        (List.filter (has_doc_id doc_id) (collection w)))
                 (rec_id rec)))
      (collection w).
Proof.
  intros Hget Hdel. rewrite (delete_document_run faults doc_id w Hget Hdel).
  destruct (List.filter (has_doc_id doc_id) (collection w)) as [|r rs] eqn:Hf;
    [|done].
  simpl. symmetry. apply forallb_filter_id, forallb_forall. done.
Qed.

(** With unique identifiers, deleting the identifiers of a document's
    records is deleting the document's records. *)
Lemma filter_by_ids_unique doc_id (l : list StoredRecord) :
  List.NoDup (map rec_id l) ->
  List.filter
    (fun rec =>
       negb (id_in (map rec_id (List.filter (has_doc_id doc_id) l))
               (rec_id rec))) l
  = List.filter (fun rec => negb (has_doc_id doc_id rec)) l.
Proof.
  intros Hnodup. apply List.filter_ext_in. intros rec Hrec. f_equal.
  apply eq_true_iff_eq. rewrite id_in_spec, in_map_iff. split.
  - intros (rec' & Hid & Hin). apply filter_In in Hin as [Hin Hdoc].
    assert (rec' = rec) as <-; [|done].
    apply (In_nth _ _ rec) in Hin as (i & Hi & Hnth_i).
    apply (In_nth _ _ rec) in Hrec as (j & Hj & Hnth_j).
    assert (i = j) as ->.
    { rewrite (List.NoDup_nth (map rec_id l) (rec_id rec)) in Hnodup.
      apply Hnodup; rewrite ?List.length_map; try done.
      by rewrite !(map_nth rec_id), Hnth_i, Hnth_j. }
    congruence.
  - intros Hdoc. exists rec. split; [done|]. apply filter_In. done.
Qed.

(** X13. [ChromaClient.delete_document], when the engine answers, returns
    the number of stored records whose metadata carries the document
    identifier, leaves no such record behind and only ever removes records;
    when the stored identifiers are unique, exactly the records of other
    documents remain, in their order. *)
Theorem delete_document_removes_document faults doc_id w :
  collection_get_check faults (collection w) = None ->
  (forall ids, collection_delete_check faults (collection w) ids = None) ->
  exists w',
    delete_document faults doc_id w
    = (Return (len (List.filter (has_doc_id doc_id) (collection w))), w') /\
    (forall rec, In rec (collection w') -> has_doc_id doc_id rec = false) /\
    (forall rec, In rec (collection w') -> In rec (collection w)) /\
    (List.NoDup (map rec_id (collection w)) ->
     collection w'
     = List.filter (fun rec => negb (has_doc_id doc_id rec)) (collection w)).
Proof.
  intros Hget Hdel. eexists. split; [by apply delete_document_run|].
  destruct (List.filter (has_doc_id doc_id) (collection w))
    as [|r rs] eqn:Hfound.
  - assert (Hnone : forall rec, In rec (collection w) ->
              has_doc_id doc_id rec = false).
    { intros rec Hin. destruct (has_doc_id doc_id rec) eqn:Hdoc; [|done].
      assert (Hin' : In rec (List.filter (has_doc_id doc_id) (collection w)))
        by (apply filter_In; done).
      rewrite Hfound in Hin'. destruct Hin'. }
    split; [exact Hnone|]. split; [done|]. intros _.
    symmetry. apply forallb_filter_id, forallb_forall.
    intros rec Hin. by rewrite Hnone.
  - rewrite <- Hfound. simpl. split; [|split].
    + intros rec Hin. apply filter_In in Hin as [Hin Hkeep].
      destruct (has_doc_id doc_id rec) eqn:Hdoc; [|done].
      apply negb_true_iff in Hkeep.
      assert (Hid : id_in
                (map rec_id (List.filter (has_doc_id doc_id) (collection w)))
                (rec_id rec) = true).
      { apply id_in_spec, in_map, filter_In. done. }
      congruence.
    + intros rec Hin. by apply filter_In in Hin as [Hin _].
    + apply filter_by_ids_unique.
Qed.

Lemma delete_document_removes_document_witness :
  exists w',
    delete_document sound_engine "doc1" mixed_world = (Return 2, w') /\
    collection w' = [other_record].
Proof.
  destruct (delete_document_removes_document sound_engine "doc1" mixed_world)
    as (w' & Hrun & _ & _ & Hrest); [done|done|].
  exists w'. split; [exact Hrun|]. rewrite Hrest; [done|].
  vm_compute. repeat constructor; simpl; intuition discriminate.
Defined.

(** X14. Deleting a document none of whose records is stored asks the engine
    for nothing but the lookup: [ChromaClient.delete_document] returns 0 and
    leaves the store and the log exactly as they were, whatever the engine
    would have said to a deletion. *)
Theorem delete_document_unknown_is_noop faults doc_id w :
  collection_get_check faults (collection w) = None ->
  (forall rec, In rec (collection w) -> has_doc_id doc_id rec = false) ->
  delete_document faults doc_id w = (Return 0, w).
Proof.
  intros Hget Hnone.
  unfold delete_document, try_except, bind, collection_get. rewrite Hget.
  assert (Hfound : List.filter (has_doc_id doc_id) (collection w) = []).
  { destruct (List.filter (has_doc_id doc_id) (collection w))
      as [|r rs] eqn:Hfound; [done|].
    assert (Hin : In r (List.filter (has_doc_id doc_id) (collection w)))
      by (rewrite Hfound; by left).
    apply filter_In in Hin as [Hin Hdoc]. rewrite Hnone in Hdoc; done. }
  simpl. rewrite Hfound. done.
Qed.

Lemma delete_document_unknown_is_noop_witness :
  delete_document
    (mkEngineFaults (fun _ => None)
       (fun _ _ => Some (mkExc RuntimeError "read-only store")))
    "doc3" mixed_world
  = (Return 0, mixed_world).
Proof.
  apply delete_document_unknown_is_noop; [done|].
  intros rec Hin. simpl in Hin.
  destruct Hin as [<-|[<-|[<-|[]]]]; reflexivity.
Defined.

(** ** The document routes *)

Lemma filter_nil_iff {B} (f : B -> bool) (l : list B) :
  List.filter f l = [] <-> forall x, In x l -> f x = false.
Proof.
  split.
  - intros Hnil x Hin. destruct (f x) eqn:Hf; [|done].
    assert (Hin' : In x (List.filter f l)) by (apply filter_In; done).
    rewrite Hnil in Hin'. destruct Hin'.
  - intros Hnone. destruct (List.filter f l) as [|x xs] eqn:Hfound; [done|].
    assert (Hin : In x (List.filter f l)) by (rewrite Hfound; by left).
    apply filter_In in Hin as [Hin Hf]. rewrite Hnone in Hf; done.
Qed.

Lemma get_documents_by_doc_id_run faults doc_id w :
  collection_get_check faults (collection w) = None ->
  get_documents_by_doc_id faults doc_id w
  = (Return (result_of (List.filter (has_doc_id doc_id) (collection w))), w).
Proof.
  intros Hget. unfold get_documents_by_doc_id, try_except, collection_get.
  by rewrite Hget.
Qed.

(** What [GET /documents/{doc_id}] does when the engine answers. *)
Lemma get_document_run faults validate doc_id w :
  collection_get_check faults (collection w) = None ->
  let found := List.filter (has_doc_id doc_id) (collection w) in
  App.get_document faults validate doc_id w
  = match found with
    | [] =>
        (Raise (mkExc (HTTPException 404)
                  ("Document " ++ doc_id ++ " not found")), w)
    | _ =>
        let '(pages, source_filename, ingested_at) :=
          aggregate_metadata (map rec_metadata found) []
            (VStr "unknown") (VStr "") in
        match validate (VStr doc_id) source_filename (len pages)
                (len found) ingested_at with
        | inl info => (Return info, w)
        | inr msg =>
            (Raise (mkExc (HTTPException 500)
                      ("Failed to get document: " ++ msg)), w)
        end
    end.
Proof.
  intros Hget found.
  unfold App.get_document, try_except, bind.
  rewrite get_documents_by_doc_id_run by done. fold found.
  destruct found as [|r rs]; [done|].
  cbn [result_of get_metadatas].
  assert (Hlen : len (map rec_metadata (r :: rs)) = len (r :: rs))
    by (unfold len; by rewrite length_map).
  rewrite Hlen.
  destruct (map rec_metadata (r :: rs)) as [|m ms] eqn:Hms; [done|].
  destruct (aggregate_metadata (m :: ms) [] (VStr "unknown") (VStr ""))
    as [[pages source_filename] ingested_at].
  unfold lift, App.DocumentInfo_new.
  destruct (validate _ _ _ _ _); done.
Qed.

(** What [DELETE /documents/{doc_id}] does when the engine answers. *)
Lemma delete_route_run faults doc_id w :
  collection_get_check faults (collection w) = None ->
  (forall ids, collection_delete_check faults (collection w) ids = None) ->
  let found := List.filter (has_doc_id doc_id) (collection w) in
  App.delete_document faults doc_id w
  = match found with
    | [] =>
        (Raise (mkExc (HTTPException 404)
                  ("Document " ++ doc_id ++ " not found")), w)
    | _ =>
        (Return (mkDeleteResponse "success" (len found) doc_id
                   ("Successfully deleted document and "
                    ++ str_int (len found) ++ " chunk(s)")),
         snd (delete_document faults doc_id w))
    end.
Proof.
  intros Hget Hdel found.
  unfold App.delete_document, try_except, bind.
  rewrite get_documents_by_doc_id_run by done. fold found.
  destruct found as [|r rs] eqn:Hfound; [done|].
  cbn [result_of get_metadatas map].
  rewrite (delete_document_run faults doc_id w Hget Hdel).
  fold found. rewrite Hfound. done.
Qed.

(** X15. When the engine answers, [GET /documents/{doc_id}] raises the
    HTTP error 404 with the text "Document <doc_id> not found" exactly when
    no stored record carries the identifier in its metadata; it never
    changes the store or the log. *)
Theorem get_document_not_found_iff faults validate doc_id w :
  collection_get_check faults (collection w) = None ->
  snd (App.get_document faults validate doc_id w) = w /\
  (fst (App.get_document faults validate doc_id w)
   = Raise (mkExc (HTTPException 404) ("Document " ++ doc_id ++ " not found"))
   <-> forall rec, In rec (collection w) -> has_doc_id doc_id rec = false).
Proof.
  intros Hget. rewrite (get_document_run faults validate doc_id w Hget).
  rewrite <- filter_nil_iff.
  destruct (List.filter (has_doc_id doc_id) (collection w)) as [|r rs];
    [done|].
  destruct (aggregate_metadata _ _ _ _) as [[pages source_filename] ingested_at].
  destruct (validate _ _ _ _ _); simpl; split; try done; split; done.
Qed.

Lemma get_document_not_found_iff_witness :
  fst (App.get_document sound_engine strict_validate "doc3" mixed_world)
  = Raise (mkExc (HTTPException 404) "Document doc3 not found") /\
  fst (App.get_document sound_engine strict_validate "doc2" mixed_world)
  = Return (mkDocumentInfo "doc2" "unknown" 1 1 "").
Proof.
  split; [|reflexivity].
  apply (get_document_not_found_iff sound_engine strict_validate "doc3"
           mixed_world); [done|].
  intros rec Hin. simpl in Hin.
  destruct Hin as [<-|[<-|[<-|[]]]]; reflexivity.
Defined.

(** *** A document after its ingestion *)

Lemma zip_records_metadata ids documents embeddings metadatas :
  same_length ids documents embeddings metadatas ->
  map rec_metadata (zip_records ids documents embeddings metadatas)
  = metadatas.
Proof.
  unfold same_length. revert documents embeddings metadatas.
  induction ids as [|i ids IH]; intros [|d ds] [|e es] [|m ms] (H1 & H2 & H3);
    simplify_eq/=; [done|].
  f_equal. apply IH. by repeat split.
Qed.

Lemma ingested_carry_doc_id doc_id filename ingested_at entries embeddings :
  length embeddings = length entries ->
  List.filter (has_doc_id doc_id)
    (zip_records (map (chunk_id doc_id) entries) (map ce_text entries)
       embeddings (map (chunk_metadata doc_id filename ingested_at) entries))
  = zip_records (map (chunk_id doc_id) entries) (map ce_text entries)
      embeddings (map (chunk_metadata doc_id filename ingested_at) entries).
Proof.
  intros Hlen. apply forallb_filter_id, forallb_forall. intros rec Hin.
  apply has_doc_id_spec.
  assert (Hm : In (rec_metadata rec)
            (map (chunk_metadata doc_id filename ingested_at) entries)).
  { rewrite <- (zip_records_metadata (map (chunk_id doc_id) entries)
                 (map ce_text entries) embeddings)
      by by apply ingested_same_length.
    by apply in_map. }
  apply in_map_iff in Hm as (c & <- & _). done.
Qed.

(** What a successful run of [process_pdf] has stored in a collection that
    held no chunk identifier of the document. *)
Lemma process_pdf_stores ext md fuel self pdf_path filename w r w1 :
  process_pdf ext md fuel self pdf_path filename w = (Return r, w1) ->
  holds_no_chunk_of (ir_doc_id r) (collection w) ->
  exists entries embeddings ingested_at,
    length embeddings = length entries /\
    ir_chunks r = len entries /\
    collection w1
    = collection w
      ++ zip_records (map (chunk_id (ir_doc_id r)) entries)
           (map ce_text entries) embeddings
           (map (chunk_metadata (ir_doc_id r) filename ingested_at) entries).
Proof.
  intros Hrun Hfresh.
  apply process_pdf_success_inv in Hrun
    as (page_texts & failed_pages & flat & embeddings & ingested_at
        & _ & _ & _ & Hlen & -> & Hcoll).
  simpl ir_doc_id in Hfresh.
  rewrite ingested_not_held in Hcoll;
    [|by rewrite number_chunks_length|done].
  exists (number_chunks 0 flat), embeddings, ingested_at. simpl.
  rewrite number_chunks_length. split; [done|]. split; [|done].
  unfold len. by rewrite number_chunks_length.
Qed.

(** The records of a freshly ingested document among all stored ones. *)
Lemma found_after_ingest doc_id (old added : list StoredRecord) :
  (forall rec, In rec old -> has_doc_id doc_id rec = false) ->
  List.filter (has_doc_id doc_id) added = added ->
  List.filter (has_doc_id doc_id) (old ++ added) = added.
Proof.
  intros Hold Hadded. rewrite List.filter_app, Hadded.
  apply filter_nil_iff in Hold. by rewrite Hold.
Qed.

Lemma set_add_length x s :
  (length s <= length (set_add x s) <= length s + 1)%nat /\
  (1 <= length (set_add x s))%nat.
Proof.
  unfold set_add. destruct (existsb (page_eqb x) s) eqn:Hin.
  - split; [lia|]. destruct s; [done|simpl; lia].
  - rewrite length_app. simpl. lia.
Qed.

Lemma aggregate_metadata_pages metadatas pages source_filename ingested_at :
  let '(pages', _, _) :=
    aggregate_metadata metadatas pages source_filename ingested_at in
  (length pages <= length pages' <= length pages + length metadatas)%nat /\
  (metadatas <> [] -> 1 <= length pages')%nat.
Proof.
  revert pages source_filename ingested_at.
  induction metadatas as [|m ms IH]; intros pages sf ia; simpl.
  - split; [lia|done].
  - specialize (IH (set_add (m !! "page_number") pages)
                  (dict_get m "source_filename" sf)
                  (dict_get m "ingested_at" ia)).
    destruct (aggregate_metadata ms _ _ _) as [[pages' sf'] ia'].
    destruct IH as [Hle _].
    pose proof (set_add_length (m !! "page_number") pages) as [Hadd Hone].
    split; [lia|]. intros _. lia.
Qed.

(** The loop keeps the last [source_filename] it has seen. *)
Lemma aggregate_metadata_source metadatas pages source_filename ingested_at v :
  (forall m, In m metadatas -> m !! "source_filename" = Some v) ->
  let '(_, source_filename', _) :=
    aggregate_metadata metadatas pages source_filename ingested_at in
  source_filename' = match metadatas with [] => source_filename | _ => v end.
Proof.
  revert pages source_filename ingested_at.
  induction metadatas as [|m ms IH]; intros pages sf ia Hall; simpl; [done|].
  assert (Hm : dict_get m "source_filename" sf = v).
  { unfold dict_get. rewrite (Hall m); [done|by left]. }
  rewrite Hm.
  specialize (IH (set_add (m !! "page_number") pages) v
                (dict_get m "ingested_at" ia)
                (fun m' Hin => Hall m' (or_intror Hin))).
  destruct (aggregate_metadata ms _ _ _) as [[pages' sf'] ia'].
  by destruct ms.
Qed.

Lemma aggregate_metadata_ingested metadatas pages source_filename ingested_at v :
  (forall m, In m metadatas -> m !! "ingested_at" = Some v) ->
  let '(_, _, ingested_at') :=
    aggregate_metadata metadatas pages source_filename ingested_at in
  ingested_at' = match metadatas with [] => ingested_at | _ => v end.
Proof.
  revert pages source_filename ingested_at.
  induction metadatas as [|m ms IH]; intros pages sf ia Hall; simpl; [done|].
  assert (Hm : dict_get m "ingested_at" ia = v).
  { unfold dict_get. rewrite (Hall m); [done|by left]. }
  rewrite Hm.
  specialize (IH (set_add (m !! "page_number") pages)
                (dict_get m "source_filename" sf) v
                (fun m' Hin => Hall m' (or_intror Hin))).
  destruct (aggregate_metadata ms _ _ _) as [[pages' sf'] ia'].
  by destruct ms.
Qed.

(** X16. A document can be looked up after its ingestion exactly when the
    ingestion stored a chunk.  After [process_pdf] has returned for a
    document whose identifier no stored record carried before, in its
    metadata or in its own identifier,
    [GET /documents/{doc_id}] for the returned identifier raises 404 if the
    ingestion reported zero chunks; otherwise it returns the identifier, the
    file name given to the ingestion, the reported number of chunks and a
    page count between one and that number. *)
Theorem get_document_after_ingest ext md fuel self pdf_path filename
    faults validate w r w1 :
  process_pdf ext md fuel self pdf_path filename w = (Return r, w1) ->
  (forall rec, In rec (collection w) -> has_doc_id (ir_doc_id r) rec = false) ->
  holds_no_chunk_of (ir_doc_id r) (collection w) ->
  collection_get_check faults (collection w1) = None ->
  accepts_strings validate ->
  if ir_chunks r =? 0 then
    App.get_document faults validate (ir_doc_id r) w1
    = (Raise (mkExc (HTTPException 404)
                ("Document " ++ ir_doc_id r ++ " not found")), w1)
  else
    exists info,
      App.get_document faults validate (ir_doc_id r) w1 = (Return info, w1) /\
      di_doc_id info = ir_doc_id r /\
      di_source_filename info = filename /\
      di_chunks info = ir_chunks r /\
      1 <= di_pages info <= ir_chunks r.
Proof.
  intros Hrun Hfresh Hids Hget Hvalid.
  apply process_pdf_stores in Hrun
    as (entries & embeddings & ingested_at & Hlen & Hchunks & Hcoll);
    [|done].
  rewrite (get_document_run faults validate _ w1 Hget), Hcoll.
  rewrite (found_after_ingest _ _ _ Hfresh
             (ingested_carry_doc_id _ filename ingested_at _ _ Hlen)).
  pose proof (ingested_same_length (ir_doc_id r) filename ingested_at
                entries embeddings Hlen) as Hsame.
  rewrite (zip_records_metadata _ _ _ _ Hsame).
  assert (Hadded : length (zip_records (map (chunk_id (ir_doc_id r)) entries)
                     (map ce_text entries) embeddings
                     (map (chunk_metadata (ir_doc_id r) filename ingested_at)
                        entries)) = length entries)
    by (rewrite zip_records_length by done; by rewrite length_map).
  rewrite Hchunks. unfold len.
  destruct entries as [|c cs]; [done|].
  destruct embeddings as [|e es]; [done|].
  replace (Z.of_nat (length (c :: cs)) =? 0) with false
    by (symmetry; apply Z.eqb_neq; simpl; lia).
  cbn [zip_records map].
  pose proof (aggregate_metadata_pages
                (map (chunk_metadata (ir_doc_id r) filename ingested_at)
                   (c :: cs)) [] (VStr "unknown") (VStr "")) as Hpages.
  pose proof (aggregate_metadata_source
                (map (chunk_metadata (ir_doc_id r) filename ingested_at)
                   (c :: cs)) [] (VStr "unknown") (VStr "") (VStr filename))
    as Hsource.
  pose proof (aggregate_metadata_ingested
                (map (chunk_metadata (ir_doc_id r) filename ingested_at)
                   (c :: cs)) [] (VStr "unknown") (VStr "") (VStr ingested_at))
    as Hingested.
  cbn [map] in Hpages, Hsource, Hingested.
  destruct (aggregate_metadata _ _ _ _) as [[pages source_filename] ia].
  rewrite Hsource, Hingested.
  2,3: intros m Hin; change (In m (map (chunk_metadata (ir_doc_id r) filename
         ingested_at) (c :: cs))) in Hin;
       apply in_map_iff in Hin as (c' & <- & _); done.
  rewrite Hvalid. eexists. split; [reflexivity|]. simpl.
  destruct Hpages as [[_ Hle] Hone]. specialize (Hone ltac:(done)).
  simpl in Hle, Hadded. rewrite length_map in Hle.
  repeat split; try done; unfold len; simpl; lia.
Qed.

Lemma get_document_after_ingest_witness :
  exists info,
    App.get_document sound_engine strict_validate (ir_doc_id demo_result)
      (snd demo_run)
    = (Return info, snd demo_run) /\
    di_source_filename info = "paper.pdf" /\ di_chunks info = 2.
Proof.
  pose proof (get_document_after_ingest (demo_ext three_pages) id 2
                demo_ingestor "paper.pdf" "paper.pdf" sound_engine
                strict_validate empty_world demo_result (snd demo_run))
    as Hget.
  simpl (ir_chunks demo_result =? 0) in Hget. cbv iota in Hget.
  destruct Hget as (info & Hrun & _ & Hname & Hchunks & _).
  - vm_compute. reflexivity.
  - intros rec [].
  - intros rec i [].
  - done.
  - intros d s p c t. reflexivity.
  - exists info. done.
Defined.

(** X17. Deleting a freshly ingested document undoes its ingestion.  After
    [process_pdf] has returned with at least one chunk, for a document whose
    identifier no stored record carried before, in its metadata or in its
    own identifier, and with the identifiers in the store unique, [DELETE /documents/{doc_id}] for the returned
    identifier reports as many deleted chunks as the ingestion reported
    stored ones and leaves the collection exactly as it was before the
    ingestion. *)
Theorem ingest_then_delete_restores_store ext md fuel self pdf_path filename
    faults w r w1 :
  process_pdf ext md fuel self pdf_path filename w = (Return r, w1) ->
  0 < ir_chunks r ->
  (forall rec, In rec (collection w) -> has_doc_id (ir_doc_id r) rec = false) ->
  holds_no_chunk_of (ir_doc_id r) (collection w) ->
  List.NoDup (map rec_id (collection w1)) ->
  collection_get_check faults (collection w1) = None ->
  (forall ids, collection_delete_check faults (collection w1) ids = None) ->
  exists resp w2,
    App.delete_document faults (ir_doc_id r) w1 = (Return resp, w2) /\
    del_deleted_chunks resp = ir_chunks r /\
    del_doc_id resp = ir_doc_id r /\
    collection w2 = collection w.
Proof.
  intros Hrun Hpos Hfresh Hids Hnodup Hget Hdel.
  apply process_pdf_stores in Hrun
    as (entries & embeddings & ingested_at & Hlen & Hchunks & Hcoll);
    [|done].
  pose proof (ingested_carry_doc_id (ir_doc_id r) filename ingested_at
                entries embeddings Hlen) as Hcarry.
  assert (Hadded : length (zip_records (map (chunk_id (ir_doc_id r)) entries)
                     (map ce_text entries) embeddings
                     (map (chunk_metadata (ir_doc_id r) filename ingested_at)
                        entries)) = length entries).
  { rewrite zip_records_length by by apply ingested_same_length.
    by rewrite length_map. }
  remember (zip_records (map (chunk_id (ir_doc_id r)) entries)
              (map ce_text entries) embeddings
              (map (chunk_metadata (ir_doc_id r) filename ingested_at)
                 entries)) as added eqn:Hadd.
  clear Hadd.
  assert (Hfound : List.filter (has_doc_id (ir_doc_id r)) (collection w1)
                   = added).
  { rewrite Hcoll. by apply found_after_ingest. }
  assert (Hcount : len added = ir_chunks r).
  { rewrite Hchunks. unfold len. by rewrite Hadded. }
  exists (mkDeleteResponse "success" (len added) (ir_doc_id r)
            ("Successfully deleted document and " ++ str_int (len added)
             ++ " chunk(s)")),
         (snd (delete_document faults (ir_doc_id r) w1)).
  split; [|split; [done|split; [done|]]].
  - rewrite (delete_route_run faults _ w1 Hget Hdel), Hfound.
    destruct added; [|done]. unfold len in Hcount. simpl in Hcount. lia.
  - rewrite (delete_document_collection faults _ w1 Hget Hdel).
    rewrite filter_by_ids_unique by done.
    rewrite Hcoll, List.filter_app.
    assert (Hold : List.filter
                     (fun rec => negb (has_doc_id (ir_doc_id r) rec))
                     (collection w) = collection w).
    { apply forallb_filter_id, forallb_forall. intros rec Hin.
      by rewrite Hfresh. }
    assert (Hnew : List.filter
                     (fun rec => negb (has_doc_id (ir_doc_id r) rec))
                     added = []).
    { apply filter_nil_iff. intros rec Hin. apply negb_false_iff.
      rewrite <- Hcarry in Hin. by apply filter_In in Hin as [_ ?]. }
    rewrite Hold, Hnew. apply app_nil_r.
Qed.

Lemma ingest_then_delete_restores_store_witness :
  exists resp w2,
    App.delete_document sound_engine (ir_doc_id demo_result) (snd demo_run)
    = (Return resp, w2) /\
    del_deleted_chunks resp = 2 /\ collection w2 = [].
Proof.
  destruct (ingest_then_delete_restores_store (demo_ext three_pages) id 2
              demo_ingestor "paper.pdf" "paper.pdf" sound_engine
              empty_world demo_result (snd demo_run))
    as (resp & w2 & Hrun & Hcount & _ & Hcoll).
  - vm_compute. reflexivity.
  - reflexivity.
  - intros rec [].
  - intros rec i [].
  - vm_compute. repeat constructor; simpl; intuition discriminate.
  - done.
  - done.
  - exists resp, w2. done.
Defined.

(** *** After a deletion *)

Lemma delete_route_Return_inv faults doc_id w resp w' :
  App.delete_document faults doc_id w = (Return resp, w') ->
  exists count,
    delete_document faults doc_id w = (Return count, w') /\
    List.filter (has_doc_id doc_id) (collection w) <> [] /\
    resp = mkDeleteResponse "success" count doc_id
             ("Successfully deleted document and " ++ str_int count
              ++ " chunk(s)").
Proof.
  intros Hrun. unfold App.delete_document in Hrun.
  apply try_except_Return_inv in Hrun
    as [Hrun|(e & w1 & _ & _ & Hh)].
  2:{ unfold App.except_http, raise in Hh. by destruct (exc_class e). }
  apply bind_Return_inv in Hrun as (results & w1 & Hget & Hrun).
  unfold get_documents_by_doc_id in Hget.
  apply try_except_Return_inv in Hget
    as [Hget|(e & w2 & _ & _ & Hh)].
  2:{ unfold bind, modify, raise in Hh. done. }
  unfold collection_get in Hget.
  destruct (collection_get_check faults (collection w)); [done|].
  injection Hget as <- <-. simpl in Hrun.
  destruct (List.filter (has_doc_id doc_id) (collection w)) as [|r rs];
    [done|].
  simpl in Hrun.
  apply bind_Return_inv in Hrun as (count & w2 & Hdel & Hret).
  unfold ret in Hret. injection Hret as <- <-.
  exists count. done.
Qed.

Lemma delete_document_Return_inv faults doc_id w count w' :
  delete_document faults doc_id w = (Return count, w') ->
  collection_get_check faults (collection w) = None /\
  let found := List.filter (has_doc_id doc_id) (collection w) in
  count = len found /\
  collection w'
  = match found with
    | [] => collection w
    | _ =>
        List.filter
          (fun rec => negb (id_in (map rec_id found) (rec_id rec)))
          (collection w)
    end.
Proof.
  intros Hrun. unfold delete_document in Hrun.
  apply try_except_Return_inv in Hrun
    as [Hrun|(e & w1 & _ & _ & Hh)].
  2:{ unfold bind, modify, raise in Hh. done. }
  apply bind_Return_inv in Hrun as (results & w1 & Hget & Hrun).
  unfold collection_get in Hget.
  destruct (collection_get_check faults (collection w)); [done|].
  injection Hget as <- <-. split; [done|].
  apply bind_Return_inv in Hrun as ([] & w2 & Hdel & Hret).
  unfold ret in Hret. injection Hret as <- <-.
  cbn [result_of get_ids] in *.
  assert (Hlen : forall l : list StoredRecord, len (map rec_id l) = len l)
    by (intros l; unfold len; by rewrite length_map).
  rewrite Hlen. split; [done|].
  destruct (List.filter (has_doc_id doc_id) (collection w)) as [|r rs].
  - unfold ret in Hdel. by injection Hdel as <-.
  - cbn [map] in Hdel.
    apply bind_Return_inv in Hdel as ([] & w3 & Hdel & Hlog).
    unfold modify in Hlog. injection Hlog as <-.
    unfold collection_delete in Hdel.
    destruct (collection_delete_check _ _ _); [done|].
    by injection Hdel as <-.
Qed.

(** X18. A deleted document is gone.  Once [DELETE /documents/{doc_id}] has
    returned, it has removed at least one chunk, no stored record carries
    the identifier any more, and (when the engine answers) both
    [GET /documents/{doc_id}] and a second [DELETE /documents/{doc_id}]
    raise 404 without changing anything. *)
Theorem deleted_document_is_gone faults validate doc_id w resp w' :
  App.delete_document faults doc_id w = (Return resp, w') ->
  1 <= del_deleted_chunks resp /\
  (forall rec, In rec (collection w') -> has_doc_id doc_id rec = false) /\
  (collection_get_check faults (collection w') = None ->
   App.get_document faults validate doc_id w'
   = (Raise (mkExc (HTTPException 404)
               ("Document " ++ doc_id ++ " not found")), w') /\
   App.delete_document faults doc_id w'
   = (Raise (mkExc (HTTPException 404)
               ("Document " ++ doc_id ++ " not found")), w')).
Proof.
  intros Hrun.
  apply delete_route_Return_inv in Hrun as (count & Hdel & Hfound & ->).
  apply delete_document_Return_inv in Hdel as (_ & -> & Hcoll).
  assert (Hgone : forall rec, In rec (collection w') ->
            has_doc_id doc_id rec = false).
  { intros rec Hin. rewrite Hcoll in Hin.
    destruct (List.filter (has_doc_id doc_id) (collection w))
      as [|r rs] eqn:Hf; [done|]. rewrite <- Hf in Hin.
    apply filter_In in Hin as [Hin Hkeep].
    destruct (has_doc_id doc_id rec) eqn:Hdoc; [|done].
    apply negb_true_iff in Hkeep.
    assert (Hid : id_in
              (map rec_id (List.filter (has_doc_id doc_id) (collection w)))
              (rec_id rec) = true).
    { apply id_in_spec, in_map, filter_In. done. }
    congruence. }
  split; [|split; [exact Hgone|]].
  - simpl. destruct (List.filter (has_doc_id doc_id) (collection w));
      [done|]. unfold len. simpl. lia.
  - intros Hget. apply filter_nil_iff in Hgone. split.
    + rewrite (get_document_run faults validate doc_id w' Hget).
      by rewrite Hgone.
    + unfold App.delete_document, try_except, bind.
      rewrite get_documents_by_doc_id_run by done. by rewrite Hgone.
Qed.

Lemma deleted_document_is_gone_witness :
  App.get_document sound_engine strict_validate "doc1"
    (snd (App.delete_document sound_engine "doc1" mixed_world))
  = (Raise (mkExc (HTTPException 404) "Document doc1 not found"),
     snd (App.delete_document sound_engine "doc1" mixed_world)).
Proof.
  destruct (deleted_document_is_gone sound_engine strict_validate "doc1"
              mixed_world
              (mkDeleteResponse "success" 2 "doc1"
                 "Successfully deleted document and 2 chunk(s)")
              (snd (App.delete_document sound_engine "doc1" mixed_world)))
    as (_ & _ & Hgone).
  - vm_compute. reflexivity.
  - apply Hgone. done.
Defined.

(** *** The listing *)

Lemma val_eqb_refl v : val_eqb v v = true.
Proof. by apply val_eqb_eq. Qed.

Lemma val_eqb_neq a b : val_eqb a b = false <-> a <> b.
Proof.
  rewrite <- val_eqb_eq. destruct (val_eqb a b); split; congruence.
Qed.

Lemma dm_get_doc_map_add key doc_id metadata doc_map :
  dm_get key (doc_map_add doc_id metadata doc_map)
  = if val_eqb doc_id key then
      Some (count_chunk metadata
              (match dm_get key doc_map with
               | Some data => data
               | None => new_entry doc_id metadata
               end))
    else dm_get key doc_map.
Proof.
  induction doc_map as [|[k data] rest IH]; simpl.
  - by destruct (val_eqb doc_id key).
  - destruct (val_eqb k doc_id) eqn:Hk; simpl.
    + apply val_eqb_eq in Hk as ->. by destruct (val_eqb doc_id key).
    + destruct (val_eqb k key) eqn:Hkey; [|exact IH].
      apply val_eqb_eq in Hkey as ->.
      assert (Hsym : val_eqb doc_id key = false)
        by (apply val_eqb_neq; apply val_eqb_neq in Hk; congruence).
      by rewrite Hsym.
Qed.

Lemma dm_get_None key doc_map :
  dm_get key doc_map = None <-> ~ In key (map fst doc_map).
Proof.
  induction doc_map as [|[k data] rest IH]; simpl; [tauto|].
  destruct (val_eqb k key) eqn:Hk.
  - apply val_eqb_eq in Hk. split; [done|]. intros H. destruct H. by left.
  - apply val_eqb_neq in Hk. rewrite IH. tauto.
Qed.

Lemma dm_get_In key data doc_map :
  List.NoDup (map fst doc_map) -> In (key, data) doc_map ->
  dm_get key doc_map = Some data.
Proof.
  induction doc_map as [|[k d] rest IH]; simpl; [done|].
  intros Hnodup [Heq|Hin].
  - injection Heq as -> ->. by rewrite val_eqb_refl.
  - apply NoDup_cons_iff in Hnodup as [Hk Hnodup].
    destruct (val_eqb k key) eqn:Hkey; [|by apply IH].
    apply val_eqb_eq in Hkey as ->. destruct Hk.
    apply in_map_iff. by exists (key, data).
Qed.

Lemma dm_get_Some key data doc_map :
  dm_get key doc_map = Some data -> In (key, data) doc_map.
Proof.
  induction doc_map as [|[k d] rest IH]; simpl; [done|].
  destruct (val_eqb k key) eqn:Hkey.
  - apply val_eqb_eq in Hkey as ->. intros [= ->]. by left.
  - intros H. right. by apply IH.
Qed.

Lemma keys_doc_map_add doc_id metadata doc_map :
  map fst (doc_map_add doc_id metadata doc_map)
  = match dm_get doc_id doc_map with
    | Some _ => map fst doc_map
    | None => map fst doc_map ++ [doc_id]
    end.
Proof.
  induction doc_map as [|[k data] rest IH]; simpl; [done|].
  destruct (val_eqb k doc_id) eqn:Hk; simpl; [done|].
  rewrite IH. by destruct (dm_get doc_id rest).
Qed.

Lemma doc_map_add_NoDup doc_id metadata doc_map :
  List.NoDup (map fst doc_map) ->
  List.NoDup (map fst (doc_map_add doc_id metadata doc_map)).
Proof.
  intros Hnodup. rewrite keys_doc_map_add.
  destruct (dm_get doc_id doc_map) eqn:Hget; [done|].
  apply dm_get_None in Hget.
  apply List.NoDup_app; [done| |].
  - constructor; [intros []|constructor].
  - intros x Hx [<-|[]]. done.
Qed.

Lemma aggregate_documents_NoDup metadatas doc_map :
  List.NoDup (map fst doc_map) ->
  List.NoDup (map fst (aggregate_documents metadatas doc_map)).
Proof.
  revert doc_map. induction metadatas as [|m ms IH]; intros dm Hnodup; simpl;
    [done|].
  destruct (m !! "doc_id") as [v|]; [|by apply IH].
  destruct (truthy v); apply IH; [|done]. by apply doc_map_add_NoDup.
Qed.

Lemma dm_get_aggregate_documents key metadatas doc_map :
  dm_get key (aggregate_documents metadatas doc_map)
  = fold_left (entry_step key) metadatas (dm_get key doc_map).
Proof.
  revert doc_map. induction metadatas as [|m ms IH]; intros dm; simpl;
    [done|].
  unfold entry_step at 2, names_document, carries.
  destruct (m !! "doc_id") as [v|] eqn:Hv; [|apply IH].
  destruct (truthy v) eqn:Htrue; [|apply IH]. simpl.
  rewrite IH, dm_get_doc_map_add.
  destruct (val_eqb v key) eqn:Hkey; [|done].
  by apply val_eqb_eq in Hkey as ->.
Qed.

Lemma entry_from_app data l l' :
  entry_from data (l ++ l') = entry_from (entry_from data l) l'.
Proof. unfold entry_from. apply fold_left_app. Qed.

Lemma entry_from_fields data l :
  de_doc_id (entry_from data l) = de_doc_id data /\
  de_source_filename (entry_from data l) = de_source_filename data /\
  de_ingested_at (entry_from data l) = de_ingested_at data /\
  de_chunks (entry_from data l) = de_chunks data + len l /\
  de_pages (entry_from data l) = pages_of (de_pages data) l.
Proof.
  revert data. induction l as [|m ms IH]; intros data.
  - unfold len. simpl. repeat split; try done. lia.
  - destruct (IH (count_chunk m data)) as (H1 & H2 & H3 & H4 & H5).
    change (entry_from data (m :: ms))
      with (entry_from (count_chunk m data) ms).
    rewrite H1, H2, H3, H4, H5. unfold len. simpl.
    repeat split; try done. lia.
Qed.

Lemma entry_fold_Some key data metadatas :
  fold_left (entry_step key) metadatas (Some data)
  = Some (entry_from data
            (List.filter (fun m => names_document m && carries key m)
               metadatas)).
Proof.
  revert data. induction metadatas as [|m ms IH]; intros data; simpl;
    [done|].
  unfold entry_step at 2.
  destruct (names_document m && carries key m); [|apply IH].
  rewrite IH. done.
Qed.

Lemma entry_fold_None key metadatas :
  fold_left (entry_step key) metadatas None
  = match List.filter (fun m => names_document m && carries key m) metadatas
    with
    | [] => None
    | m :: rest => Some (entry_from (new_entry key m) (m :: rest))
    end.
Proof.
  induction metadatas as [|m ms IH]; simpl; [done|].
  unfold entry_step at 2.
  destruct (names_document m && carries key m); [|apply IH].
  by rewrite entry_fold_Some.
Qed.

(** A chunk that carries a true key names a document. *)
Lemma carries_names key m :
  truthy key = true -> carries key m = true -> names_document m = true.
Proof.
  unfold carries, names_document. destruct (m !! "doc_id") as [v|]; [|done].
  intros Htrue Hv. by apply val_eqb_eq in Hv as ->.
Qed.

Lemma filter_carries key metadatas :
  truthy key = true ->
  List.filter (fun m => names_document m && carries key m) metadatas
  = List.filter (carries key) metadatas.
Proof.
  intros Htrue. apply List.filter_ext. intros m.
  destruct (carries key m) eqn:Hc; [|apply andb_false_r].
  by rewrite (carries_names key m).
Qed.

(** The keys of the dictionary are true. *)
Lemma aggregate_documents_keys metadatas doc_map key :
  (forall k, In k (map fst doc_map) -> truthy k = true) ->
  In key (map fst (aggregate_documents metadatas doc_map)) ->
  truthy key = true.
Proof.
  revert doc_map. induction metadatas as [|m ms IH]; intros dm Hdm; simpl;
    [apply Hdm|].
  destruct (m !! "doc_id") as [v|]; [|by apply IH].
  destruct (truthy v) eqn:Htrue; apply IH; [|done].
  intros k. rewrite keys_doc_map_add.
  destruct (dm_get v dm); [apply Hdm|].
  rewrite in_app_iff. intros [Hin|[<-|[]]]; [by apply Hdm|done].
Qed.

(** Every entry of the dictionary counts the chunks that carry its key. *)
Lemma aggregate_documents_entry metadatas key data :
  In (key, data) (aggregate_documents metadatas []) ->
  truthy key = true /\
  exists m rest,
    List.filter (carries key) metadatas = m :: rest /\
    data = entry_from (new_entry key m) (m :: rest).
Proof.
  intros Hin.
  assert (Htrue : truthy key = true).
  { apply (aggregate_documents_keys metadatas [] key); [by intros k []|].
    apply in_map_iff. by exists (key, data). }
  split; [done|].
  apply dm_get_In in Hin; [|apply aggregate_documents_NoDup; constructor].
  rewrite dm_get_aggregate_documents in Hin. simpl in Hin.
  rewrite entry_fold_None, filter_carries in Hin by done.
  destruct (List.filter (carries key) metadatas) as [|m rest]; [done|].
  injection Hin as <-. by exists m, rest.
Qed.

Lemma sum_chunks_doc_map_add doc_id metadata doc_map :
  sum_chunks (doc_map_add doc_id metadata doc_map) = sum_chunks doc_map + 1.
Proof.
  induction doc_map as [|[k data] rest IH]; simpl; [done|].
  destruct (val_eqb k doc_id); simpl.
  - unfold sum_chunks. simpl. lia.
  - unfold sum_chunks in *. simpl. lia.
Qed.

Lemma sum_chunks_aggregate_documents metadatas doc_map :
  sum_chunks (aggregate_documents metadatas doc_map)
  = sum_chunks doc_map + len (List.filter names_document metadatas).
Proof.
  revert doc_map. induction metadatas as [|m ms IH]; intros dm; simpl.
  - unfold len. simpl. lia.
  - unfold names_document at 1.
    destruct (m !! "doc_id") as [v|]; [|apply IH].
    destruct (truthy v); [|apply IH].
    rewrite IH, sum_chunks_doc_map_add. unfold len. simpl. lia.
Qed.

Lemma filter_map_comm {B C} (f : C -> bool) (g : B -> C) (l : list B) :
  List.filter f (map g l) = map g (List.filter (fun x => f (g x)) l).
Proof.
  induction l as [|x l IH]; simpl; [done|].
  destruct (f (g x)); simpl; by rewrite IH.
Qed.

Lemma is_str_val v : is_str v = true -> VStr (str_val v) = v.
Proof. by destruct v. Qed.

Lemma str_or_missing_get metadata key default :
  str_or_missing (metadata !! key) = true -> is_str default = true ->
  is_str (dict_get metadata key default) = true.
Proof.
  unfold dict_get. destruct (metadata !! key) as [[s|z]|]; done.
Qed.

Lemma string_fields_inv metadata :
  string_fields metadata = true ->
  str_or_missing (metadata !! "doc_id") = true /\
  str_or_missing (metadata !! "source_filename") = true /\
  str_or_missing (metadata !! "ingested_at") = true.
Proof.
  unfold string_fields. intros H.
  apply andb_true_iff in H as [H H3]. apply andb_true_iff in H as [H1 H2].
  done.
Qed.

Lemma doc_map_add_strings doc_id metadata doc_map :
  forallb entry_strings doc_map = true ->
  string_fields metadata = true ->
  metadata !! "doc_id" = Some doc_id ->
  forallb entry_strings (doc_map_add doc_id metadata doc_map) = true.
Proof.
  intros Hdm Hm Hid. apply string_fields_inv in Hm as (H1 & H2 & H3).
  rewrite Hid in H1.
  induction doc_map as [|[k data] rest IH]; simpl.
  - unfold entry_strings. simpl.
    rewrite !str_or_missing_get by done. by destruct doc_id.
  - simpl in Hdm. apply andb_true_iff in Hdm as [Hhead Hrest].
    destruct (val_eqb k doc_id); simpl.
    + rewrite Hrest. unfold entry_strings in *. simpl in *.
      by rewrite Hhead.
    + by rewrite Hhead, IH.
Qed.

Lemma aggregate_documents_strings metadatas doc_map :
  forallb entry_strings doc_map = true ->
  (forall m, In m metadatas -> string_fields m = true) ->
  forallb entry_strings (aggregate_documents metadatas doc_map) = true.
Proof.
  revert doc_map. induction metadatas as [|m ms IH]; intros dm Hdm Hall;
    simpl; [done|].
  assert (Hms : forall m', In m' ms -> string_fields m' = true)
    by (intros m' Hin; apply Hall; by right).
  destruct (m !! "doc_id") as [v|] eqn:Hv; [|by apply IH].
  destruct (truthy v); apply IH; try done.
  apply doc_map_add_strings; [done| |done]. apply Hall. by left.
Qed.

Lemma build_documents_strings validate items documents :
  accepts_strings validate ->
  forallb entry_strings items = true ->
  App.build_documents validate items documents
  = Return (documents ++ map info_of items).
Proof.
  intros Hvalid. revert documents.
  induction items as [|[k data] rest IH]; intros documents Hitems; simpl.
  - by rewrite app_nil_r.
  - simpl in Hitems. apply andb_true_iff in Hitems as [Hhead Hrest].
    unfold entry_strings in Hhead. simpl in Hhead.
    apply andb_true_iff in Hhead as [Hhead H3].
    apply andb_true_iff in Hhead as [H1 H2].
    unfold App.DocumentInfo_new.
    rewrite <- (is_str_val k H1) at 1.
    rewrite <- (is_str_val (de_source_filename data) H2) at 1.
    rewrite <- (is_str_val (de_ingested_at data) H3) at 1.
    rewrite Hvalid, IH by done. by rewrite <- app_assoc.
Qed.

(** What [GET /documents] does on a store of string metadata when the
    engine answers. *)
Lemma list_documents_run faults validate w :
  collection_get_check faults (collection w) = None ->
  accepts_strings validate ->
  (forall rec, In rec (collection w) ->
     string_fields (rec_metadata rec) = true) ->
  App.list_documents faults validate w
  = (Return (map info_of
               (aggregate_documents (map rec_metadata (collection w)) [])),
     w).
Proof.
  intros Hget Hvalid Hstrings.
  assert (Hall : get_all_documents faults w
                 = (Return (result_of (collection w)), w)).
  { unfold get_all_documents, try_except, collection_get. by rewrite Hget. }
  unfold App.list_documents, try_except, bind. rewrite Hall.
  cbn [result_of get_metadatas]. unfold lift.
  rewrite build_documents_strings; [done|done|].
  apply aggregate_documents_strings; [done|].
  intros m Hin. apply in_map_iff in Hin as (rec & <- & Hin). by apply Hstrings.
Qed.

Lemma sum_chunks_info items :
  fold_right Z.add 0 (map di_chunks (map info_of items)) = sum_chunks items.
Proof.
  induction items as [|[k data] rest IH]; [done|].
  unfold sum_chunks in *. simpl. by rewrite IH.
Qed.

Lemma pages_of_length pages metadatas :
  (length pages <= length (pages_of pages metadatas)
   <= length pages + length metadatas)%nat /\
  (metadatas <> [] -> 1 <= length (pages_of pages metadatas))%nat.
Proof.
  revert pages. induction metadatas as [|m ms IH]; intros pages.
  - unfold pages_of. simpl. split; [lia|done].
  - change (pages_of pages (m :: ms))
      with (pages_of (set_add (m !! "page_number") pages) ms).
    destruct (IH (set_add (m !! "page_number") pages)) as [Hle _].
    pose proof (set_add_length (m !! "page_number") pages) as [Hadd Hone].
    simpl. split; [lia|]. intros _. lia.
Qed.

Lemma aggregate_metadata_pages_of metadatas pages source_filename ingested_at :
  fst (fst (aggregate_metadata metadatas pages source_filename ingested_at))
  = pages_of pages metadatas.
Proof.
  revert pages source_filename ingested_at.
  induction metadatas as [|m ms IH]; intros pages sf ia; [done|].
  simpl. apply IH.
Qed.

Lemma aggregate_metadata_strings metadatas pages source_filename ingested_at :
  (forall m, In m metadatas -> string_fields m = true) ->
  is_str source_filename = true -> is_str ingested_at = true ->
  is_str (snd (fst (aggregate_metadata metadatas pages source_filename
                      ingested_at))) = true /\
  is_str (snd (aggregate_metadata metadatas pages source_filename
                 ingested_at)) = true.
Proof.
  revert pages source_filename ingested_at.
  induction metadatas as [|m ms IH]; intros pages sf ia Hall Hsf Hia;
    [done|].
  simpl. destruct (string_fields_inv m (Hall m (or_introl eq_refl)))
    as (_ & H2 & H3).
  apply IH.
  - intros m' Hin. apply Hall. by right.
  - by apply str_or_missing_get.
  - by apply str_or_missing_get.
Qed.

(** The chunks of a document among the stored ones, seen from their
    metadata. *)
Lemma found_metadata doc_id (l : list StoredRecord) :
  map rec_metadata (List.filter (has_doc_id doc_id) l)
  = List.filter (carries (VStr doc_id)) (map rec_metadata l).
Proof. by rewrite filter_map_comm. Qed.

(** An entry of the listing: its key is a string that is not empty, and it
    counts the stored records that carry the key. *)
Lemma listed_entry (l : list StoredRecord) key data :
  (forall rec, In rec l -> string_fields (rec_metadata rec) = true) ->
  In (key, data) (aggregate_documents (map rec_metadata l) []) ->
  exists doc_id m rest,
    key = VStr doc_id /\ doc_id <> "" /\
    map rec_metadata (List.filter (has_doc_id doc_id) l) = m :: rest /\
    data = entry_from (new_entry key m) (m :: rest).
Proof.
  intros Hstrings Hin.
  assert (Hkey : is_str key = true).
  { assert (Hall : forallb entry_strings
                     (aggregate_documents (map rec_metadata l) []) = true).
    { apply aggregate_documents_strings; [done|].
      intros m Hm. apply in_map_iff in Hm as (rec & <- & Hrec).
      by apply Hstrings. }
    rewrite forallb_forall in Hall. specialize (Hall _ Hin).
    unfold entry_strings in Hall. simpl in Hall.
    apply andb_true_iff in Hall as [Hall _].
    by apply andb_true_iff in Hall as [Hall _]. }
  apply aggregate_documents_entry in Hin as (Htrue & m & rest & Hfound & ->).
  destruct key as [doc_id|z]; [|done].
  exists doc_id, m, rest. split; [done|]. split.
  - intros ->. done.
  - by rewrite found_metadata.
Qed.

(** X19. On a store whose document identifiers, file names and timestamps
    are strings, and when the engine answers, [GET /documents] returns one
    entry per document identifier that is not empty: the identifiers of the
    entries are pairwise different, every stored record that names a
    document belongs to a listed one, each entry counts the stored records
    carrying its identifier and between one and that many pages, and the
    chunk counts add up to the number of stored records that name a
    document. *)
Theorem list_documents_accounts_for_chunks faults validate w :
  collection_get_check faults (collection w) = None ->
  accepts_strings validate ->
  (forall rec, In rec (collection w) ->
     string_fields (rec_metadata rec) = true) ->
  exists docs,
    App.list_documents faults validate w = (Return docs, w) /\
    List.NoDup (map di_doc_id docs) /\
    fold_right Z.add 0 (map di_chunks docs)
    = len (List.filter (fun rec => names_document (rec_metadata rec))
             (collection w)) /\
    (forall d, In d docs ->
       di_doc_id d <> "" /\
       di_chunks d
       = len (List.filter (has_doc_id (di_doc_id d)) (collection w)) /\
       1 <= di_pages d <= di_chunks d) /\
    (forall rec, In rec (collection w) ->
       names_document (rec_metadata rec) = true ->
       exists d, In d docs /\ has_doc_id (di_doc_id d) rec = true).
Proof.
  intros Hget Hvalid Hstrings.
  exists (map info_of
            (aggregate_documents (map rec_metadata (collection w)) [])).
  split; [by apply list_documents_run|].
  set (dm := aggregate_documents (map rec_metadata (collection w)) []).
  assert (Hnodup : List.NoDup (map fst dm))
    by (apply aggregate_documents_NoDup; constructor).
  assert (Hall : forallb entry_strings dm = true).
  { apply aggregate_documents_strings; [done|].
    intros m Hm. apply in_map_iff in Hm as (rec & <- & Hrec).
    by apply Hstrings. }
  split; [|split; [|split]].
  - replace (map di_doc_id (map info_of dm)) with (map str_val (map fst dm))
      by (rewrite !map_map; done).
    apply Finite.Injective_map_NoDup_in; [|done].
    intros x y Hx Hy Heq.
    assert (Hstr : forall k, In k (map fst dm) -> is_str k = true).
    { intros k Hk. apply in_map_iff in Hk as (item & <- & Hitem).
      rewrite forallb_forall in Hall. specialize (Hall _ Hitem).
      unfold entry_strings in Hall.
      apply andb_true_iff in Hall as [Hall _].
      by apply andb_true_iff in Hall as [Hall _]. }
    rewrite <- (is_str_val x), <- (is_str_val y) by by apply Hstr.
    by rewrite Heq.
  - rewrite sum_chunks_info. unfold dm.
    rewrite sum_chunks_aggregate_documents, filter_map_comm.
    unfold len, sum_chunks. simpl. by rewrite length_map.
  - intros d Hd. apply in_map_iff in Hd as ([key data] & <- & Hitem).
    apply listed_entry in Hitem
      as (doc_id & m & rest & -> & Hne & Hfound & ->); [|done].
    destruct (entry_from_fields (new_entry (VStr doc_id) m) (m :: rest))
      as (_ & _ & _ & Hchunks & Hpages).
    unfold info_of. cbn [fst snd str_val di_doc_id di_chunks di_pages].
    rewrite Hchunks, Hpages.
    assert (Hlen : len (List.filter (has_doc_id doc_id) (collection w))
                   = len (m :: rest)).
    { unfold len. by rewrite <- Hfound, length_map. }
    rewrite Hlen.
    change (de_pages (new_entry (VStr doc_id) m)) with (@nil (option Val)).
    change (de_chunks (new_entry (VStr doc_id) m)) with 0.
    destruct (pages_of_length [] (m :: rest)) as [[_ Hle] Hone].
    specialize (Hone ltac:(done)).
    change (length (@nil (option Val)) + length (m :: rest))%nat
      with (length (m :: rest)) in Hle.
    unfold len. split; [done|]. split; lia.
  - intros rec Hrec Hnames.
    pose proof (Hstrings rec Hrec) as Hfields.
    apply string_fields_inv in Hfields as (Hid & _ & _).
    unfold names_document in Hnames.
    destruct (rec_metadata rec !! "doc_id") as [[doc_id|z]|] eqn:Hlookup;
      try done.
    destruct (dm_get (VStr doc_id) dm) as [data|] eqn:Hdm.
    + apply dm_get_Some in Hdm. exists (info_of (VStr doc_id, data)).
      split; [by apply in_map|]. simpl. by apply has_doc_id_spec.
    + unfold dm in Hdm. rewrite dm_get_aggregate_documents in Hdm.
      simpl in Hdm. rewrite entry_fold_None, filter_carries in Hdm by done.
      assert (Hin : In (rec_metadata rec)
                (List.filter (carries (VStr doc_id))
                   (map rec_metadata (collection w)))).
      { apply filter_In. split; [by apply in_map|].
        unfold carries. rewrite Hlookup. apply val_eqb_refl. }
      destruct (List.filter (carries (VStr doc_id))
                  (map rec_metadata (collection w))); [destruct Hin|done].
Qed.

Lemma list_documents_accounts_for_chunks_witness :
  exists docs,
    App.list_documents sound_engine strict_validate mixed_world
    = (Return docs, mixed_world) /\
    map di_doc_id docs = ["doc1"; "doc2"] /\
    map di_chunks docs = [2; 1].
Proof.
  destruct (list_documents_accounts_for_chunks sound_engine strict_validate
              mixed_world) as (docs & Hrun & _).
  - done.
  - intros d s p c t. reflexivity.
  - intros rec Hin. simpl in Hin.
    destruct Hin as [<-|[<-|[<-|[]]]]; reflexivity.
  - exists docs. split; [exact Hrun|].
    assert (Hdocs : docs = [mkDocumentInfo "doc1" "test.pdf" 1 2 "";
                            mkDocumentInfo "doc2" "unknown" 1 1 ""]).
    { vm_compute in Hrun. by injection Hrun as <-. }
    by rewrite Hdocs.
Defined.

(** X20. On a store whose document identifiers, file names and timestamps
    are strings, when the engine answers and the response model takes
    strings as they are, the listing and the lookup of one document agree
    on its size: for every entry of [GET /documents],
    [GET /documents/{doc_id}] for the entry's identifier returns, on the
    same store, a document with the same identifier, the same number of
    chunks and the same number of pages. *)
Theorem list_and_get_agree faults validate w docs d :
  collection_get_check faults (collection w) = None ->
  accepts_strings validate ->
  (forall rec, In rec (collection w) ->
     string_fields (rec_metadata rec) = true) ->
  App.list_documents faults validate w = (Return docs, w) ->
  In d docs ->
  exists d',
    App.get_document faults validate (di_doc_id d) w = (Return d', w) /\
    di_doc_id d' = di_doc_id d /\
    di_chunks d' = di_chunks d /\
    di_pages d' = di_pages d.
Proof.
  intros Hget Hvalid Hstrings Hrun Hd.
  rewrite list_documents_run in Hrun by done. injection Hrun as <-.
  apply in_map_iff in Hd as ([key data] & <- & Hitem).
  apply listed_entry in Hitem
    as (doc_id & m & rest & -> & Hne & Hfound & ->); [|done].
  destruct (entry_from_fields (new_entry (VStr doc_id) m) (m :: rest))
    as (_ & _ & _ & Hchunks & Hpages).
  unfold info_of. cbn [fst snd str_val di_doc_id di_chunks di_pages].
  rewrite Hchunks, Hpages.
  rewrite (get_document_run faults validate doc_id w Hget).
  assert (Hlen : len (List.filter (has_doc_id doc_id) (collection w))
                 = len (m :: rest)).
  { unfold len. by rewrite <- Hfound, length_map. }
  rewrite Hlen, Hfound.
  destruct (List.filter (has_doc_id doc_id) (collection w)) as [|r rs] eqn:Hf;
    [done|].
  assert (Hfields : forall m', In m' (m :: rest) -> string_fields m' = true).
  { intros m' Hm'. rewrite <- Hfound in Hm'.
    apply in_map_iff in Hm' as (rec & <- & Hrec).
    apply Hstrings. rewrite <- Hf in Hrec. by apply filter_In in Hrec as [? _]. }
  pose proof (aggregate_metadata_pages_of (m :: rest) [] (VStr "unknown")
                (VStr "")) as Hp.
  destruct (aggregate_metadata_strings (m :: rest) [] (VStr "unknown")
              (VStr "") Hfields eq_refl eq_refl) as [Hsf Hia].
  destruct (aggregate_metadata (m :: rest) [] (VStr "unknown") (VStr ""))
    as [[pages source_filename] ingested_at].
  simpl in Hp, Hsf, Hia. subst pages.
  rewrite <- (is_str_val source_filename Hsf), <- (is_str_val ingested_at Hia).
  rewrite Hvalid. eexists. split; [reflexivity|]. simpl.
  split; [done|]. split; [unfold len; simpl; lia|done].
Qed.

Lemma list_and_get_agree_witness :
  exists d',
    App.get_document sound_engine strict_validate "doc1" mixed_world
    = (Return d', mixed_world) /\
    di_chunks d' = 2 /\ di_pages d' = 1.
Proof.
  destruct (list_and_get_agree sound_engine strict_validate mixed_world
              [mkDocumentInfo "doc1" "test.pdf" 1 2 "";
               mkDocumentInfo "doc2" "unknown" 1 1 ""]
              (mkDocumentInfo "doc1" "test.pdf" 1 2 ""))
    as (d' & Hrun & _ & Hchunks & Hpages).
  - done.
  - intros d s p c t. reflexivity.
  - intros rec Hin. simpl in Hin.
    destruct Hin as [<-|[<-|[<-|[]]]]; reflexivity.
  - vm_compute. reflexivity.
  - by left.
  - exists d'. done.
Defined.

(** The two routes need not agree on the file name: the listing keeps the
    first one it meets, the lookup the last. *)
Example list_and_get_disagree_on_name :
  fst (App.list_documents sound_engine strict_validate renamed_world)
  = Return [mkDocumentInfo "a" "old.pdf" 1 2 ""] /\
  fst (App.get_document sound_engine strict_validate "a" renamed_world)
  = Return (mkDocumentInfo "a" "new.pdf" 1 2 "").
Proof. split; vm_compute; reflexivity. Qed.
